(** * Liquidation bot: check filter, traders checker, traders liquidator, orchestrator

    A shallow embedding of the event pipeline of [src/liquidationBot]:

    - [services/liquidationBot/liquidationBot.ts]: [constructFilterLiquidatableTraders]
    - [processors/tradersChecker.ts]: [saveActiveTraders] and the body of the
      generators in [liquidatableTradersGenerators]
    - [processors/tradersLiquidator.ts]: [saveLiquidatableTraders],
      [liquidationsGenerator], [filterNonLiquidatableTraders]
    - [bot.ts]: [start], [join], [stop], the adapters between the processors
      and [liquidatorReporter]
    - [reporting/reporters/pm2.ts]: [reportEvent], [getDurationStr] and the
      metrics that show a duration

    Asynchronous generators are embedded as the finite list of values they
    yield; code that is suspended at an [await] is embedded as a machine whose
    program counter names the [await], driven by the inputs of its
    environment (stream writes, settled promises, timers).

    JavaScript numbers that hold integers (timestamps of [Date.now()], sizes,
    offsets, whole-second intervals) are [Z]. *)

From Stdlib Require Import List String ZArith Bool Arith Lia.
From Stdlib Require Import DecimalString Sorted.
Import ListNotations.

Local Open Scope string_scope.
Local Open Scope list_scope.

(** ** Plain JavaScript objects used as dictionaries

    [Object.keys] / [Object.entries] enumerate string keys in insertion
    order, and assigning to an existing key keeps its position: an
    association list without repeated keys.  Keys are trader addresses
    (["0x..."]); keys that look like array indices, which JavaScript would
    enumerate first, and names inherited from [Object.prototype] are outside
    the model. *)
Module JsObject.

Definition t (V : Type) : Type := list (string * V).

(** [o[k]]: [None] is [undefined]. *)
Fixpoint get {V : Type} (o : t V) (k : string) : option V :=
  match o with
  | [] => None
  | (k', v) :: o' => if String.eqb k k' then Some v else get o' k
  end.

(** [o[k] = v]. *)
Fixpoint set {V : Type} (o : t V) (k : string) (v : V) : t V :=
  match o with
  | [] => [(k, v)]
  | (k', v') :: o' =>
      if String.eqb k k' then (k', v) :: o' else (k', v') :: set o' k v
  end.

Definition keys {V : Type} (o : t V) : list string := map fst o.

Definition entries {V : Type} (o : t V) : list (string * V) := o.

(** [Object.fromEntries(es)]: assigns the entries from left to right. *)
Definition fromEntries {V : Type} (es : list (string * V)) : t V :=
  fold_left (fun o e => set o (fst e) (snd e)) es [].

(** lodash [isEmpty] on a plain object. *)
Definition isEmpty {V : Type} (o : t V) : bool :=
  match o with [] => true | _ :: _ => false end.

End JsObject.

(** ** A JavaScript [Set] of strings

    Iteration ([[...set]], [forEach]) follows insertion order. *)
Module JsSet.

Definition t : Type := list string.

Definition has (s : t) (x : string) : bool := existsb (String.eqb x) s.

Definition add (s : t) (x : string) : t := if has s x then s else s ++ [x].

Definition delete (s : t) (x : string) : t :=
  filter (fun y => negb (String.eqb x y)) s.

Definition size (s : t) : nat := List.length s.

(** [new Set(xs)] *)
Definition ofList (xs : list string) : t := fold_left add xs [].

(** [xs.forEach(x => s.add(x))] *)
Definition addAll (s : t) (xs : list string) : t := fold_left add xs s.

(** [xs.forEach(x => s.delete(x))] *)
Definition deleteAll (s : t) (xs : list string) : t := fold_left delete xs s.

(** [s.delete(x)] with the value it returns: whether [x] was in the set. *)
Definition deleteResult (s : t) (x : string) : t * bool := (delete s x, has s x).

End JsSet.

(** ** Data model *)

Definition Trader : Type := string.

(** The underlying error of a failure, identified by its message. *)
Definition Cause : Type := string.

(** The JavaScript values that occur as property values of a check result. *)
Inductive Value : Type :=
| VUndefined
| VBool (b : bool)
| VNum (n : Z)
| VTraders (ts : list Trader)
| VCause (c : Cause).

(** [Boolean(v)], the test of [if (v)] and of [pickBy(Boolean)]. *)
Definition truthy (v : Value) : bool :=
  match v with
  | VUndefined => false
  | VBool b => b
  | VNum n => negb (n =? 0)%Z
  | VTraders _ => true
  | VCause _ => true
  end.

(** The arguments of [new CheckError(chunkOfTraders, chunkIndex * chunkSize,
    traders.length, error)]. *)
Record CheckError : Type := mkCheckError {
  errTraders : list Trader;
  errChunkStart : Z;
  errTradersTotal : Z;
  errCause : Cause
}.

(** Modelled from the spec: the class [CheckError] of [@liquidationBot/errors]
    is not part of the sources at hand.  The spec describes it as carrying
    "which traders, at what offset, out of how many, and the underlying
    cause"; the constructor call in [liquidationBot.ts] passes these four in
    this order.  Its own enumerable properties are taken to be the four
    constructor parameters, as TypeScript parameter properties are. *)
Definition checkErrorEntries (e : CheckError) : list (string * Value) :=
  [ ("traders", VTraders (errTraders e));
    ("chunkStart", VNum (errChunkStart e));
    ("tradersTotal", VNum (errTradersTotal e));
    ("cause", VCause (errCause e)) ].

(** [LiquidatableTradersCheckResult]: [{ [k in Trader]: boolean } | CheckError]. *)
Inductive CheckResult : Type :=
| Checked (o : JsObject.t Value)
| Failed (e : CheckError).

(** [Object.entries(checkResult)] *)
Definition resultEntries (r : CheckResult) : list (string * Value) :=
  match r with
  | Checked o => JsObject.entries o
  | Failed e => checkErrorEntries e
  end.

(** ** lodash helpers *)
Module Lodash.

Fixpoint chunkLoop {A : Type} (fuel size : nat) (array : list A) : list (list A) :=
  match fuel with
  | O => []
  | S fuel' =>
      match array with
      | [] => []
      | _ :: _ => firstn size array :: chunkLoop fuel' size (skipn size array)
      end
  end.

(** [chunk(array, size)]: [size = max(toInteger(size), 0)]; the result is
    empty when the array is empty or [size < 1]; otherwise slices of [size]
    elements are taken while elements remain. *)
Definition chunk {A : Type} (array : list A) (size : Z) : list (list A) :=
  let size' := Z.to_nat (Z.max size 0) in
  if (size' <? 1)%nat then [] else chunkLoop (List.length array) size' array.

Fixpoint zipObjectLoop (result : JsObject.t Value) (props : list string)
  (values : list bool) : JsObject.t Value :=
  match props with
  | [] => result
  | p :: props' =>
      match values with
      | [] => zipObjectLoop (JsObject.set result p VUndefined) props' []
      | v :: values' => zipObjectLoop (JsObject.set result p (VBool v)) props' values'
      end
  end.

(** [zipObject(props, values)]: one assignment per element of [props]; a
    property without a corresponding value is [undefined]. *)
Definition zipObject (props : list string) (values : list bool) : JsObject.t Value :=
  zipObjectLoop [] props values.

(** [_(o).pickBy(Boolean).keys()] *)
Definition truthyKeys (o : JsObject.t Value) : list string :=
  JsObject.keys (filter (fun e => truthy (snd e)) o).

(** [_(array).forEach(iteratee)]: the iteratee is called on the elements in
    order, and the iteration ends after the first call that returns [false].
    The iteratee is given with what it does to the state it writes to. *)
Fixpoint forEach {S A : Type} (iteratee : S -> A -> S * bool) (state : S) (array : list A)
  : S :=
  match array with
  | [] => state
  | x :: rest =>
      let (state', returned) := iteratee state x in
      if returned then forEach iteratee state' rest else state'
  end.

End Lodash.

(** ** Check filter ([liquidationBot.ts]) *)
Module CheckFilter.

(** One pass of calls to [liquidationBotApi.callStatic.isLiquidatable]: the
    settlement of the call issued for the chunk with the given index, either
    the booleans it resolves to or the error it rejects with. *)
Definition Api : Type := nat -> list Trader -> list bool + Cause.

(** The body of the [for] loop for one chunk: exactly one [yield]. *)
Definition checkChunk (api : Api) (chunkSize : Z) (traders : list Trader)
  (chunkIndex : nat) (chunkOfTraders : list Trader) : CheckResult :=
  match api chunkIndex chunkOfTraders with
  | inl areLiquidatable => Checked (Lodash.zipObject chunkOfTraders areLiquidatable)
  | inr error =>
      Failed (mkCheckError chunkOfTraders (Z.of_nat chunkIndex * chunkSize)
                (Z.of_nat (List.length traders)) error)
  end.

(** [for (const [chunkIndex, chunkOfTraders] of chunksOfTraders.entries())] *)
Fixpoint checkChunks (api : Api) (chunkSize : Z) (traders : list Trader)
  (chunkIndex : nat) (chunksOfTraders : list (list Trader)) : list CheckResult :=
  match chunksOfTraders with
  | [] => []
  | chunkOfTraders :: rest =>
      checkChunk api chunkSize traders chunkIndex chunkOfTraders
        :: checkChunks api chunkSize traders (S chunkIndex) rest
  end.

(** The values yielded by the generator returned by
    [constructFilterLiquidatableTraders(api, exchangeAddress, chunkSize)]. *)
Definition constructFilterLiquidatableTraders (api : Api) (chunkSize : Z)
  (traders : list Trader) : list CheckResult :=
  checkChunks api chunkSize traders 0 (Lodash.chunk traders chunkSize).

End CheckFilter.

(** ** Traders checker ([tradersChecker.ts]) *)
Module TradersChecker.

(** [let traders: { [k in Trader]: number | null }]: the last-checked-at
    timestamp of every active trader; [None] is [null]. *)
Definition Traders : Type := JsObject.t (option Z).

(** [x ?? null] for [x = traders[trader]]: [undefined] and [null] give [null]. *)
Definition orNull (x : option (option Z)) : option Z :=
  match x with
  | Some (Some checkedAt) => Some checkedAt
  | Some None => None
  | None => None
  end.

(** [saveActiveTraders]: the new value of [traders], and whether
    ["gotActiveTraders"] is emitted. *)
Definition saveActiveTraders (traders : Traders) (activeTraders : list Trader)
  : Traders * bool :=
  let traders' :=
    JsObject.fromEntries
      (map (fun trader => (trader, orNull (JsObject.get traders trader))) activeTraders) in
  (traders', negb (JsObject.isEmpty traders')).

(** What a generator of [liquidatableTradersGenerators] yields. *)
Inductive Output : Type :=
| YieldError (e : CheckError)
| YieldTraders (newLiquidatableTraders : list Trader).

(** [traderLastCheckedAt && traderLastCheckedAt >= checkedAt], for
    [traderLastCheckedAt = traders[trader]]: [undefined], [null] and [0] are
    falsy. *)
Definition skipCheck (traderLastCheckedAt : option (option Z)) (checkedAt : Z) : bool :=
  match traderLastCheckedAt with
  | Some (Some lastCheckedAt) => negb (lastCheckedAt =? 0)%Z && (checkedAt <=? lastCheckedAt)%Z
  | Some None => false
  | None => false
  end.

(** The variables the inner [for (const check of ...)] loop updates. *)
Record Acc : Type := mkAcc {
  accTraders : Traders;
  newLiquidatableTraders : list Trader;
  hadNewData : bool
}.

(** One iteration of [for (const check of Object.entries(checkedTraders))]. *)
Definition checkEntry (checkedAt : Z) (acc : Acc) (check : string * Value) : Acc :=
  let (trader, isLiquidatable) := check in
  if skipCheck (JsObject.get (accTraders acc) trader) checkedAt then acc
  else
    mkAcc (JsObject.set (accTraders acc) trader (Some checkedAt))
          (if truthy isLiquidatable
           then newLiquidatableTraders acc ++ [trader]
           else newLiquidatableTraders acc)
          true.

Definition checkEntries (checkedAt : Z) (traders : Traders) (checkedTraders : CheckResult) : Acc :=
  fold_left (checkEntry checkedAt) (resultEntries checkedTraders) (mkAcc traders [] false).

(** The body of [for await (const checkedTraders of ...)] for one check
    result: an [Error] is yielded, and the statements after the [if] run in
    either case. *)
Definition processCheckResult (checkedAt : Z) (traders : Traders)
  (checkedTraders : CheckResult) : Traders * list Output :=
  let acc := checkEntries checkedAt traders checkedTraders in
  (accTraders acc,
   match checkedTraders with
   | Failed e => [YieldError e]
   | Checked _ => []
   end ++
   (if hadNewData acc then [YieldTraders (newLiquidatableTraders acc)] else [])).

(** The [for await] loop over the results of one pass, when nothing else
    writes [traders] meanwhile. *)
Fixpoint processCheckResults (checkedAt : Z) (traders : Traders)
  (results : list CheckResult) : Traders * list Output :=
  match results with
  | [] => (traders, [])
  | checkedTraders :: rest =>
      let (traders1, out1) := processCheckResult checkedAt traders checkedTraders in
      let (traders2, out2) := processCheckResults checkedAt traders1 rest in
      (traders2, out1 ++ out2)
  end.

(** One pass of a generator: [activeTraders = Object.keys(traders)],
    [checkedAt = Date.now()], then the loop over the filter's results. *)
Definition pass (liquidatableTradersFilter : list Trader -> list CheckResult)
  (checkedAt : Z) (traders : Traders) : Traders * list Output :=
  processCheckResults checkedAt traders
    (liquidatableTradersFilter (JsObject.keys traders)).

(** What a caller passes to [start] as [liquidatableTradersFilters]: an
    array of filters, as the parameter is declared, or a single filter
    function. *)
Inductive FiltersArgument : Type :=
| FiltersArray (liquidatableTradersFilters : list (list Trader -> list CheckResult))
| FilterFunction (liquidatableTradersFilter : list Trader -> list CheckResult).

(** [start(reCheckIntervalSec, liquidatableTradersFilters)] as far as
    [liquidatableTradersFilters.map(...)]: one generator per filter, given
    here by its pass.  A function has no [map]: the call throws a TypeError,
    [None]. *)
Definition start (liquidatableTradersFilters : FiltersArgument)
  : option (list (Z -> Traders -> Traders * list Output)) :=
  match liquidatableTradersFilters with
  | FiltersArray filters => Some (map pass filters)
  | FilterFunction _ => None
  end.

(** The last-checked-at timestamp of a trader, [None] when the trader has
    none ([traders[trader]] is [null] or [undefined]). *)
Definition lastCheckedAt (traders : Traders) (trader : Trader) : option Z :=
  orNull (JsObject.get traders trader).

(** The delay of [await setTimeout(reCheckIntervalSec * 1_000)]. *)
Definition recheckDelay (reCheckIntervalSec : Z) : Z := (reCheckIntervalSec * 1000)%Z.

(** The lists a sequence of outputs puts on the trader channel. *)
Definition yieldedTraders (out : list Output) : list (list Trader) :=
  flat_map (fun o => match o with YieldTraders l => [l] | YieldError _ => [] end) out.

Definition yieldedErrors (out : list Output) : list CheckError :=
  flat_map (fun o => match o with YieldError e => [e] | YieldTraders _ => [] end) out.

End TradersChecker.

(** ** Traders liquidator ([tradersLiquidator.ts]) *)
Module TradersLiquidator.

Record LiquidationError : Type := mkLiquidationError {
  trader : Trader;
  cause : Cause
}.

(** A submitted transaction, identified by its hash. *)
Definition ContractTransaction : Type := string.

(** What [exchangeService.liquidate] resolves to. *)
Record Liquidations : Type := mkLiquidations {
  liquidationsResults : JsObject.t ContractTransaction;
  liquidationsErrors : list LiquidationError
}.

Inductive TradersLiquidatorResult : Type :=
| LiquidatableChecksErrors (errors : list CheckError)
| LiquidationsDone (results : Liquidations).

(** [saveLiquidatableTraders]: the new set, and whether
    ["gotLiquidatableTraders"] is emitted. *)
Definition saveLiquidatableTraders (liquidatableTraders : JsSet.t)
  (newLiquidatableTraders : list Trader) : JsSet.t * bool :=
  let liquidatableTraders' := JsSet.addAll liquidatableTraders newLiquidatableTraders in
  (liquidatableTraders', negb (JsSet.size liquidatableTraders' =? 0)%nat).

(** *** [filterNonLiquidatableTraders]

    The filters run concurrently on one thread: what happens is a sequence
    of events, each of them run to completion before the next. *)
Inductive FilterEvent : Type :=
| CheckYielded (filter : nat) (checkResult : CheckResult)
    (** the body of [for await (const checkResult of filter(traders))] runs *)
| FilterDone (filter : nat)
    (** the generator of the filter is exhausted: the first callback of [then] runs *).

Record Recheck : Type := mkRecheck {
  nonLiquidatableTraders : JsSet.t;
  liquidatableChecksErrors : list CheckError;
  gotSomeNonErrorResults : list nat;  (** the filters whose flag is [true] *)
  processed : nat;
  resolved : bool                     (** [returnResults()] has been called *)
}.

Definition recheckStart (traders : list Trader) : Recheck :=
  mkRecheck (JsSet.ofList traders) [] [] 0 false.

(** One event.  The traders an answer reports liquidatable are deleted by
    [_(checkResult).pickBy(Boolean).keys().forEach(trader =>
    nonLiquidatableTraders.delete(trader))]: the arrow function returns what
    [delete] returns, so lodash's [forEach] ends at the first of them that is
    not in the set. *)
Definition recheckStep (nFilters : nat) (s : Recheck) (ev : FilterEvent) : Recheck :=
  match ev with
  | CheckYielded _ (Failed e) =>
      mkRecheck (nonLiquidatableTraders s) (liquidatableChecksErrors s ++ [e])
                (gotSomeNonErrorResults s) (processed s) (resolved s)
  | CheckYielded filter (Checked checkResult) =>
      mkRecheck (Lodash.forEach JsSet.deleteResult (nonLiquidatableTraders s)
                   (Lodash.truthyKeys checkResult))
                (liquidatableChecksErrors s)
                (filter :: gotSomeNonErrorResults s) (processed s) (resolved s)
  | FilterDone filter =>
      let processed' := S (processed s) in
      let allProcessed := (processed' =? nFilters)%nat in
      mkRecheck (nonLiquidatableTraders s) (liquidatableChecksErrors s)
                (gotSomeNonErrorResults s) processed'
                (resolved s
                 || (allProcessed || existsb (Nat.eqb filter) (gotSomeNonErrorResults s)))
  end.

(** The variables after a sequence of events. *)
Definition recheckRun (nFilters : nat) (s : Recheck) (events : list FilterEvent) : Recheck :=
  fold_left (recheckStep nFilters) events s.

(** The number of events after which [returnResults()] is called for the
    first time, that is after which [someFilterSucceedOrAllFails] is
    resolved; [None] while it is pending. *)
Fixpoint resolvedAfter (nFilters : nat) (s : Recheck) (events : list FilterEvent)
  : option nat :=
  match events with
  | [] => None
  | ev :: rest =>
      let s' := recheckStep nFilters s ev in
      if resolved s' then Some 1%nat
      else option_map S (resolvedAfter nFilters s' rest)
  end.

(** [filterNonLiquidatableTraders(traders, liquidatableTradersFilters)],
    for [nFilters] filters: [events] is what has taken place when the
    caller's [await] of the result continues, which it does only after the
    promise has been resolved.  The set and the array it returns are the
    objects the filters write to, so the caller reads them as they are at
    that moment. *)
Definition filterNonLiquidatableTraders (traders : list Trader) (nFilters : nat)
  (events : list FilterEvent) : option (JsSet.t * list CheckError) :=
  let s := recheckRun nFilters (recheckStart traders) events in
  if resolved s
  then Some (nonLiquidatableTraders s, liquidatableChecksErrors s)
  else None.

(** The filter an event belongs to. *)
Definition eventFilter (ev : FilterEvent) : nat :=
  match ev with
  | CheckYielded filter _ => filter
  | FilterDone filter => filter
  end.

Definition eventsOf (filter : nat) (events : list FilterEvent) : list FilterEvent :=
  List.filter (fun ev => (eventFilter ev =? filter)%nat) events.

(** [events] is a complete course of the concurrent filters: for every
    filter, its events are the results its generator yields, in order, and
    then its completion. *)
Definition courseOf (liquidatableTradersFilters : list (list Trader -> list CheckResult))
  (traders : list Trader) (events : list FilterEvent) : Prop :=
  forall filter : nat,
    eventsOf filter events =
      match nth_error liquidatableTradersFilters filter with
      | Some f => map (CheckYielded filter) (f traders) ++ [FilterDone filter]
      | None => []
      end.

Definition isFilterDone (ev : FilterEvent) : bool :=
  match ev with
  | FilterDone _ => true
  | CheckYielded _ _ => false
  end.

(** The number of filters that have finished in the course of [events]. *)
Definition countDone (events : list FilterEvent) : nat :=
  List.length (List.filter isFilterDone events).

(** *** [liquidationsGenerator] together with [saveLiquidatableTraders]

    The places where the generator is suspended. *)
Inductive Pc : Type :=
| NotStarted
| AwaitTraders       (** [await once(tradersEvents, "gotLiquidatableTraders")], pending *)
| Woken              (** the same [await], the event has been emitted *)
| AwaitLiquidate     (** [await exchangeService.liquidate(...)] *)
| YieldedResults (errors : list LiquidationError)
                     (** [yield { liquidationsResults, liquidationsErrors }] *)
| AwaitTimeout (errors : list LiquidationError)
                     (** [await setTimeout(retryIntervalSec)] *)
| AwaitRecheck (erroredTraders : list Trader)
                     (** [await filterNonLiquidatableTraders(...)] *)
| YieldedChecksErrors (** [yield { liquidatableChecksErrors }] *).

Record State : Type := mkState {
  liquidatableTraders : JsSet.t;
  pc : Pc
}.

(** What the environment does. *)
Inductive Input : Type :=
| Write (newLiquidatableTraders : list Trader)  (** the stream writes a chunk *)
| Pull                                           (** the reader asks for the next value *)
| Resume                                         (** a resolved [once] or an expired timer continues *)
| Liquidated (liquidations : Liquidations)       (** [exchangeService.liquidate] resolves *)
| Rechecked (events : list FilterEvent)
    (** the course of the filters until the result of the re-check is read *).

(** What the generator does to its environment. *)
Inductive Effect : Type :=
| CallLiquidate (batch : list Trader)
| Yield (result : TradersLiquidatorResult)
| SetTimeout (delay : Z)
| CallFilters (traders : list Trader).

(** From [while (true) {] to the next [await]. *)
Definition loopHead (liquidatableTraders : JsSet.t) : State * list Effect :=
  if (JsSet.size liquidatableTraders =? 0)%nat
  then (mkState liquidatableTraders AwaitTraders, [])
  else (mkState liquidatableTraders AwaitLiquidate, [CallLiquidate liquidatableTraders]).

(** From after the timeout to [await filterNonLiquidatableTraders(...)]. *)
Definition startRecheck (liquidatableTraders : JsSet.t) (errors : list LiquidationError)
  : State * list Effect :=
  let erroredTraders := map trader errors in
  (mkState liquidatableTraders (AwaitRecheck erroredTraders), [CallFilters erroredTraders]).

Definition step (nFilters : nat) (retryIntervalSec : Z) (s : State) (i : Input)
  : State * list Effect :=
  match i, pc s with
  | Write new, AwaitTraders =>
      let (traders', emitted) := saveLiquidatableTraders (liquidatableTraders s) new in
      (mkState traders' (if emitted then Woken else AwaitTraders), [])
  | Write new, _ =>
      (mkState (fst (saveLiquidatableTraders (liquidatableTraders s) new)) (pc s), [])
  | Pull, NotStarted => loopHead (liquidatableTraders s)
  | Resume, Woken =>
      (mkState (liquidatableTraders s) AwaitLiquidate,
       [CallLiquidate (liquidatableTraders s)])
  | Liquidated liquidations, AwaitLiquidate =>
      let liquidatedTraders := JsObject.keys (liquidationsResults liquidations) in
      (mkState (JsSet.deleteAll (liquidatableTraders s) liquidatedTraders)
               (YieldedResults (liquidationsErrors liquidations)),
       [Yield (LiquidationsDone liquidations)])
  | Pull, YieldedResults errors =>
      match errors with
      | _ :: _ => (mkState (liquidatableTraders s) (AwaitTimeout errors),
                   [SetTimeout retryIntervalSec])
      | [] => startRecheck (liquidatableTraders s) errors
      end
  | Resume, AwaitTimeout errors => startRecheck (liquidatableTraders s) errors
  | Rechecked events, AwaitRecheck erroredTraders =>
      match filterNonLiquidatableTraders erroredTraders nFilters events with
      | None => (s, [])
      | Some (nonLiquidatable, checksErrors) =>
          let traders' := JsSet.deleteAll (liquidatableTraders s) nonLiquidatable in
          match checksErrors with
          | _ :: _ => (mkState traders' YieldedChecksErrors,
                       [Yield (LiquidatableChecksErrors checksErrors)])
          | [] => loopHead traders'
          end
      end
  | Pull, YieldedChecksErrors => loopHead (liquidatableTraders s)
  | _, _ => (s, [])
  end.

Definition initial : State := mkState [] NotStarted.

(** The effects of a run, in order. *)
Fixpoint run (nFilters : nat) (retryIntervalSec : Z) (s : State) (inputs : list Input)
  : State * list Effect :=
  match inputs with
  | [] => (s, [])
  | i :: rest =>
      let (s1, effects1) := step nFilters retryIntervalSec s i in
      let (s2, effects2) := run nFilters retryIntervalSec s1 rest in
      (s2, effects1 ++ effects2)
  end.

End TradersLiquidator.

(** ** Orchestrator ([bot.ts]) *)
Module Bot.

(** The events emitted as ["report"] on [botEventEmitter]. *)
Inductive Report : Type :=
| ReportCheckError (error : CheckError)
| TradersChecked (checkedTraders : list Trader)
| BotStopped.

(** How the promise of [pipeline(...)] settles: it is fulfilled, or rejected
    with an error that has the given [code]. *)
Inductive Settlement : Type :=
| Ended
| Raised (code : string).

Definition ABORT_ERR : string := "ABORT_ERR".

(** The promise stored in [isRunning], that is [pipeline(...).catch(...)]. *)
Inductive Promise : Type :=
| Pending
| Fulfilled
| Rejected (code : string).

Record State : Type := mkState {
  isRunning : option Promise;           (** [None] is [null] *)
  botAbortController : option bool;     (** [None]: not assigned yet; [Some aborted] *)
  listeners : nat;                      (** listeners attached to [botEventEmitter] *)
  reports : list Report                 (** the events emitted so far *)
}.

Definition initial : State := mkState None None 0 [].

(** What a call throws: an [Error] made by [start] or [stop] itself, the
    error the pipeline was rejected with, or a TypeError of the runtime. *)
Inductive Thrown : Type :=
| OwnError (message : string)
| PipelineError (code : string)
| TypeError (message : string).

(** The result of a call; for the asynchronous [stop] and [join], [Threw] is
    the rejection of the promise they return. *)
Inductive Result : Type :=
| Returned
| Threw (e : Thrown).

Definition alreadyRunning : string :=
  "Cannot start liquidation bot - it is already running".

Definition notRunning : string :=
  "Cannot stop liquidation bot - it is not running".

Definition mapIsNotAFunction : string :=
  "liquidatableTradersFilters.map is not a function".

Definition abortOfUndefined : string :=
  "Cannot read properties of undefined (reading 'abort')".

(** [start(...)]: the guard, the new [AbortController], the arguments of
    [pipeline(...)] and the assignment of the pipeline's promise to
    [isRunning].  [filterLiquidatableTraders] is the function that
    [constructFilterLiquidatableTraders] returns; [start] passes it as it is
    to [tradersCheckerProcessor.start], whose call is evaluated as an
    argument of [pipeline(...)], before [isRunning] is assigned.
    [tradersFetcherProcessor.start], evaluated before it, is not among the
    sources and is taken to return. *)
Definition start (filterLiquidatableTraders : list Trader -> list CheckResult) (s : State)
  : State * Result :=
  match isRunning s with
  | Some _ => (s, Threw (OwnError alreadyRunning))
  | None =>
      let s1 := mkState None (Some false) (listeners s) (reports s) in
      match TradersChecker.start (TradersChecker.FilterFunction filterLiquidatableTraders) with
      | None => (s1, Threw (TypeError mapIsNotAFunction))
      | Some _ => (mkState (Some Pending) (Some false) (listeners s) (reports s), Returned)
      end
  end.

(** The callback of [.catch] and with it the settlement of the promise in
    [isRunning], when the pipeline settles. *)
Definition pipelineSettles (how : Settlement) (s : State) : State :=
  match isRunning s with
  | Some Pending =>
      match how with
      | Ended => mkState (Some Fulfilled) (botAbortController s) (listeners s) (reports s)
      | Raised code =>
          if String.eqb code ABORT_ERR
          then mkState (Some Fulfilled) (botAbortController s) 0 (reports s ++ [BotStopped])
          else mkState (Some (Rejected code)) (botAbortController s) (listeners s) (reports s)
      end
  | _ => s
  end.

(** [stop()] as far as its [await]: the guard and
    [botAbortController.abort()], which sets the signal.  [None]: the call is
    suspended at [await isRunning]; the promise in [isRunning] is as it
    was. *)
Definition stop (s : State) : State * option Result :=
  match isRunning s with
  | None => (s, Some (Threw (OwnError notRunning)))
  | Some _ =>
      match botAbortController s with
      | None => (s, Some (Threw (TypeError abortOfUndefined)))
      | Some _ => (mkState (isRunning s) (Some true) (listeners s) (reports s), None)
      end
  end.

(** [join()] as far as its [await]. *)
Definition join (s : State) : State * option Result :=
  match isRunning s with
  | None => (s, Some Returned)
  | Some _ => (s, None)
  end.

(** The rest of [stop()] and of [join()] once the promise they await has
    settled as [settled]: [isRunning = null] after a fulfilled promise, the
    error of a rejected one. *)
Definition resume (settled : Promise) (s : State) : State * option Result :=
  match settled with
  | Pending => (s, None)
  | Fulfilled =>
      (mkState None (botAbortController s) (listeners s) (reports s), Some Returned)
  | Rejected code => (s, Some (Threw (PipelineError code)))
  end.

(** A call of the module's interface. *)
Inductive Call : Type :=
| CallStart (filterLiquidatableTraders : list Trader -> list CheckResult)
| CallStop
| CallJoin.

Definition call (s : State) (c : Call) : State * option Result :=
  match c with
  | CallStart filterLiquidatableTraders =>
      let (s', result) := start filterLiquidatableTraders s in (s', Some result)
  | CallStop => stop s
  | CallJoin => join s
  end.

(** Calls one after the other, with what each of them has returned or
    thrown by then. *)
Fixpoint calls (s : State) (cs : list Call) : State * list (option Result) :=
  match cs with
  | [] => (s, [])
  | c :: rest =>
      let (s1, result) := call s c in
      let (s2, results) := calls s1 rest in
      (s2, result :: results)
  end.

(** [checkerToLiquidatorAdapterAndReporter]: the reports emitted and the
    values passed on to the liquidator. *)
Fixpoint checkerToLiquidatorAdapterAndReporter (checkerStream : list TradersChecker.Output)
  : list Report * list (list Trader) :=
  match checkerStream with
  | [] => ([], [])
  | checkerResult :: rest =>
      let (reports, forwarded) := checkerToLiquidatorAdapterAndReporter rest in
      match checkerResult with
      | TradersChecker.YieldError e => (ReportCheckError e :: reports, forwarded)
      | TradersChecker.YieldTraders l => (TradersChecked l :: reports, l :: forwarded)
      end
  end.

End Bot.

(** ** The completion rule of the combined re-check, in the words of the specification

    "The combined check completes as soon as either (a) at least one provider
    has produced a full, error-free pass over all the failed traders, or (b)
    every provider has finished (successfully or with error) -- whichever
    happens first". *)
Module Specification.

Import TradersLiquidator.

Definition finished (filter : nat) (seen : list FilterEvent) : bool :=
  existsb (fun ev => match ev with
                     | FilterDone f => (f =? filter)%nat
                     | CheckYielded _ _ => false
                     end) seen.

Definition failedChunk (filter : nat) (seen : list FilterEvent) : bool :=
  existsb (fun ev => match ev with
                     | CheckYielded f (Failed _) => (f =? filter)%nat
                     | _ => false
                     end) seen.

(** (a) *)
Definition someErrorFreePass (nFilters : nat) (seen : list FilterEvent) : bool :=
  existsb (fun filter => finished filter seen && negb (failedChunk filter seen))
    (seq 0 nFilters).

(** (b) *)
Definition allFinished (nFilters : nat) (seen : list FilterEvent) : bool :=
  forallb (fun filter => finished filter seen) (seq 0 nFilters).

Definition completed (nFilters : nat) (seen : list FilterEvent) : bool :=
  someErrorFreePass nFilters seen || allFinished nFilters seen.

Fixpoint completedAfterFrom (nFilters : nat) (seen rest : list FilterEvent) : option nat :=
  match rest with
  | [] => None
  | ev :: rest' =>
      let seen' := seen ++ [ev] in
      if completed nFilters seen' then Some (List.length seen')
      else completedAfterFrom nFilters seen' rest'
  end.

(** The number of events after which the rule first holds. *)
Definition completedAfter (nFilters : nat) (events : list FilterEvent) : option nat :=
  completedAfterFrom nFilters [] events.

End Specification.

(** ** What the re-check has seen *)
Module RecheckHistory.

Import TradersLiquidator.

(** The variables of [filterNonLiquidatableTraders] record this much of the
    events that have taken place while the promise is pending. *)
Definition tracks (seen : list FilterEvent) (s : Recheck) : Prop :=
  resolved s = false
  /\ processed s = countDone seen
  /\ forall filter,
       existsb (Nat.eqb filter) (gotSomeNonErrorResults s) = true
       <-> exists o, In (CheckYielded filter (Checked o)) seen.

(** A filter that finishes after [seen] is the last one to finish, or it has
    yielded at least one result that is not an error. *)
Definition resolving (nFilters : nat) (seen : list FilterEvent) (filter : nat) : Prop :=
  S (countDone seen) = nFilters
  \/ exists o, In (CheckYielded filter (Checked o)) seen.

End RecheckHistory.

(** ** The events of the bot and the adapters of [bot.ts] *)
Module Reporting.

(** The value of the [error] field of an ["error"] event. *)
Inductive ReportedError : Type :=
| FetchFailure (cause : Cause)
| CheckFailure (e : CheckError)
| LiquidationFailure (e : TradersLiquidator.LiquidationError).

(** The events emitted as ["report"], in full. *)
Inductive Event : Type :=
| ErrorEvent (error : ReportedError)
| TradersFetched (activeTraders : list Trader)
| TradersChecked (checkedTraders : list Trader)
| TraderLiquidated (trader : Trader)
    (contractTransaction : TradersLiquidator.ContractTransaction)
| BotStopped.

(** What the fetcher yields: the active traders or a [FetchError]. *)
Inductive FetcherResult : Type :=
| Fetched (activeTraders : list Trader)
| FetchFailed (cause : Cause).

(** [fetcherToCheckerAdapterAndReporter]: the events emitted and the values
    passed on to the checker. *)
Fixpoint fetcherToCheckerAdapterAndReporter (fetcherStream : list FetcherResult)
  : list Event * list (list Trader) :=
  match fetcherStream with
  | [] => ([], [])
  | fetcherResult :: rest =>
      let (events, forwarded) := fetcherToCheckerAdapterAndReporter rest in
      match fetcherResult with
      | FetchFailed cause => (ErrorEvent (FetchFailure cause) :: events, forwarded)
      | Fetched activeTraders =>
          (TradersFetched activeTraders :: events, activeTraders :: forwarded)
      end
  end.

(** The events [liquidatorReporter] emits for one result of the liquidator. *)
Definition reportLiquidatorResult (liquidatorResult : TradersLiquidator.TradersLiquidatorResult)
  : list Event :=
  match liquidatorResult with
  | TradersLiquidator.LiquidatableChecksErrors errors =>
      map (fun error => ErrorEvent (CheckFailure error)) errors
  | TradersLiquidator.LiquidationsDone liquidations =>
      map (fun error => ErrorEvent (LiquidationFailure error))
        (TradersLiquidator.liquidationsErrors liquidations)
      ++ map (fun entry => TraderLiquidated (fst entry) (snd entry))
           (JsObject.entries (TradersLiquidator.liquidationsResults liquidations))
  end.

(** [liquidatorReporter]: the events emitted for a stream of results. *)
Definition liquidatorReporter
  (liquidatorStream : list TradersLiquidator.TradersLiquidatorResult) : list Event :=
  flat_map reportLiquidatorResult liquidatorStream.

(** The writes of the checker's writable side, one after the other. *)
Definition saveAll (traders : TradersChecker.Traders) (lists : list (list Trader))
  : TradersChecker.Traders :=
  fold_left (fun traders activeTraders =>
               fst (TradersChecker.saveActiveTraders traders activeTraders)) lists traders.

End Reporting.

(** ** The pm2 reporter ([reporting/reporters/pm2.ts]) *)
Module Pm2.

(** [x | 0] for an integer [x]: [x] as a signed 32-bit integer. *)
Definition toInt32 (x : Z) : Z := (x + 2 ^ 31) mod 2 ^ 32 - 2 ^ 31.

(** [(a / b) | 0] for integers [a] and [b]: the quotient, truncated toward
    zero, as a signed 32-bit integer. *)
Definition divInt32 (a b : Z) : Z := toInt32 (Z.quot a b).

(** [`${diff}`] for an integer. *)
Definition numberToString (diff : Z) : string := NilZero.string_of_int (Z.to_int diff).

(** [if (durationStr)]: the empty string is falsy. *)
Definition nonEmpty (durationStr : string) : bool :=
  match durationStr with
  | EmptyString => false
  | String _ _ => true
  end.

(** The loop [for (const [diff, unit] of diffs)] of [getDurationStr], from
    the given value of [durationStr]. *)
Fixpoint durationLoop (diffs : list (Z * string)) (durationStr : string) : string :=
  match diffs with
  | [] => durationStr
  | (diff, unit) :: rest =>
      if nonEmpty durationStr
      then if negb (diff =? 0)%Z
           then String.append durationStr
                  (String.append " " (String.append (numberToString diff) unit))
           else durationStr
      else durationLoop rest
             (if negb (diff =? 0)%Z
              then String.append durationStr (String.append (numberToString diff) unit)
              else durationStr)
  end.

(** [getDurationStr(from, to)] for times in whole milliseconds, as
    [Date.now()] gives them; [None] is [undefined]. *)
Definition getDurationStr (from : option Z) (to : Z) : string :=
  match from with
  | None => "-"
  | Some from =>
      let secDiff := divInt32 (to - from) 1000 in
      let minDiff := divInt32 secDiff 60 in
      let hourDiff := divInt32 minDiff 60 in
      let dayDiff := divInt32 hourDiff 24 in
      let secPartDiff := Z.rem secDiff 60 in
      let minPartDiff := Z.rem minDiff 60 in
      let hourPartDiff := Z.rem hourDiff 24 in
      let diffs := [(dayDiff, "d"); (hourPartDiff, "h"); (minPartDiff, "m");
                    (secPartDiff, "s")] in
      let durationStr := durationLoop diffs "" in
      if nonEmpty durationStr then durationStr else "0s"
  end.

(** The variables of the module and the counters of [tx2]. *)
Record Metrics : Type := mkMetrics {
  numberOfActiveTraders : nat;
  lastErrorTime : option Z;            (** [None] is [undefined] *)
  lastFetchTime : option Z;
  lastCheckTime : option Z;
  lastLiquidationTime : option Z;
  beforeLastFetchTime : option Z;
  beforeLastCheckTime : option Z;
  liquidationsCounter : nat;
  errorsCounter : nat;
  fetchCycleCounter : nat;
  checkCycleCounter : nat
}.

Definition noMetrics : Metrics := mkMetrics 0 None None None None None None 0 0 0 0.

(** [reportEvent(event)] when [Date.now()] is [now]: what it does to the
    variables and the counters.  What it logs is left out. *)
Definition reportEvent (m : Metrics) (now : Z) (event : Reporting.Event) : Metrics :=
  match event with
  | Reporting.ErrorEvent _ =>
      mkMetrics (numberOfActiveTraders m) (Some now) (lastFetchTime m) (lastCheckTime m)
        (lastLiquidationTime m) (beforeLastFetchTime m) (beforeLastCheckTime m)
        (liquidationsCounter m) (S (errorsCounter m)) (fetchCycleCounter m)
        (checkCycleCounter m)
  | Reporting.TradersFetched activeTraders =>
      mkMetrics (List.length activeTraders) (lastErrorTime m) (Some now) (lastCheckTime m)
        (lastLiquidationTime m) (lastFetchTime m) (beforeLastCheckTime m)
        (liquidationsCounter m) (errorsCounter m) (S (fetchCycleCounter m))
        (checkCycleCounter m)
  | Reporting.TradersChecked _ =>
      mkMetrics (numberOfActiveTraders m) (lastErrorTime m) (lastFetchTime m) (Some now)
        (lastLiquidationTime m) (beforeLastFetchTime m) (lastCheckTime m)
        (liquidationsCounter m) (errorsCounter m) (fetchCycleCounter m)
        (S (checkCycleCounter m))
  | Reporting.TraderLiquidated _ _ =>
      mkMetrics (numberOfActiveTraders m) (lastErrorTime m) (lastFetchTime m)
        (lastCheckTime m) (Some now) (beforeLastFetchTime m) (beforeLastCheckTime m)
        (S (liquidationsCounter m)) (errorsCounter m) (fetchCycleCounter m)
        (checkCycleCounter m)
  | Reporting.BotStopped => m
  end.

(** The events reported one after the other, each with the time it is
    reported at. *)
Definition reportEvents (m : Metrics) (events : list (Z * Reporting.Event)) : Metrics :=
  fold_left (fun m event => reportEvent m (fst event) (snd event)) events m.

(** The default [to = Date.now()] of [getDurationStr]: it applies when the
    argument is [undefined]. *)
Definition defaultTo (to : option Z) (now : Z) : Z :=
  match to with
  | Some to => to
  | None => now
  end.

(** The values of the metrics that show a duration, read when [Date.now()]
    is [now]. *)
Definition durationMetrics (m : Metrics) (now : Z) : list (string * string) :=
  [("Since liquidation", getDurationStr (lastLiquidationTime m) now);
   ("Since error", getDurationStr (lastErrorTime m) now);
   ("Since traders fetch", getDurationStr (lastFetchTime m) now);
   ("Previous fetch",
    getDurationStr (beforeLastFetchTime m) (defaultTo (lastFetchTime m) now));
   ("Since liquidatable check", getDurationStr (lastCheckTime m) now);
   ("Previous check",
    getDurationStr (beforeLastCheckTime m) (defaultTo (lastCheckTime m) now))].

End Pm2.

(** ** Readings of the data used to state further properties *)
Module Readings.

(** The traders a check result is about: the keys of an answer, the chunk of
    an error. *)
Definition checkedTraders (r : CheckResult) : list Trader :=
  match r with
  | Checked o => JsObject.keys o
  | Failed e => errTraders e
  end.

(** The traders an answer reports liquidatable. *)
Definition reportedLiquidatable (r : CheckResult) : list Trader :=
  match r with
  | Checked o => Lodash.truthyKeys o
  | Failed _ => []
  end.

(** The traders that the answers among the events of a re-check report
    liquidatable, in the order in which the answers are processed. *)
Definition reportedIn (events : list TradersLiquidator.FilterEvent) : list Trader :=
  flat_map (fun ev => match ev with
                      | TradersLiquidator.CheckYielded _ r => reportedLiquidatable r
                      | TradersLiquidator.FilterDone _ => []
                      end) events.

(** The check errors among the events of a re-check, in order. *)
Definition failedChecks (events : list TradersLiquidator.FilterEvent) : list CheckError :=
  flat_map (fun ev => match ev with
                      | TradersLiquidator.CheckYielded _ (Failed e) => [e]
                      | _ => []
                      end) events.

(** The calls of [exchangeService.liquidate] among the effects of a run. *)
Definition liquidateCalls (effects : list TradersLiquidator.Effect) : nat :=
  List.length (List.filter (fun e => match e with
                                     | TradersLiquidator.CallLiquidate _ => true
                                     | _ => false
                                     end) effects).

(** The yields of liquidation results among the effects of a run. *)
Definition liquidationsYielded (effects : list TradersLiquidator.Effect) : nat :=
  List.length (List.filter (fun e => match e with
                                     | TradersLiquidator.Yield
                                         (TradersLiquidator.LiquidationsDone _) => true
                                     | _ => false
                                     end) effects).

(** Whether a call of [exchangeService.liquidate] has not settled yet. *)
Definition liquidateOutstanding (s : TradersLiquidator.State) : nat :=
  match TradersLiquidator.pc s with
  | TradersLiquidator.AwaitLiquidate => 1
  | _ => 0
  end.

(** What the liquidator yields among the effects of a run, in order. *)
Definition yields (effects : list TradersLiquidator.Effect)
  : list TradersLiquidator.TradersLiquidatorResult :=
  flat_map (fun e => match e with
                     | TradersLiquidator.Yield result => [result]
                     | _ => []
                     end) effects.

(** The last list of active traders the fetcher has yielded, if any. *)
Fixpoint lastFetched (fetcherStream : list Reporting.FetcherResult) : option (list Trader) :=
  match fetcherStream with
  | [] => None
  | fetcherResult :: rest =>
      match lastFetched rest, fetcherResult with
      | Some activeTraders, _ => Some activeTraders
      | None, Reporting.Fetched activeTraders => Some activeTraders
      | None, Reporting.FetchFailed _ => None
      end
  end.

(** A value with its unit and, when it is not zero, the value of the next
    smaller unit: ["1h 59m"], ["17d"]. *)
Definition withNextUnit (value : Z) (unit : string) (next : Z) (nextUnit : string) : string :=
  String.append (String.append (Pm2.numberToString value) unit)
    (if (next =? 0)%Z then ""
     else String.append " " (String.append (Pm2.numberToString next) nextUnit)).

(** A number of seconds by its two leading units: split into days, hours of
    the day, minutes of the hour and seconds of the minute, the first of
    these that is not zero and, when it is not zero, the one after it. *)
Definition twoLeadingUnits (elapsed : Z) : string :=
  let days := (elapsed / 86400)%Z in
  let hours := ((elapsed / 3600) mod 24)%Z in
  let minutes := ((elapsed / 60) mod 60)%Z in
  let seconds := (elapsed mod 60)%Z in
  if negb (days =? 0)%Z then withNextUnit days "d" hours "h"
  else if negb (hours =? 0)%Z then withNextUnit hours "h" minutes "m"
  else if negb (minutes =? 0)%Z then withNextUnit minutes "m" seconds "s"
  else if negb (seconds =? 0)%Z then String.append (Pm2.numberToString seconds) "s"
  else "0s".

Definition isError (event : Reporting.Event) : bool :=
  match event with Reporting.ErrorEvent _ => true | _ => false end.

Definition isFetched (event : Reporting.Event) : bool :=
  match event with Reporting.TradersFetched _ => true | _ => false end.

Definition isChecked (event : Reporting.Event) : bool :=
  match event with Reporting.TradersChecked _ => true | _ => false end.

Definition isLiquidated (event : Reporting.Event) : bool :=
  match event with Reporting.TraderLiquidated _ _ => true | _ => false end.

(** The times of the events of a kind, the most recent first. *)
Definition timesOf (kind : Reporting.Event -> bool) (events : list (Z * Reporting.Event))
  : list Z :=
  rev (map fst (List.filter (fun event => kind (snd event)) events)).

(** The time from the most recent of [times] to [now], shown. *)
Definition since (times : list Z) (now : Z) : string :=
  match times with
  | [] => "-"
  | last :: _ => twoLeadingUnits ((now - last) / 1000)
  end.

(** The time between the two most recent of [times], shown. *)
Definition between (times : list Z) : string :=
  match times with
  | last :: beforeLast :: _ => twoLeadingUnits ((last - beforeLast) / 1000)
  | _ => "-"
  end.

End Readings.

(** * Properties *)

(** ** Objects and sets *)
Section JsObjectFacts.

Context {V : Type}.

Lemma get_set_same (o : JsObject.t V) (k : string) (v : V) :
  JsObject.get (JsObject.set o k v) k = Some v.
Proof.
  induction o as [|[k' v'] o IH]; simpl.
  - now rewrite String.eqb_refl.
  - destruct (String.eqb k k') eqn:E; simpl; rewrite E; auto.
Qed.

Lemma get_set_other (o : JsObject.t V) (k k' : string) (v : V) :
  k <> k' -> JsObject.get (JsObject.set o k v) k' = JsObject.get o k'.
Proof.
  intros Hne. induction o as [|[k0 v0] o IH]; simpl.
  - destruct (String.eqb_spec k' k); [congruence | reflexivity].
  - destruct (String.eqb_spec k k0) as [->|Hk]; simpl.
    + destruct (String.eqb_spec k' k0); [congruence | reflexivity].
    + now rewrite IH.
Qed.

Lemma keys_set (o : JsObject.t V) (k k' : string) (v : V) :
  In k' (JsObject.keys (JsObject.set o k v)) <-> k' = k \/ In k' (JsObject.keys o).
Proof.
  induction o as [|[k0 v0] o IH]; simpl.
  - intuition.
  - destruct (String.eqb_spec k k0) as [->|Hk]; simpl.
    + intuition.
    + rewrite IH. intuition.
Qed.

Lemma get_none_keys (o : JsObject.t V) (k : string) :
  JsObject.get o k = None <-> ~ In k (JsObject.keys o).
Proof.
  induction o as [|[k0 v0] o IH]; simpl.
  - intuition.
  - destruct (String.eqb_spec k k0) as [->|Hk].
    + split; [discriminate | intuition].
    + rewrite IH. intuition.
Qed.

Lemma get_some_keys (o : JsObject.t V) (k : string) (v : V) :
  JsObject.get o k = Some v -> In k (JsObject.keys o).
Proof.
  intros H. destruct (in_dec string_dec k (JsObject.keys o)) as [|Hn]; auto.
  apply get_none_keys in Hn. congruence.
Qed.

Lemma keys_set_NoDup (o : JsObject.t V) (k : string) (v : V) :
  NoDup (JsObject.keys o) -> NoDup (JsObject.keys (JsObject.set o k v)).
Proof.
  induction o as [|[k0 v0] o IH]; simpl; intros Hnd.
  - constructor; [intros [] | constructor].
  - inversion Hnd as [|? ? Hnot Hnd']; subst.
    destruct (String.eqb_spec k k0) as [->|Hk]; simpl.
    + now constructor.
    + constructor; [|now apply IH].
      fold (JsObject.keys (JsObject.set o k v)).
      rewrite keys_set. intros [->|Hin]; [congruence | contradiction].
Qed.

(** Assigning, for every key of a list, a value that depends on the key only. *)
Lemma get_assign_all_other (f : string -> V) (l : list string) (o : JsObject.t V) (k : string) :
  ~ In k l ->
  JsObject.get (fold_left (fun o e => JsObject.set o (fst e) (snd e))
                  (map (fun x => (x, f x)) l) o) k = JsObject.get o k.
Proof.
  revert o. induction l as [|a l IH]; simpl; intros o Hn; auto.
  rewrite IH by tauto. apply get_set_other. intros ->. tauto.
Qed.

Lemma get_assign_all_same (f : string -> V) (l : list string) (o : JsObject.t V) (k : string) :
  In k l ->
  JsObject.get (fold_left (fun o e => JsObject.set o (fst e) (snd e))
                  (map (fun x => (x, f x)) l) o) k = Some (f k).
Proof.
  revert o. induction l as [|a l IH]; simpl; intros o Hin; [contradiction|].
  destruct (in_dec string_dec k l) as [Hl|Hl].
  - now apply IH.
  - destruct Hin as [->|]; [|contradiction].
    rewrite get_assign_all_other by assumption. apply get_set_same.
Qed.

Lemma keys_assign_all (f : string -> V) (l : list string) (o : JsObject.t V) (k : string) :
  In k (JsObject.keys (fold_left (fun o e => JsObject.set o (fst e) (snd e))
                         (map (fun x => (x, f x)) l) o))
  <-> In k l \/ In k (JsObject.keys o).
Proof.
  revert o. induction l as [|a l IH]; simpl; intros o.
  - intuition.
  - rewrite IH, keys_set. intuition.
Qed.

Lemma keys_assign_all_NoDup (f : string -> V) (l : list string) (o : JsObject.t V) :
  NoDup (JsObject.keys o) ->
  NoDup (JsObject.keys (fold_left (fun o e => JsObject.set o (fst e) (snd e))
                          (map (fun x => (x, f x)) l) o)).
Proof.
  revert o. induction l as [|a l IH]; simpl; intros o Hnd; auto.
  apply IH. now apply keys_set_NoDup.
Qed.

End JsObjectFacts.

Section JsSetFacts.

Lemma has_In (s : JsSet.t) (x : string) : JsSet.has s x = true <-> In x s.
Proof.
  unfold JsSet.has. rewrite existsb_exists. split.
  - intros [y [Hy He]]. apply String.eqb_eq in He. now subst.
  - intros H. exists x. split; auto. apply String.eqb_refl.
Qed.

Lemma add_In (s : JsSet.t) (x y : string) : In y (JsSet.add s x) <-> y = x \/ In y s.
Proof.
  unfold JsSet.add. destruct (JsSet.has s x) eqn:E.
  - apply has_In in E. split; [auto | intros [->|]; auto].
  - rewrite in_app_iff. simpl. intuition.
Qed.

Lemma addAll_In (xs : list string) (s : JsSet.t) (y : string) :
  In y (JsSet.addAll s xs) <-> In y xs \/ In y s.
Proof.
  unfold JsSet.addAll. revert s. induction xs as [|x xs IH]; simpl; intros s.
  - intuition.
  - rewrite IH, add_In. intuition.
Qed.

Lemma ofList_In (xs : list string) (y : string) : In y (JsSet.ofList xs) <-> In y xs.
Proof.
  unfold JsSet.ofList. fold (JsSet.addAll [] xs). rewrite addAll_In. simpl. intuition.
Qed.

Lemma delete_In (s : JsSet.t) (x y : string) : In y (JsSet.delete s x) <-> In y s /\ y <> x.
Proof.
  unfold JsSet.delete. rewrite filter_In.
  destruct (String.eqb_spec x y) as [->|Hne]; simpl; intuition congruence.
Qed.

Lemma deleteAll_In (xs : list string) (s : JsSet.t) (y : string) :
  In y (JsSet.deleteAll s xs) <-> In y s /\ ~ In y xs.
Proof.
  unfold JsSet.deleteAll. revert s. induction xs as [|x xs IH]; simpl; intros s.
  - intuition.
  - rewrite IH, delete_In. intuition.
Qed.

Lemma addAll_nonempty (xs : list string) (s : JsSet.t) :
  s <> [] -> JsSet.addAll s xs <> [].
Proof.
  destruct s as [|x s]; [congruence|]. intros _ H.
  assert (Hin : In x (JsSet.addAll (x :: s) xs)) by (apply addAll_In; simpl; auto).
  rewrite H in Hin. contradiction.
Qed.

(** Deleting with lodash's [forEach], which ends at the first element that
    is not in the set: only listed elements are deleted. *)
Lemma forEach_delete_In (xs : list string) (s : JsSet.t) (y : string) :
  In y (Lodash.forEach JsSet.deleteResult s xs) -> In y s.
Proof.
  revert s. induction xs as [|x xs IH]; intros s; cbn [Lodash.forEach JsSet.deleteResult].
  - auto.
  - intros H.
    assert (Hdel : In y (JsSet.delete s x))
      by (destruct (JsSet.has s x); [now apply IH in H | exact H]).
    now apply delete_In in Hdel.
Qed.

Lemma forEach_delete_keeps (xs : list string) (s : JsSet.t) (y : string) :
  In y s -> ~ In y xs -> In y (Lodash.forEach JsSet.deleteResult s xs).
Proof.
  revert s. induction xs as [|x xs IH]; intros s Hin Hn;
    cbn [Lodash.forEach JsSet.deleteResult].
  - exact Hin.
  - assert (Hdel : In y (JsSet.delete s x)).
    { apply delete_In. split; [exact Hin|]. intros ->. apply Hn. now left. }
    destruct (JsSet.has s x); [|exact Hdel].
    apply IH; [exact Hdel|]. intros H. apply Hn. now right.
Qed.

(** When every listed element is in the set, and once only in the list,
    the iteration does not end early. *)
Lemma forEach_delete_all (xs : list string) (s : JsSet.t) :
  NoDup xs -> (forall x, In x xs -> In x s) ->
  Lodash.forEach JsSet.deleteResult s xs = JsSet.deleteAll s xs.
Proof.
  revert s. induction xs as [|x xs IH]; intros s Hnd Hin;
    cbn [Lodash.forEach JsSet.deleteResult]; [reflexivity|].
  inversion Hnd as [|? ? Hx Hnd']; subst.
  assert (Hhas : JsSet.has s x = true) by (apply has_In; apply Hin; now left).
  rewrite Hhas. unfold JsSet.deleteAll. cbn [fold_left].
  apply IH; [exact Hnd'|].
  intros y Hy. apply delete_In. split; [apply Hin; now right|].
  intros ->. contradiction.
Qed.

End JsSetFacts.

(** ** Traders checker *)
Section TradersCheckerFacts.

Import TradersChecker.

Lemma checkEntry_skip (checkedAt : Z) (acc : Acc) (trader : Trader) (v : Value) :
  skipCheck (JsObject.get (accTraders acc) trader) checkedAt = true ->
  checkEntry checkedAt acc (trader, v) = acc.
Proof. intros H. unfold checkEntry. now rewrite H. Qed.

Lemma checkEntry_apply (checkedAt : Z) (acc : Acc) (trader : Trader) (v : Value) :
  skipCheck (JsObject.get (accTraders acc) trader) checkedAt = false ->
  checkEntry checkedAt acc (trader, v) =
    mkAcc (JsObject.set (accTraders acc) trader (Some checkedAt))
          (newLiquidatableTraders acc ++ (if truthy v then [trader] else []))
          true.
Proof.
  intros H. unfold checkEntry. rewrite H.
  destruct (truthy v); [reflexivity | now rewrite app_nil_r].
Qed.

(** The guard skips exactly the traders whose recorded timestamp is not
    older than the pass, as long as the recorded timestamp is not [0]. *)
Lemma skipCheck_spec (traders : Traders) (trader : Trader) (checkedAt : Z) :
  lastCheckedAt traders trader <> Some 0%Z ->
  skipCheck (JsObject.get traders trader) checkedAt = true <->
  exists last, lastCheckedAt traders trader = Some last /\ (checkedAt <= last)%Z.
Proof.
  unfold lastCheckedAt, skipCheck. intros Hz.
  destruct (JsObject.get traders trader) as [[last|]|]; simpl in *.
  - rewrite andb_true_iff, negb_true_iff, Z.eqb_neq, Z.leb_le. split.
    + intros [_ H]. now exists last.
    + intros [l [[= <-] H]]. split; [congruence | assumption].
  - split; [discriminate | intros [l [[=] _]]].
  - split; [discriminate | intros [l [[=] _]]].
Qed.

Lemma hadNewData_stays (checkedAt : Z) (entries : list (string * Value)) (acc : Acc) :
  hadNewData acc = true ->
  hadNewData (fold_left (checkEntry checkedAt) entries acc) = true.
Proof.
  revert acc. induction entries as [|[k v] es IH]; cbn [fold_left existsb fst]; intros acc H; auto.
  apply IH. unfold checkEntry.
  destruct (skipCheck _ _); [assumption | reflexivity].
Qed.

Lemma hadNewData_fold (checkedAt : Z) (entries : list (string * Value)) (acc : Acc) :
  hadNewData (fold_left (checkEntry checkedAt) entries acc) =
    hadNewData acc
    || existsb (fun check => negb (skipCheck (JsObject.get (accTraders acc) (fst check)) checkedAt))
         entries.
Proof.
  revert acc. induction entries as [|[k v] es IH]; cbn [fold_left existsb fst]; intros acc.
  - now rewrite orb_false_r.
  - destruct (skipCheck (JsObject.get (accTraders acc) k) checkedAt) eqn:E.
    + rewrite checkEntry_skip by assumption. now rewrite IH.
    + rewrite hadNewData_stays.
      * simpl. now rewrite orb_true_r.
      * now rewrite checkEntry_apply.
Qed.

Lemma no_new_data_nothing_new (checkedAt : Z) (entries : list (string * Value)) (acc : Acc) :
  hadNewData (fold_left (checkEntry checkedAt) entries acc) = false ->
  fold_left (checkEntry checkedAt) entries acc = acc.
Proof.
  revert acc. induction entries as [|[k v] es IH]; cbn [fold_left existsb fst]; intros acc H; auto.
  destruct (skipCheck (JsObject.get (accTraders acc) k) checkedAt) eqn:E.
  - rewrite checkEntry_skip in * by assumption. now apply IH.
  - rewrite hadNewData_stays in H; [discriminate|].
    now rewrite checkEntry_apply.
Qed.

(** Every trader the loop adds to [newLiquidatableTraders] is the key of an
    entry with a truthy value. *)
Lemma new_traders_truthy (checkedAt : Z) (entries : list (string * Value)) (acc : Acc)
  (t : Trader) :
  In t (newLiquidatableTraders (fold_left (checkEntry checkedAt) entries acc)) ->
  In t (newLiquidatableTraders acc)
  \/ exists v, In (t, v) entries /\ truthy v = true.
Proof.
  revert acc. induction entries as [|[k v] es IH]; cbn [fold_left existsb fst]; intros acc H; auto.
  apply IH in H. destruct H as [H|[v' [Hin Hv]]].
  - unfold checkEntry in H.
    destruct (skipCheck _ _); [now left|]. simpl in H.
    destruct (truthy v) eqn:Ev; [|now left].
    apply in_app_iff in H. destruct H as [H|[<-|[]]]; [now left|].
    right. exists v. split; [now left | assumption].
  - right. exists v'. split; [now right | assumption].
Qed.

Lemma yielded_is_new (T : Z) (traders : Traders) (r : CheckResult) :
  List.concat (yieldedTraders (snd (processCheckResult T traders r)))
  = newLiquidatableTraders (checkEntries T traders r).
Proof.
  unfold processCheckResult. cbn [snd]. unfold yieldedTraders. rewrite flat_map_app.
  destruct (hadNewData (checkEntries T traders r)) eqn:E.
  - destruct r; cbn; now rewrite app_nil_r.
  - unfold checkEntries in *. apply no_new_data_nothing_new in E. rewrite E.
    destruct r; reflexivity.
Qed.

(** The guard lets an entry through exactly when the recorded timestamp is
    missing, zero, or older than the pass. *)
Lemma skipCheck_false (traders : Traders) (trader : string) (checkedAt : Z) :
  skipCheck (JsObject.get traders trader) checkedAt = false
  <-> match lastCheckedAt traders trader with
      | None => True
      | Some last => (last = 0 \/ last < checkedAt)%Z
      end.
Proof.
  unfold lastCheckedAt, skipCheck.
  destruct (JsObject.get traders trader) as [[last|]|]; cbn [orNull]; [|tauto|tauto].
  rewrite andb_false_iff, negb_false_iff, Z.eqb_eq, Z.leb_gt. tauto.
Qed.

Lemma entries_value_unique {V : Type} (entries : list (string * V)) (k : string) (v v' : V) :
  NoDup (map fst entries) -> In (k, v) entries -> In (k, v') entries -> v = v'.
Proof.
  induction entries as [|[k0 v0] es IH]; cbn [map fst]; intros Hnd Hin Hin';
    [contradiction|].
  inversion Hnd as [|? ? Hk Hnd']; subst.
  assert (Hkey : forall w, In (k0, w) es -> False).
  { intros w Hw. apply Hk. apply in_map_iff. now exists (k0, w). }
  destruct Hin as [Heq|Hin]; destruct Hin' as [Heq'|Hin'].
  - congruence.
  - exfalso. assert (k0 = k) by congruence. subst k0. exact (Hkey _ Hin').
  - exfalso. assert (k0 = k) by congruence. subst k0. exact (Hkey _ Hin).
  - now apply IH.
Qed.

(** Entries that the guard stops change nothing. *)
Lemma all_skipped (checkedAt : Z) (entries : list (string * Value)) (acc : Acc) :
  (forall t, In t (map fst entries) ->
             skipCheck (JsObject.get (accTraders acc) t) checkedAt = true) ->
  fold_left (checkEntry checkedAt) entries acc = acc.
Proof.
  induction entries as [|[k v] es IH]; cbn [fold_left map fst]; intros H; [reflexivity|].
  rewrite checkEntry_skip by (apply H; now left).
  apply IH. intros t Ht. apply H. now right.
Qed.

(** The loop over the entries of a result whose keys are all different:
    every entry meets the guard with the timestamp its trader had before the
    loop. *)
Lemma fold_checkEntry_guarded (checkedAt : Z) (entries : list (string * Value)) (acc : Acc) :
  NoDup (map fst entries) ->
  (forall t, ~ In t (map fst entries) ->
     JsObject.get (accTraders (fold_left (checkEntry checkedAt) entries acc)) t
     = JsObject.get (accTraders acc) t)
  /\ (forall t v, In (t, v) entries ->
        JsObject.get (accTraders (fold_left (checkEntry checkedAt) entries acc)) t
        = if skipCheck (JsObject.get (accTraders acc) t) checkedAt
          then JsObject.get (accTraders acc) t
          else Some (Some checkedAt))
  /\ (forall t,
        In t (newLiquidatableTraders (fold_left (checkEntry checkedAt) entries acc))
        <-> In t (newLiquidatableTraders acc)
            \/ exists v, In (t, v) entries
                         /\ skipCheck (JsObject.get (accTraders acc) t) checkedAt = false
                         /\ truthy v = true).
Proof.
  revert acc. induction entries as [|[k v] es IH]; intros acc Hnd; cbn [fold_left map fst] in *.
  - split; [reflexivity|]. split; [intros t v []|].
    intros t. split; [now left | intros [H|(v & [] & _)]; exact H].
  - inversion Hnd as [|? ? Hk Hnd']; subst.
    set (acc1 := checkEntry checkedAt acc (k, v)).
    assert (Hother : forall t, t <> k ->
              JsObject.get (accTraders acc1) t = JsObject.get (accTraders acc) t).
    { intros t Ht. unfold acc1, checkEntry.
      destruct (skipCheck (JsObject.get (accTraders acc) k) checkedAt); [reflexivity|].
      cbn [accTraders]. apply get_set_other. congruence. }
    assert (Hsame : JsObject.get (accTraders acc1) k
                    = if skipCheck (JsObject.get (accTraders acc) k) checkedAt
                      then JsObject.get (accTraders acc) k
                      else Some (Some checkedAt)).
    { unfold acc1, checkEntry.
      destruct (skipCheck (JsObject.get (accTraders acc) k) checkedAt); [reflexivity|].
      cbn [accTraders]. apply get_set_same. }
    assert (Hnew : forall t,
              In t (newLiquidatableTraders acc1)
              <-> In t (newLiquidatableTraders acc)
                  \/ (t = k
                      /\ skipCheck (JsObject.get (accTraders acc) k) checkedAt = false
                      /\ truthy v = true)).
    { intros t. unfold acc1, checkEntry.
      destruct (skipCheck (JsObject.get (accTraders acc) k) checkedAt).
      - split; [now left | intros [H|(_ & H & _)]; [exact H | discriminate H]].
      - cbn [newLiquidatableTraders]. destruct (truthy v).
        + rewrite in_app_iff. cbn [In]. split.
          * intros [H|[H|[]]]; [now left | right; now subst].
          * intros [H|(H & _)]; [now left | right; left; now subst].
        + split; [now left | intros [H|(_ & _ & H)]; [exact H | discriminate H]]. }
    assert (Hkey : forall t w, In (t, w) es -> t <> k).
    { intros t w Hin ->. apply Hk. apply in_map_iff. now exists (k, w). }
    destruct (IH acc1 Hnd') as (IH1 & IH2 & IH3). fold acc1.
    split; [|split].
    + intros t Ht. rewrite IH1 by (intros H; apply Ht; now right).
      apply Hother. intros ->. apply Ht. now left.
    + intros t w [[= Ht Hw]|Hin].
      * subst t w. rewrite IH1 by exact Hk. exact Hsame.
      * rewrite (IH2 t w Hin). now rewrite (Hother t (Hkey t w Hin)).
    + intros t. rewrite IH3, Hnew. split.
      * intros [[H|(Ht & Hs & Hv)]|(w & Hin & Hs & Hv)].
        -- now left.
        -- subst t. right. exists v. split; [now left | now split].
        -- right. exists w. split; [now right|]. split; [|exact Hv].
           now rewrite <- (Hother t (Hkey t w Hin)).
      * intros [H|(w & [[= Ht Hw]|Hin] & Hs & Hv)].
        -- left. now left.
        -- subst t w. left. right. now repeat split.
        -- right. exists w. split; [exact Hin|]. split; [|exact Hv].
           now rewrite (Hother t (Hkey t w Hin)).
Qed.

End TradersCheckerFacts.

Section TradersCheckerClaims.

Import TradersChecker.

(** C8. After [saveActiveTraders] the active-trader set holds exactly the
    traders of the new list, each once; a trader that was present keeps the
    timestamp (or the [null]) it had, a trader that was not present gets
    [null], and a trader missing from the new list is no longer a key. *)
Theorem saveActiveTraders_rebuilds_set (traders : Traders) (activeTraders : list Trader) :
  let traders' := fst (saveActiveTraders traders activeTraders) in
  (forall t, In t (JsObject.keys traders') <-> In t activeTraders)
  /\ NoDup (JsObject.keys traders')
  /\ (forall t last, In t activeTraders ->
        JsObject.get traders t = Some last -> JsObject.get traders' t = Some last)
  /\ (forall t, In t activeTraders ->
        JsObject.get traders t = None -> JsObject.get traders' t = Some None)
  /\ (forall t, ~ In t activeTraders -> JsObject.get traders' t = None).
Proof.
  cbv zeta. unfold saveActiveTraders, JsObject.fromEntries. cbn [fst].
  repeat split.
  - intros H. apply keys_assign_all in H. destruct H as [H|[]]. exact H.
  - intros H. apply keys_assign_all. now left.
  - apply keys_assign_all_NoDup. constructor.
  - intros t last Hin Hget.
    rewrite (get_assign_all_same (fun x => orNull (JsObject.get traders x))) by assumption.
    rewrite Hget. now destruct last.
  - intros t Hin Hget.
    rewrite (get_assign_all_same (fun x => orNull (JsObject.get traders x))) by assumption.
    now rewrite Hget.
  - intros t Hn.
    now rewrite (get_assign_all_other (fun x => orNull (JsObject.get traders x))).
Qed.

Lemma saveActiveTraders_rebuilds_set_example :
  fst (saveActiveTraders [("0xA", Some 7%Z); ("0xB", None); ("0xC", Some 9%Z)]
         ["0xC"; "0xD"; "0xA"])
  = [("0xC", Some 9%Z); ("0xD", None); ("0xA", Some 7%Z)].
Proof. reflexivity. Qed.

(** C7, as amended.  Freshness guard.  For a pass with timestamp [T] and
    a yielded result that is not an error, call a trader fresh when its
    last-checked-at is null or missing, is [0] (which the guard reads as no
    timestamp), or is older than [T].  Every entry [(trader, isLiquidatable)]
    of the result sets the last-checked-at of a fresh trader to [T] and
    forwards the trader exactly when [isLiquidatable]; a trader that is not
    fresh keeps its timestamp and is not forwarded, and no other trader is
    touched.  A result none of whose traders is fresh changes nothing and
    forwards nothing; so after the result of a pass [T] that is not [0], the
    result of a pass with the same or an older timestamp about the same
    traders changes nothing. *)
Theorem checker_freshness_guard (T : Z) (traders : Traders) (o : JsObject.t Value) :
  NoDup (JsObject.keys o) ->
  let fresh := fun t => match lastCheckedAt traders t with
                        | None => True
                        | Some last => (last = 0 \/ last < T)%Z
                        end in
  let result := processCheckResult T traders (Checked o) in
  let forwarded := List.concat (yieldedTraders (snd result)) in
  (forall t v, In (t, v) o -> fresh t ->
     lastCheckedAt (fst result) t = Some T /\ (In t forwarded <-> truthy v = true))
  /\ (forall t v, In (t, v) o -> ~ fresh t ->
        JsObject.get (fst result) t = JsObject.get traders t /\ ~ In t forwarded)
  /\ (forall t, ~ In t (JsObject.keys o) ->
        JsObject.get (fst result) t = JsObject.get traders t /\ ~ In t forwarded)
  /\ ((forall t, In t (JsObject.keys o) -> ~ fresh t) -> result = (traders, []))
  /\ (forall T1 o1,
        (T1 <= T)%Z -> T <> 0%Z ->
        (forall t, In t (JsObject.keys o1) -> In t (JsObject.keys o)) ->
        processCheckResult T1 (fst result) (Checked o1) = (fst result, [])).
Proof.
  intros Hnd fresh result forwarded.
  destruct (fold_checkEntry_guarded T o (mkAcc traders [] false) Hnd) as (Hother & Hentry & Hnew).
  cbn [accTraders newLiquidatableTraders] in Hother, Hentry, Hnew.
  assert (Hfst : fst result = accTraders (fold_left (checkEntry T) o (mkAcc traders [] false)))
    by reflexivity.
  assert (Hfwd : forall t,
            In t forwarded
            <-> exists v, In (t, v) o
                          /\ skipCheck (JsObject.get traders t) T = false
                          /\ truthy v = true).
  { intros t. unfold forwarded, result. rewrite yielded_is_new. unfold checkEntries.
    cbn [resultEntries JsObject.entries]. rewrite Hnew. split; [|now right].
    intros [[]|H]. exact H. }
  assert (Hfresh : forall t, skipCheck (JsObject.get traders t) T = false <-> fresh t)
    by (intros t; apply skipCheck_false).
  assert (Hskipped : forall T1 tr entries,
            (forall t, In t (map fst entries) -> skipCheck (JsObject.get tr t) T1 = true) ->
            processCheckResult T1 tr (Checked entries) = (tr, [])).
  { intros T1 tr entries Hall. unfold processCheckResult, checkEntries.
    cbn [resultEntries JsObject.entries]. now rewrite all_skipped. }
  split; [|split; [|split; [|split]]].
  - intros t v Hin Hf. apply Hfresh in Hf. split.
    + unfold lastCheckedAt. rewrite Hfst, (Hentry t v Hin), Hf. reflexivity.
    + rewrite Hfwd. split.
      * intros (v' & Hin' & _ & Hv').
        now rewrite (entries_value_unique o t v v' Hnd Hin Hin').
      * intros Hv. now exists v.
  - intros t v Hin Hf.
    assert (Hs : skipCheck (JsObject.get traders t) T = true).
    { apply not_false_is_true. intros H. apply Hf. now apply Hfresh. }
    split.
    + now rewrite Hfst, (Hentry t v Hin), Hs.
    + rewrite Hfwd. intros (v' & _ & Hs' & _). congruence.
  - intros t Ht. split.
    + rewrite Hfst. now apply Hother.
    + rewrite Hfwd. intros (v & Hin & _). apply Ht.
      unfold JsObject.keys. apply in_map_iff. now exists (t, v).
  - intros Hnone. apply Hskipped. intros t Ht.
    apply not_false_is_true. intros H. apply (Hnone t Ht). now apply Hfresh.
  - intros T1 o1 HT1 HT Hsub. apply Hskipped. intros t Ht.
    specialize (Hsub t Ht). unfold JsObject.keys in Hsub.
    apply in_map_iff in Hsub. destruct Hsub as ([t' v] & Heq & Hin).
    cbn [fst] in Heq. subst t'.
    rewrite Hfst, (Hentry t v Hin). unfold skipCheck.
    destruct (JsObject.get traders t) as [[last|]|] eqn:Hget;
      try (apply andb_true_iff; split; [apply negb_true_iff, Z.eqb_neq; exact HT
                                       | apply Z.leb_le; exact HT1]).
    destruct (negb (last =? 0)%Z && (T <=? last)%Z) eqn:Hguard.
    + apply andb_true_iff in Hguard. destruct Hguard as [Hz Hle].
      apply Z.leb_le in Hle. rewrite Hz. apply Z.leb_le. lia.
    + apply andb_true_iff; split; [apply negb_true_iff, Z.eqb_neq; exact HT
                                  | apply Z.leb_le; exact HT1].
Qed.

Lemma checker_freshness_guard_witness :
  let traders := [("0xA", Some 100%Z); ("0xB", Some 300%Z); ("0xC", None)] in
  let o := [("0xA", VBool true); ("0xB", VBool true); ("0xC", VBool false)] in
  let fresh := fun t => match lastCheckedAt traders t with
                        | None => True
                        | Some last => (last = 0 \/ last < 200)%Z
                        end in
  let result := processCheckResult 200 traders (Checked o) in
  let forwarded := List.concat (yieldedTraders (snd result)) in
  (forall t v, In (t, v) o -> fresh t ->
     lastCheckedAt (fst result) t = Some 200%Z /\ (In t forwarded <-> truthy v = true))
  /\ (forall t v, In (t, v) o -> ~ fresh t ->
        JsObject.get (fst result) t = JsObject.get traders t /\ ~ In t forwarded)
  /\ (forall t, ~ In t (JsObject.keys o) ->
        JsObject.get (fst result) t = JsObject.get traders t /\ ~ In t forwarded)
  /\ ((forall t, In t (JsObject.keys o) -> ~ fresh t) -> result = (traders, []))
  /\ (forall T1 o1,
        (T1 <= 200)%Z -> 200%Z <> 0%Z ->
        (forall t, In t (JsObject.keys o1) -> In t (JsObject.keys o)) ->
        processCheckResult T1 (fst result) (Checked o1) = (fst result, [])).
Proof.
  apply (checker_freshness_guard 200
           [("0xA", Some 100%Z); ("0xB", Some 300%Z); ("0xC", None)]
           [("0xA", VBool true); ("0xB", VBool true); ("0xC", VBool false)]).
  cbn [JsObject.keys map fst].
  apply NoDup_cons; [cbn; intros [H|[H|[]]]; discriminate H|].
  apply NoDup_cons; [cbn; intros [H|[]]; discriminate H|].
  apply NoDup_cons; [intros [] | apply NoDup_nil].
Defined.

(** What the result of the witness does: the fresh traders get the
    timestamp of the pass, and the one of them that is liquidatable is
    forwarded. *)
Lemma checker_freshness_guard_example :
  processCheckResult 200 [("0xA", Some 100%Z); ("0xB", Some 300%Z); ("0xC", None)]
    (Checked [("0xA", VBool true); ("0xB", VBool true); ("0xC", VBool false)])
  = ([("0xA", Some 200%Z); ("0xB", Some 300%Z); ("0xC", Some 200%Z)],
     [YieldTraders ["0xA"]]).
Proof. reflexivity. Qed.

(** C7, as stated, fails.  Two passes with the timestamp [0]: after the
    first, the last-checked-at of the trader is [0], which is neither null
    nor older than the timestamp of the second pass; the second pass reads
    it as no timestamp and forwards the trader again. *)
Lemma checker_forwards_again_at_epoch :
  let filter := CheckFilter.constructFilterLiquidatableTraders (fun _ _ => inl [true]) 1000 in
  let first := pass filter 0 [("0xA", None)] in
  let second := pass filter 0 (fst first) in
  first = ([("0xA", Some 0%Z)], [YieldTraders ["0xA"]])
  /\ second = ([("0xA", Some 0%Z)], [YieldTraders ["0xA"]]).
Proof. split; reflexivity. Qed.

(** The guard reads a recorded timestamp [0] as no timestamp. *)
Lemma checker_guard_at_epoch :
  checkEntry 0 (mkAcc [("0xA", Some 0%Z)] [] false) ("0xA", VBool true)
  = mkAcc [("0xA", Some 0%Z)] ["0xA"] true.
Proof. reflexivity. Qed.

(** C5, as amended.  For every check result of a pass, the generator puts
    a list on the trader channel exactly when at least one entry of the
    result passed the freshness guard, whether or not the list is empty: at
    most one list per result, the list of the traders found liquidatable; a
    non-empty list is always put on the channel, and when no entry passed the
    guard, nothing is put on it and the timestamps stay as they were.  A pass
    puts on the channel what its results put on it, in order, and a
    [CheckError] is yielded when it occurs. *)
Theorem checker_yields_on_new_data (T : Z) (traders : Traders) (checkedTraders : CheckResult) :
  let acc := checkEntries T traders checkedTraders in
  let out := snd (processCheckResult T traders checkedTraders) in
  yieldedTraders out =
    (if hadNewData acc then [newLiquidatableTraders acc] else [])
  /\ hadNewData acc =
       existsb (fun check => negb (skipCheck (JsObject.get traders (fst check)) T))
         (resultEntries checkedTraders)
  /\ (newLiquidatableTraders acc <> [] -> yieldedTraders out = [newLiquidatableTraders acc])
  /\ (hadNewData acc = false ->
        yieldedTraders out = []
        /\ fst (processCheckResult T traders checkedTraders) = traders)
  /\ (forall rest,
        yieldedTraders (snd (processCheckResults T traders (checkedTraders :: rest)))
        = yieldedTraders out
          ++ yieldedTraders
               (snd (processCheckResults T
                       (fst (processCheckResult T traders checkedTraders)) rest)))
  /\ yieldedErrors out =
       match checkedTraders with
       | Failed e => [e]
       | Checked _ => []
       end.
Proof.
  cbv zeta.
  assert (Hout : yieldedTraders (snd (processCheckResult T traders checkedTraders)) =
                 if hadNewData (checkEntries T traders checkedTraders)
                 then [newLiquidatableTraders (checkEntries T traders checkedTraders)]
                 else []).
  { unfold processCheckResult. cbn [snd]. unfold yieldedTraders.
    rewrite flat_map_app.
    destruct checkedTraders; cbn [flat_map app];
      destruct (hadNewData _); reflexivity. }
  split; [exact Hout|]. split; [|split; [|split; [|split]]].
  - unfold checkEntries. rewrite hadNewData_fold. reflexivity.
  - intros Hne. rewrite Hout.
    destruct (hadNewData (checkEntries T traders checkedTraders)) eqn:E; [reflexivity|].
    unfold checkEntries in *. apply no_new_data_nothing_new in E.
    rewrite E in Hne. now contradiction Hne.
  - intros E. split.
    + now rewrite Hout, E.
    + unfold processCheckResult. cbn [fst]. unfold checkEntries in *.
      apply no_new_data_nothing_new in E. now rewrite E.
  - intros rest. cbn [processCheckResults].
    destruct (processCheckResult T traders checkedTraders) as [traders1 out1].
    cbn [fst snd].
    destruct (processCheckResults T traders1 rest) as [traders2 out2].
    cbn [snd]. unfold yieldedTraders. now rewrite flat_map_app.
  - unfold processCheckResult. cbn [snd]. unfold yieldedErrors. rewrite flat_map_app.
    destruct checkedTraders; cbn [flat_map app]; destruct (hadNewData _); reflexivity.
Qed.

(** C5, as stated, fails: a pass over one active trader that the provider
    reports not liquidatable puts the empty list on the trader channel. *)
Lemma checker_yields_empty_list :
  yieldedTraders
    (snd (pass (CheckFilter.constructFilterLiquidatableTraders (fun _ _ => inl [false]) 1000)
               1650000000000 [("trader1", None)]))
  = [[]].
Proof. reflexivity. Qed.

(** C1.  A pass in which the provider's call fails: the generator yields the
    [CheckError] and then runs the rest of the loop body on it, so the names
    of the error's properties get timestamps in [traders], and those with a
    truthy value are yielded as liquidatable traders, forwarded by the adapter
    and added to the liquidator's set. *)
Theorem checker_processes_check_error_entries :
  let filter := CheckFilter.constructFilterLiquidatableTraders (fun _ _ => inr "timeout") 1000 in
  let error := mkCheckError ["0xA"] 0 1 "timeout" in
  let result := pass filter 1650000000000 [("0xA", None)] in
  fst result =
    [ ("0xA", None); ("traders", Some 1650000000000%Z);
      ("chunkStart", Some 1650000000000%Z); ("tradersTotal", Some 1650000000000%Z);
      ("cause", Some 1650000000000%Z) ]
  /\ snd result = [YieldError error; YieldTraders ["traders"; "tradersTotal"; "cause"]]
  /\ snd (Bot.checkerToLiquidatorAdapterAndReporter (snd result))
     = [["traders"; "tradersTotal"; "cause"]]
  /\ fst (TradersLiquidator.saveLiquidatableTraders [] ["traders"; "tradersTotal"; "cause"])
     = ["traders"; "tradersTotal"; "cause"].
Proof. repeat split. Qed.

(** The same for any [CheckError], pass and set of active traders in which
    the name ["traders"] has no timestamp. *)
Lemma checker_forwards_error_property (T : Z) (traders : Traders) (e : CheckError) :
  JsObject.get traders "traders" = None ->
  let acc := checkEntries T traders (Failed e) in
  snd (processCheckResult T traders (Failed e))
    = [YieldError e; YieldTraders (newLiquidatableTraders acc)]
  /\ In "traders" (newLiquidatableTraders acc)
  /\ lastCheckedAt (accTraders acc) "traders" = Some T.
Proof.
  intros Hget acc.
  assert (Hfirst : checkEntry T (mkAcc traders [] false) ("traders", VTraders (errTraders e))
                   = mkAcc (JsObject.set traders "traders" (Some T)) ["traders"] true).
  { rewrite checkEntry_apply; [reflexivity|]. cbn [accTraders]. now rewrite Hget. }
  assert (Hkeep : forall entries acc0,
            ~ In "traders" (map fst entries) ->
            In "traders" (newLiquidatableTraders acc0) ->
            lastCheckedAt (accTraders acc0) "traders" = Some T ->
            In "traders" (newLiquidatableTraders (fold_left (checkEntry T) entries acc0))
            /\ lastCheckedAt (accTraders (fold_left (checkEntry T) entries acc0)) "traders"
               = Some T).
  { induction entries as [|[k v] es IH]; cbn [fold_left map fst]; intros acc0 Hn Hin Hts;
      [now split|].
    apply IH; [intros H; apply Hn; now right | |];
      unfold checkEntry; destruct (skipCheck _ _); auto; cbn [newLiquidatableTraders accTraders].
    - destruct (truthy v); [apply in_app_iff; now left | assumption].
    - unfold lastCheckedAt in *. rewrite get_set_other; [assumption|].
      intros ->. apply Hn. now left. }
  assert (Hacc : In "traders" (newLiquidatableTraders acc)
                 /\ lastCheckedAt (accTraders acc) "traders" = Some T).
  { unfold acc, checkEntries. cbn [resultEntries checkErrorEntries fold_left].
    rewrite Hfirst.
    apply (Hkeep [("chunkStart", VNum (errChunkStart e));
                  ("tradersTotal", VNum (errTradersTotal e));
                  ("cause", VCause (errCause e))]).
    - cbn. intros [H|[H|[H|[]]]]; discriminate.
    - now left.
    - unfold lastCheckedAt. cbn [accTraders]. now rewrite get_set_same. }
  split; [|exact Hacc].
  unfold processCheckResult. cbn [snd]. fold acc.
  assert (Hhad : hadNewData acc = true).
  { unfold acc, checkEntries. cbn [resultEntries checkErrorEntries fold_left].
    rewrite Hfirst.
    now apply (hadNewData_stays T [("chunkStart", VNum (errChunkStart e));
                                   ("tradersTotal", VNum (errTradersTotal e));
                                   ("cause", VCause (errCause e))]). }
  now rewrite Hhad.
Qed.

(** On a result that is not an error, the traders put on the channel are
    keys of the result with a truthy value. *)
Lemma checker_forwards_reported_traders (T : Z) (traders : Traders)
  (o : JsObject.t Value) (t : Trader) :
  In t (newLiquidatableTraders (checkEntries T traders (Checked o))) ->
  exists v, In (t, v) o /\ truthy v = true.
Proof.
  unfold checkEntries. intros H. apply new_traders_truthy in H.
  destruct H as [[]|H]. exact H.
Qed.

End TradersCheckerClaims.

(** ** Check filter *)
Section CheckFilterFacts.

Import CheckFilter.

Lemma chunkLoop_concat {A : Type} (fuel size : nat) (array : list A) :
  0 < size -> List.length array <= fuel ->
  List.concat (Lodash.chunkLoop fuel size array) = array.
Proof.
  intros Hsize. revert array.
  induction fuel as [|fuel IH]; intros array Hlen; destruct array as [|a array];
    try reflexivity; try (simpl in Hlen; lia).
  cbn [Lodash.chunkLoop List.concat]. rewrite IH.
  - apply firstn_skipn.
  - rewrite length_skipn. cbn [List.length] in *. lia.
Qed.

Lemma chunkLoop_nth {A : Type} (fuel size : nat) (array : list A) (i : nat) (c : list A) :
  0 < size ->
  nth_error (Lodash.chunkLoop fuel size array) i = Some c ->
  c = firstn size (skipn (i * size) array) /\ c <> [].
Proof.
  intros Hsize. revert array i.
  induction fuel as [|fuel IH]; intros array i H.
  - destruct i; discriminate.
  - destruct array as [|a array]; [destruct i; discriminate|].
    cbn [Lodash.chunkLoop] in H. destruct i as [|i]; cbn [nth_error] in H.
    + injection H as <-. split; [reflexivity|].
      destruct size; [lia | discriminate].
    + apply IH in H. destruct H as [-> Hne]. split; [|assumption].
      rewrite skipn_skipn. f_equal. f_equal. lia.
Qed.

Lemma checkChunks_length (api : Api) (chunkSize : Z) (traders : list Trader)
  (k : nat) (chunks : list (list Trader)) :
  List.length (checkChunks api chunkSize traders k chunks) = List.length chunks.
Proof.
  revert k. induction chunks as [|c chunks IH]; intros k; simpl; auto.
Qed.

Lemma checkChunks_nth (api : Api) (chunkSize : Z) (traders : list Trader)
  (chunks : list (list Trader)) (k i : nat) :
  nth_error (checkChunks api chunkSize traders k chunks) i =
    option_map (checkChunk api chunkSize traders (k + i)) (nth_error chunks i).
Proof.
  revert k i. induction chunks as [|c chunks IH]; intros k i.
  - destruct i; reflexivity.
  - destruct i as [|i]; cbn [checkChunks nth_error option_map].
    + now rewrite Nat.add_0_r.
    + rewrite IH. now rewrite Nat.add_succ_r.
Qed.

Lemma zipObjectLoop_keys (props : list string) (values : list bool)
  (o : JsObject.t Value) (t : string) :
  In t (JsObject.keys (Lodash.zipObjectLoop o props values))
  <-> In t props \/ In t (JsObject.keys o).
Proof.
  revert values o. induction props as [|p props IH]; intros values o.
  - simpl. intuition.
  - destruct values as [|v values]; cbn [Lodash.zipObjectLoop];
      rewrite IH, keys_set; simpl; intuition.
Qed.

Lemma zipObjectLoop_other (props : list string) (values : list bool)
  (o : JsObject.t Value) (t : string) :
  ~ In t props -> JsObject.get (Lodash.zipObjectLoop o props values) t = JsObject.get o t.
Proof.
  revert values o. induction props as [|p props IH]; intros values o Hn; [reflexivity|].
  simpl in Hn.
  destruct values as [|v values]; cbn [Lodash.zipObjectLoop];
    (rewrite IH by tauto); apply get_set_other; intros ->; tauto.
Qed.

Lemma zipObjectLoop_aligned (props : list string) (values : list bool)
  (o : JsObject.t Value) (j : nat) (t : string) (b : bool) :
  NoDup props -> nth_error props j = Some t -> nth_error values j = Some b ->
  JsObject.get (Lodash.zipObjectLoop o props values) t = Some (VBool b).
Proof.
  revert values o j. induction props as [|p props IH]; intros values o j Hnd Hp Hv.
  - destruct j; discriminate.
  - inversion Hnd as [|? ? Hnot Hnd']; subst.
    destruct values as [|v values]; [destruct j; discriminate|].
    cbn [Lodash.zipObjectLoop]. destruct j as [|j]; cbn [nth_error] in Hp, Hv.
    + injection Hp as ->. injection Hv as ->.
      rewrite zipObjectLoop_other by assumption. apply get_set_same.
    + eapply IH; eauto.
Qed.

Lemma zipObjectLoop_booleans (props : list string) (values : list bool)
  (o : JsObject.t Value) :
  List.length props <= List.length values ->
  (forall t v, JsObject.get o t = Some v -> exists b, v = VBool b) ->
  forall t v, JsObject.get (Lodash.zipObjectLoop o props values) t = Some v ->
              exists b, v = VBool b.
Proof.
  revert values o. induction props as [|p props IH]; intros values o Hlen Ho; [exact Ho|].
  destruct values as [|b values]; [simpl in Hlen; lia|].
  cbn [Lodash.zipObjectLoop]. apply IH; [simpl in Hlen; lia|].
  intros t v. destruct (string_dec p t) as [->|Hne].
  - rewrite get_set_same. intros [= <-]. now exists b.
  - rewrite get_set_other by assumption. apply Ho.
Qed.

(** C2.  For a positive chunk size, [check(traders)] cuts the list into
    consecutive non-empty slices of [chunkSize] traders (the slices put
    together give the list back) and yields one result per slice, in order.
    The result for slice [i] is, when the provider's call for it succeeds, an
    object whose keys are exactly the traders of the slice, with boolean
    values when the answer has one boolean per trader (each trader mapped to
    the boolean at its position when the slice has no repeated trader), and,
    when the call fails, a [CheckError] with the slice, the offset
    [i * chunkSize], the number of traders and the cause.  What the provider
    does for one slice leaves the results for the other slices unchanged. *)
Theorem check_filter_one_result_per_chunk (api : Api) (chunkSize : Z)
  (traders : list Trader) :
  (0 < chunkSize)%Z ->
  let size := Z.to_nat chunkSize in
  let chunks := Lodash.chunk traders chunkSize in
  let results := constructFilterLiquidatableTraders api chunkSize traders in
  List.concat chunks = traders
  /\ (forall i c, nth_error chunks i = Some c ->
        c = firstn size (skipn (i * size) traders) /\ c <> [])
  /\ List.length results = List.length chunks
  /\ (forall i c, nth_error chunks i = Some c ->
        nth_error results i =
          Some match api i c with
               | inl areLiquidatable => Checked (Lodash.zipObject c areLiquidatable)
               | inr error =>
                   Failed (mkCheckError c (Z.of_nat (i * size))
                             (Z.of_nat (List.length traders)) error)
               end)
  /\ (forall c areLiquidatable t,
        In t (JsObject.keys (Lodash.zipObject c areLiquidatable)) <-> In t c)
  /\ (forall c areLiquidatable t v,
        List.length areLiquidatable = List.length c ->
        JsObject.get (Lodash.zipObject c areLiquidatable) t = Some v ->
        exists b, v = VBool b)
  /\ (forall c areLiquidatable j t b,
        NoDup c -> nth_error c j = Some t -> nth_error areLiquidatable j = Some b ->
        JsObject.get (Lodash.zipObject c areLiquidatable) t = Some (VBool b))
  /\ (forall (api' : Api) k,
        (forall i c, i <> k -> api' i c = api i c) ->
        forall i, i <> k ->
          nth_error (constructFilterLiquidatableTraders api' chunkSize traders) i
          = nth_error results i).
Proof.
  intros Hpos size chunks results.
  assert (Hsize : 0 < size) by (unfold size; lia).
  assert (Hchunks : chunks = Lodash.chunkLoop (List.length traders) size traders).
  { unfold chunks, Lodash.chunk. rewrite Z.max_l by lia. fold size.
    destruct (Nat.ltb_spec size 1); [lia | reflexivity]. }
  split; [|split; [|split; [|split; [|split; [|split; [|split]]]]]].
  - rewrite Hchunks. now apply chunkLoop_concat.
  - intros i c H. rewrite Hchunks in H. now apply chunkLoop_nth in H.
  - apply checkChunks_length.
  - intros i c H. unfold results, constructFilterLiquidatableTraders.
    fold chunks. rewrite checkChunks_nth, H. cbn [option_map Nat.add].
    unfold checkChunk. destruct (api i c); [reflexivity|].
    do 3 f_equal. unfold size. rewrite Nat2Z.inj_mul. rewrite Z2Nat.id by lia. reflexivity.
  - intros c bs t. unfold Lodash.zipObject. rewrite zipObjectLoop_keys. simpl. intuition.
  - intros c bs t v Hlen. unfold Lodash.zipObject. apply zipObjectLoop_booleans; [lia|].
    intros t' v' H. discriminate.
  - intros c bs j t b. apply zipObjectLoop_aligned.
  - intros api' k Hagree i Hi. unfold results, constructFilterLiquidatableTraders.
    rewrite !checkChunks_nth. cbn [Nat.add].
    destruct (nth_error (Lodash.chunk traders chunkSize) i) as [c|]; [|reflexivity].
    cbn [option_map]. unfold checkChunk. now rewrite Hagree.
Qed.

Lemma check_filter_one_result_per_chunk_witness :
  let api : Api := fun i c => if (i =? 1)%nat then inr "rpc error" else inl (map (fun _ => true) c) in
  let traders := ["t0"; "t1"; "t2"; "t3"; "t4"] in
  let results := constructFilterLiquidatableTraders api 2 traders in
  Lodash.chunk traders 2 = [["t0"; "t1"]; ["t2"; "t3"]; ["t4"]]
  /\ results =
       [ Checked [("t0", VBool true); ("t1", VBool true)];
         Failed (mkCheckError ["t2"; "t3"] 2 5 "rpc error");
         Checked [("t4", VBool true)] ]
  /\ List.length results = List.length (Lodash.chunk traders 2).
Proof.
  split; [reflexivity|]. split; [reflexivity|].
  apply (check_filter_one_result_per_chunk
           (fun i c => if (i =? 1)%nat then inr "rpc error" else inl (map (fun _ => true) c))
           2 ["t0"; "t1"; "t2"; "t3"; "t4"]).
  reflexivity.
Defined.

End CheckFilterFacts.

(** ** The combined re-check of the liquidator *)
Section RecheckFacts.

Import TradersLiquidator RecheckHistory.

Lemma countDone_app (a b : list FilterEvent) :
  countDone (a ++ b) = countDone a + countDone b.
Proof. unfold countDone. now rewrite filter_app, length_app. Qed.

Lemma tracks_start (traders : list Trader) : tracks [] (recheckStart traders).
Proof.
  repeat split; simpl; try discriminate.
  intros [o []].
Qed.

Lemma step_resolved (nFilters : nat) (seen : list FilterEvent) (s : Recheck)
  (ev : FilterEvent) :
  tracks seen s ->
  resolved (recheckStep nFilters s ev) = true
  <-> exists filter, ev = FilterDone filter /\ resolving nFilters seen filter.
Proof.
  intros (Hres & Hproc & Hgot). unfold resolving.
  destruct ev as [f [o|e]|f]; cbn [recheckStep resolved].
  - rewrite Hres. split; [discriminate | intros (f' & [=] & _)].
  - rewrite Hres. split; [discriminate | intros (f' & [=] & _)].
  - rewrite Hres, Hproc. cbn [orb]. rewrite orb_true_iff, Nat.eqb_eq, Hgot. split.
    + intros H. now exists f.
    + intros (f' & [= <-] & H). exact H.
Qed.

Lemma step_tracks (nFilters : nat) (seen : list FilterEvent) (s : Recheck)
  (ev : FilterEvent) :
  tracks seen s ->
  resolved (recheckStep nFilters s ev) = false ->
  tracks (seen ++ [ev]) (recheckStep nFilters s ev).
Proof.
  intros (Hres & Hproc & Hgot) Hstep. split; [assumption|].
  rewrite countDone_app.
  destruct ev as [f [o|e]|f]; cbn [recheckStep processed gotSomeNonErrorResults].
  - split; [rewrite Hproc; unfold countDone; simpl; lia|].
    intros f'. cbn [existsb]. rewrite orb_true_iff, Nat.eqb_eq, Hgot. split.
    + intros [->|[o' H]].
      * exists o. apply in_app_iff. right. now left.
      * exists o'. apply in_app_iff. now left.
    + intros [o' H]. apply in_app_iff in H. destruct H as [H|[[= -> ->]|[]]].
      * right. now exists o'.
      * now left.
  - split; [rewrite Hproc; unfold countDone; simpl; lia|].
    intros f'. rewrite Hgot. split; intros [o' H]; exists o'.
    + apply in_app_iff. now left.
    + apply in_app_iff in H. destruct H as [H|[[=]|[]]]. exact H.
  - split; [rewrite Hproc; unfold countDone; simpl; lia|].
    intros f'. rewrite Hgot. split; intros [o' H]; exists o'.
    + apply in_app_iff. now left.
    + apply in_app_iff in H. destruct H as [H|[[=]|[]]]. exact H.
Qed.

(** The promise is resolved by the first completion of a filter that is
    [resolving], and by nothing else. *)
Lemma resolvedAfter_first (nFilters : nat) (rest seen : list FilterEvent)
  (s : Recheck) (k : nat) :
  tracks seen s ->
  resolvedAfter nFilters s rest = Some k
  <-> exists pre filter later,
        rest = pre ++ FilterDone filter :: later
        /\ k = S (List.length pre)
        /\ resolving nFilters (seen ++ pre) filter
        /\ forall pre1 filter1 later1,
             pre = pre1 ++ FilterDone filter1 :: later1 ->
             ~ resolving nFilters (seen ++ pre1) filter1.
Proof.
  revert seen s k. induction rest as [|ev rest IH]; intros seen s k Htr.
  - cbn [resolvedAfter]. split; [discriminate|].
    intros (pre & f & later & H & _). destruct pre; discriminate.
  - cbn [resolvedAfter].
    pose proof (step_resolved nFilters seen s ev Htr) as Hstep.
    destruct (resolved (recheckStep nFilters s ev)) eqn:E.
    + destruct (proj1 Hstep eq_refl) as (f & -> & Hf). split.
      * intros [= <-]. exists [], f, rest. rewrite app_nil_r.
        repeat split; auto. intros pre1 f1 l1 H. destruct pre1; discriminate.
      * intros (pre & f' & later & Hrest & -> & Hres & Hfirst).
        destruct pre as [|ev' pre]; [reflexivity|].
        injection Hrest as <- Hrest. exfalso.
        apply (Hfirst [] f pre eq_refl). now rewrite app_nil_r.
    + pose proof (step_tracks nFilters seen s ev Htr E) as Htr'.
      split.
      * destruct (resolvedAfter nFilters (recheckStep nFilters s ev) rest) as [k'|] eqn:Ek;
          [|discriminate].
        intros [= <-]. apply (IH _ _ _ Htr') in Ek.
        destruct Ek as (pre & f & later & -> & -> & Hres & Hfirst).
        exists (ev :: pre), f, later. rewrite <- app_assoc in Hres.
        repeat split; auto.
        intros pre1 f1 l1 H. destruct pre1 as [|ev1 pre1].
        -- injection H as -> _. rewrite app_nil_r. intros Hr.
           assert (false = true) by (apply Hstep; now exists f1).
           discriminate.
        -- injection H as <- H. specialize (Hfirst pre1 f1 l1 H).
           now rewrite <- app_assoc in Hfirst.
      * intros (pre & f & later & Hrest & -> & Hres & Hfirst).
        destruct pre as [|ev' pre].
        -- injection Hrest as -> _. rewrite app_nil_r in Hres.
           assert (false = true) by (apply Hstep; now exists f).
           discriminate.
        -- injection Hrest as <- ->.
           assert (Hk : resolvedAfter nFilters (recheckStep nFilters s ev)
                          (pre ++ FilterDone f :: later) = Some (S (List.length pre))).
           { apply (IH _ _ _ Htr'). exists pre, f, later.
             rewrite <- app_assoc. repeat split; auto.
             intros pre1 f1 l1 H. rewrite <- app_assoc.
             apply (Hfirst (ev :: pre1) f1 l1). now rewrite H. }
           now rewrite Hk.
Qed.

Lemma step_resolved_stays (nFilters : nat) (s : Recheck) (ev : FilterEvent) :
  resolved s = true -> resolved (recheckStep nFilters s ev) = true.
Proof.
  intros H. destruct ev as [f [o|e]|f]; cbn [recheckStep resolved]; rewrite H; reflexivity.
Qed.

Lemma run_resolved_stays (nFilters : nat) (events : list FilterEvent) (s : Recheck) :
  resolved s = true -> resolved (recheckRun nFilters s events) = true.
Proof.
  unfold recheckRun. revert s.
  induction events as [|ev events IH]; intros s H; cbn [fold_left]; auto.
  apply IH. now apply step_resolved_stays.
Qed.

(** The caller can continue exactly when the promise has been resolved. *)
Lemma run_resolved (nFilters : nat) (events : list FilterEvent) (s : Recheck) :
  resolved s = false ->
  resolved (recheckRun nFilters s events) = true
  <-> exists k, resolvedAfter nFilters s events = Some k.
Proof.
  revert s. induction events as [|ev events IH]; intros s H.
  - cbn. rewrite H. split; [discriminate | intros [k [=]]].
  - change (recheckRun nFilters s (ev :: events))
      with (recheckRun nFilters (recheckStep nFilters s ev) events).
    cbn [resolvedAfter].
    destruct (resolved (recheckStep nFilters s ev)) eqn:E.
    + rewrite run_resolved_stays by assumption. split; eauto.
    + rewrite (IH _ E). split.
      * intros [k ->]. now exists (S k).
      * intros [k Hk].
        destruct (resolvedAfter nFilters (recheckStep nFilters s ev) events) as [k'|];
          [now exists k' | discriminate].
Qed.

End RecheckFacts.

Section RecheckCourse.

Import TradersLiquidator RecheckHistory.

Lemma truthyKeys_In (o : JsObject.t Value) (t : string) :
  In t (Lodash.truthyKeys o) <-> exists v, In (t, v) o /\ truthy v = true.
Proof.
  unfold Lodash.truthyKeys, JsObject.keys. rewrite in_map_iff. split.
  - intros [[t' v] [<- H]]. apply filter_In in H. now exists v.
  - intros [v [Hin Hv]]. exists (t, v). split; [reflexivity|].
    apply filter_In. now split.
Qed.

Lemma NoDup_app_disjoint {A : Type} (a b : list A) (x : A) :
  NoDup (a ++ b) -> In x a -> ~ In x b.
Proof.
  induction a as [|y a IH]; cbn [app]; intros Hnd Hin Hb; [contradiction|].
  inversion Hnd as [|? ? Hy Hnd']; subst. destruct Hin as [->|Hin].
  - apply Hy. apply in_app_iff. now right.
  - now apply IH.
Qed.

Lemma step_nonLiquidatable_In (nFilters : nat) (s : Recheck) (ev : FilterEvent)
  (t : Trader) :
  In t (nonLiquidatableTraders (recheckStep nFilters s ev)) ->
  In t (nonLiquidatableTraders s).
Proof.
  destruct ev as [f [o|e]|f]; cbn [recheckStep nonLiquidatableTraders]; auto.
  apply forEach_delete_In.
Qed.

Lemma step_nonLiquidatable_keeps (nFilters : nat) (s : Recheck) (ev : FilterEvent)
  (t : Trader) :
  In t (nonLiquidatableTraders s) ->
  (forall f o, ev = CheckYielded f (Checked o) -> ~ In t (Lodash.truthyKeys o)) ->
  In t (nonLiquidatableTraders (recheckStep nFilters s ev)).
Proof.
  intros Hin Hn. destruct ev as [f [o|e]|f]; cbn [recheckStep nonLiquidatableTraders]; auto.
  apply forEach_delete_keeps; [exact Hin | now apply (Hn f o)].
Qed.

(** The traders in [nonLiquidatableTraders] were there from the start. *)
Lemma run_nonLiquidatable_In (nFilters : nat) (events : list FilterEvent)
  (s : Recheck) (t : Trader) :
  In t (nonLiquidatableTraders (recheckRun nFilters s events)) ->
  In t (nonLiquidatableTraders s).
Proof.
  unfold recheckRun. revert s.
  induction events as [|ev events IH]; intros s; cbn [fold_left]; auto.
  intros H. apply IH in H. now apply step_nonLiquidatable_In in H.
Qed.

(** A trader that no result so far reports with a truthy value is left in
    [nonLiquidatableTraders]. *)
Lemma run_nonLiquidatable_keeps (nFilters : nat) (events : list FilterEvent)
  (s : Recheck) (t : Trader) :
  In t (nonLiquidatableTraders s) ->
  (forall f o, In (CheckYielded f (Checked o)) events -> ~ In t (Lodash.truthyKeys o)) ->
  In t (nonLiquidatableTraders (recheckRun nFilters s events)).
Proof.
  unfold recheckRun. revert s.
  induction events as [|ev events IH]; intros s Hin Hn; cbn [fold_left]; auto.
  apply IH.
  - apply step_nonLiquidatable_keeps; [exact Hin|].
    intros f o ->. apply (Hn f o). now left.
  - intros f o Ho. apply (Hn f o). now right.
Qed.


Lemma reportedIn_In (events : list FilterEvent) (t : Trader) :
  In t (Readings.reportedIn events)
  <-> exists f o, In (CheckYielded f (Checked o)) events /\ In t (Lodash.truthyKeys o).
Proof.
  unfold Readings.reportedIn. rewrite in_flat_map. split.
  - intros ([f [o|e]|f] & Hin & Ht); cbn [Readings.reportedLiquidatable] in Ht;
      try contradiction.
    now exists f, o.
  - intros (f & o & Hin & Ht). now exists (CheckYielded f (Checked o)).
Qed.

(** When no trader is reported liquidatable twice and only traders of
    [nonLiquidatableTraders] are reported, no iteration ends early: what is
    left are the traders that no result reports. *)
Lemma run_nonLiquidatable_exact (nFilters : nat) (events : list FilterEvent) (s : Recheck) :
  NoDup (Readings.reportedIn events) ->
  (forall t, In t (Readings.reportedIn events) -> In t (nonLiquidatableTraders s)) ->
  nonLiquidatableTraders (recheckRun nFilters s events)
  = JsSet.deleteAll (nonLiquidatableTraders s) (Readings.reportedIn events).
Proof.
  unfold recheckRun, Readings.reportedIn. revert s.
  induction events as [|ev events IH]; intros s Hnd Hin; cbn [fold_left flat_map] in *;
    [reflexivity|].
  destruct ev as [f [o|e]|f]; cbn [Readings.reportedLiquidatable app] in *.
  - assert (Hstep : nonLiquidatableTraders (recheckStep nFilters s (CheckYielded f (Checked o)))
                    = JsSet.deleteAll (nonLiquidatableTraders s) (Lodash.truthyKeys o)).
    { cbn [recheckStep nonLiquidatableTraders]. apply forEach_delete_all.
      - now apply NoDup_app_remove_r in Hnd.
      - intros t Ht. apply Hin. apply in_app_iff. now left. }
    rewrite IH.
    + rewrite Hstep. unfold JsSet.deleteAll. now rewrite fold_left_app.
    + now apply NoDup_app_remove_l in Hnd.
    + intros t Ht. rewrite Hstep. apply deleteAll_In. split.
      * apply Hin. apply in_app_iff. now right.
      * intros Htruthy. exact (NoDup_app_disjoint _ _ t Hnd Htruthy Ht).
  - rewrite IH; [reflexivity | exact Hnd | exact Hin].
  - rewrite IH; [reflexivity | exact Hnd | exact Hin].
Qed.

Lemma list_sum_const_zero (l : list nat) : list_sum (map (fun _ => 0) l) = 0.
Proof. induction l; simpl; auto. Qed.

Lemma list_sum_const_one (l : list nat) : list_sum (map (fun _ => 1) l) = List.length l.
Proof. induction l; simpl; auto. Qed.

Lemma list_sum_map_add (a b : nat -> nat) (l : list nat) :
  list_sum (map (fun x => a x + b x) l) = list_sum (map a l) + list_sum (map b l).
Proof. induction l; simpl; lia. Qed.

Lemma list_sum_indicator (j c start len : nat) :
  list_sum (map (fun f => if (j =? f)%nat then c else 0) (seq start len)) =
    if ((start <=? j) && (j <? start + len))%nat then c else 0.
Proof.
  revert start. induction len as [|len IH]; intros start; cbn [seq map].
  - destruct (Nat.leb_spec start j), (Nat.ltb_spec j (start + 0)); simpl; auto; lia.
  - change (list_sum (?a :: ?l)) with (a + list_sum l). rewrite IH.
    destruct (Nat.eqb_spec j start), (Nat.leb_spec start j), (Nat.leb_spec (S start) j),
      (Nat.ltb_spec j (S start + len)), (Nat.ltb_spec j (start + S len)); simpl; lia.
Qed.

Lemma countDone_cons (ev : FilterEvent) (events : list FilterEvent) :
  countDone (ev :: events) = (if isFilterDone ev then 1 else 0) + countDone events.
Proof. unfold countDone. simpl. now destruct (isFilterDone ev). Qed.

Lemma countDone_by_filter (N : nat) (events : list FilterEvent) :
  (forall ev, In ev events -> eventFilter ev < N) ->
  countDone events = list_sum (map (fun f => countDone (eventsOf f events)) (seq 0 N)).
Proof.
  induction events as [|ev events IH]; intros Hlt.
  - cbn. now rewrite list_sum_const_zero.
  - rewrite (map_ext (fun f => countDone (eventsOf f (ev :: events)))
                     (fun f => (if (eventFilter ev =? f)%nat
                                then (if isFilterDone ev then 1 else 0) else 0)
                               + countDone (eventsOf f events))).
    + rewrite list_sum_map_add, list_sum_indicator, countDone_cons.
      rewrite <- IH by (intros; apply Hlt; now right).
      assert (eventFilter ev < N) by (apply Hlt; now left).
      destruct (Nat.ltb_spec (eventFilter ev) (0 + N)); [reflexivity | lia].
    + intros f. unfold eventsOf. cbn [List.filter].
      destruct (eventFilter ev =? f)%nat; [|reflexivity].
      now rewrite countDone_cons.
Qed.

Lemma countDone_yielded (filter : nat) (results : list CheckResult) :
  countDone (map (CheckYielded filter) results) = 0.
Proof. induction results; auto. Qed.

(** In a course of the filters, every filter finishes once. *)
Lemma courseOf_countDone (filters : list (list Trader -> list CheckResult))
  (traders : list Trader) (events : list FilterEvent) :
  courseOf filters traders events -> countDone events = List.length filters.
Proof.
  intros Hc. rewrite (countDone_by_filter (List.length filters)).
  - rewrite (map_ext_in _ (fun _ => 1)).
    + now rewrite list_sum_const_one, length_seq.
    + intros f Hf. apply in_seq in Hf. rewrite Hc.
      destruct (nth_error filters f) as [g|] eqn:E.
      * rewrite countDone_app, countDone_yielded. reflexivity.
      * apply nth_error_None in E. lia.
  - intros ev Hin.
    destruct (Nat.lt_ge_cases (eventFilter ev) (List.length filters)) as [|Hge]; auto.
    assert (Hev : In ev (eventsOf (eventFilter ev) events)).
    { apply filter_In. split; [assumption | apply Nat.eqb_refl]. }
    rewrite Hc in Hev. apply nth_error_None in Hge. rewrite Hge in Hev. contradiction.
Qed.

(** The promise is resolved at the latest when the last filter finishes. *)
Lemma run_resolved_total (nFilters : nat) (rest seen : list FilterEvent) (s : Recheck) :
  tracks seen s ->
  countDone seen < nFilters ->
  nFilters <= countDone (seen ++ rest) ->
  resolved (recheckRun nFilters s rest) = true.
Proof.
  revert seen s. induction rest as [|ev rest IH]; intros seen s Htr Hlt Hge.
  - rewrite app_nil_r in Hge. lia.
  - change (recheckRun nFilters s (ev :: rest))
      with (recheckRun nFilters (recheckStep nFilters s ev) rest).
    destruct (resolved (recheckStep nFilters s ev)) eqn:E;
      [now apply run_resolved_stays|].
    apply (IH (seen ++ [ev])).
    + now apply step_tracks.
    + rewrite countDone_app, countDone_cons. destruct ev as [f r|f]; cbn [isFilterDone].
      * change (countDone []) with 0. lia.
      * assert (Hn : ~ resolving nFilters seen f).
        { intros Hr. assert (Ht : resolved (recheckStep nFilters s (FilterDone f)) = true)
            by (apply (step_resolved nFilters seen s _ Htr); now exists f).
          congruence. }
        unfold resolving in Hn. change (countDone []) with 0. lia.
    + now rewrite <- app_assoc.
Qed.

(** With at least one filter, once all filters have finished the re-check
    has a result. *)
Lemma filterNonLiquidatableTraders_total
  (filters : list (list Trader -> list CheckResult))
  (traders : list Trader) (events : list FilterEvent) :
  filters <> [] -> courseOf filters traders events ->
  resolved (recheckRun (List.length filters) (recheckStart traders) events) = true.
Proof.
  intros Hne Hc. apply (run_resolved_total _ _ []).
  - apply tracks_start.
  - destruct filters; [congruence | simpl; unfold countDone; simpl; lia].
  - cbn [app]. now rewrite (courseOf_countDone filters traders).
Qed.

End RecheckCourse.

Section RecheckClaims.

Import TradersLiquidator RecheckHistory.

(** C6, as amended.  The combined re-check resolves exactly at the first
    completion of a filter that is the last one to finish or has yielded at
    least one result that is not an error (an error-free pass is not
    required).  [filterNonLiquidatableTraders] has a result for its caller
    exactly when the re-check has resolved.  The decision is taken from the
    results processed until the caller continues, whatever results come
    later: the traders it returns are failed traders, and every failed
    trader that none of these results reports with a truthy value is among
    them; when these results report failed traders only and none of them
    twice, the traders returned are exactly those. *)
Theorem recheck_resolves_at_first_answering_completion (nFilters : nat)
  (traders : list Trader) (events : list FilterEvent) (k : nat) :
  (resolvedAfter nFilters (recheckStart traders) events = Some k
   <-> exists pre filter later,
         events = pre ++ FilterDone filter :: later
         /\ k = S (List.length pre)
         /\ resolving nFilters pre filter
         /\ forall pre1 filter1 later1,
              pre = pre1 ++ FilterDone filter1 :: later1 ->
              ~ resolving nFilters pre1 filter1)
  /\ (filterNonLiquidatableTraders traders nFilters events <> None
      <-> exists k', resolvedAfter nFilters (recheckStart traders) events = Some k')
  /\ (forall nonLiquidatable errors t,
        filterNonLiquidatableTraders traders nFilters events = Some (nonLiquidatable, errors) ->
        (In t nonLiquidatable -> In t traders)
        /\ (In t traders ->
            (forall f o, In (CheckYielded f (Checked o)) events ->
                         ~ In t (Lodash.truthyKeys o)) ->
            In t nonLiquidatable)
        /\ (NoDup (Readings.reportedIn events) ->
            (forall t', In t' (Readings.reportedIn events) -> In t' traders) ->
            (In t nonLiquidatable
             <-> In t traders
                 /\ forall f o, In (CheckYielded f (Checked o)) events ->
                                ~ In t (Lodash.truthyKeys o)))).
Proof.
  split; [|split].
  - apply (resolvedAfter_first nFilters events [] (recheckStart traders) k).
    apply tracks_start.
  - rewrite <- (run_resolved nFilters events (recheckStart traders) eq_refl).
    unfold filterNonLiquidatableTraders. cbv zeta.
    destruct (resolved (recheckRun nFilters (recheckStart traders) events));
      split; congruence.
  - intros nonLiquidatable errors t. unfold filterNonLiquidatableTraders. cbv zeta.
    destruct (resolved (recheckRun nFilters (recheckStart traders) events)); [|discriminate].
    intros [= <- _]. split; [|split].
    + intros H. apply run_nonLiquidatable_In in H.
      cbn [recheckStart nonLiquidatableTraders] in H. now apply ofList_In.
    + intros Ht Hnone. apply run_nonLiquidatable_keeps; [|exact Hnone].
      cbn [recheckStart nonLiquidatableTraders]. now apply ofList_In.
    + intros Hnd Hsub. rewrite run_nonLiquidatable_exact.
      * rewrite deleteAll_In. cbn [recheckStart nonLiquidatableTraders].
        rewrite ofList_In, reportedIn_In. split.
        -- intros [Ht Hn]. split; [exact Ht|]. intros f o Ho Htruthy.
           apply Hn. now exists f, o.
        -- intros [Ht Hn]. split; [exact Ht|]. intros (f & o & Ho & Htruthy).
           exact (Hn f o Ho Htruthy).
      * exact Hnd.
      * intros t' Ht'. cbn [recheckStart nonLiquidatableTraders].
        apply ofList_In. now apply Hsub.
Qed.

(** C6, as stated, fails.  Two filters over two traders in chunks of one:
    the first filter answers for the first chunk and fails on the second.
    When it finishes, the re-check resolves (after three events), although no
    filter has made an error-free pass and the second filter has not
    finished; the rule of the specification holds only after six events. *)
Lemma recheck_resolves_without_error_free_pass :
  let traders := ["0xA"; "0xB"] in
  let first := CheckFilter.constructFilterLiquidatableTraders
                 (fun i _ => if (i =? 0)%nat then inl [false] else inr "rpc error") 1 in
  let second := CheckFilter.constructFilterLiquidatableTraders (fun _ _ => inl [true]) 1 in
  let events := map (CheckYielded 0) (first traders) ++ [FilterDone 0]
                ++ map (CheckYielded 1) (second traders) ++ [FilterDone 1] in
  resolvedAfter 2 (recheckStart traders) events = Some 3
  /\ Specification.completedAfter 2 events = Some 6
  /\ filterNonLiquidatableTraders traders 2 (firstn 3 events)
     = Some (["0xA"; "0xB"], [mkCheckError ["0xB"] 1 2 "rpc error"]).
Proof. repeat split. Qed.






(** The faster filter answers [false] and finishes, which resolves the
    re-check; the answer [true] of the slower filter is part of the decision
    only if it is processed before the liquidator continues. *)
Lemma recheck_late_answer :
  let events := [CheckYielded 0 (Checked [("trader1", VBool false)]); FilterDone 0;
                 CheckYielded 1 (Checked [("trader1", VBool true)]); FilterDone 1] in
  resolvedAfter 2 (recheckStart ["trader1"]) events = Some 2
  /\ filterNonLiquidatableTraders ["trader1"] 2 (firstn 2 events) = Some (["trader1"], [])
  /\ filterNonLiquidatableTraders ["trader1"] 2 events = Some ([], []).
Proof. repeat split. Qed.

(** The iteration over the traders an answer reports liquidatable ends at
    the first of them that is no longer in [nonLiquidatableTraders]: the
    second answer reports both traders liquidatable, the first of them has
    been deleted for the first answer, and the second trader is returned as
    not liquidatable and removed from the LiquidatableTraderSet. *)
Lemma recheck_stops_at_absent_trader :
  let events := [CheckYielded 0 (Checked [("0xX", VBool true); ("0xY", VBool false)]);
                 CheckYielded 1 (Checked [("0xX", VBool true); ("0xY", VBool true)]);
                 FilterDone 0; FilterDone 1] in
  filterNonLiquidatableTraders ["0xX"; "0xY"] 2 events = Some (["0xY"], [])
  /\ liquidatableTraders
       (fst (step 2 1 (mkState ["0xX"; "0xY"] (AwaitRecheck ["0xX"; "0xY"]))
               (Rechecked events)))
     = ["0xX"].
Proof. split; reflexivity. Qed.

(** In a complete course of at least one filter the liquidator gets a
    result. *)
Lemma recheck_course_has_result (filters : list (list Trader -> list CheckResult))
  (traders : list Trader) (events : list FilterEvent) :
  filters <> [] -> courseOf filters traders events ->
  filterNonLiquidatableTraders traders (List.length filters) events <> None.
Proof.
  intros Hne Hc. unfold filterNonLiquidatableTraders. cbv zeta.
  now rewrite (filterNonLiquidatableTraders_total filters traders events Hne Hc).
Qed.
End RecheckClaims.

(** ** The liquidation loop *)
Section LiquidatorFacts.

Import TradersLiquidator.

Variables (nFilters : nat) (retryIntervalSec : Z).

Lemma size_zero (traders : JsSet.t) : (JsSet.size traders =? 0)%nat = true <-> traders = [].
Proof.
  unfold JsSet.size. rewrite Nat.eqb_eq. destruct traders; simpl; split; congruence.
Qed.

Lemma loopHead_not_woken (traders : JsSet.t) : pc (fst (loopHead traders)) <> Woken.
Proof. unfold loopHead. destruct (JsSet.size traders =? 0)%nat; discriminate. Qed.

Lemma loopHead_batch (traders : JsSet.t) (batch : list Trader) :
  In (CallLiquidate batch) (snd (loopHead traders)) -> batch <> [].
Proof.
  unfold loopHead. destruct (JsSet.size traders =? 0)%nat eqn:E; cbn [snd].
  - intros [].
  - intros [[= <-]|[]] Hempty. apply size_zero in Hempty. congruence.
Qed.

(** A write only adds traders, whatever the loop is doing. *)
Lemma write_keeps_traders (s : State) (new : list Trader) (t : Trader) :
  In t (liquidatableTraders s) ->
  In t (liquidatableTraders (fst (step nFilters retryIntervalSec s (Write new)))).
Proof.
  intros H.
  assert (Hadd : In t (JsSet.addAll (liquidatableTraders s) new))
    by (apply addAll_In; now right).
  destruct s as [traders p]. cbn [liquidatableTraders] in *.
  destruct p; cbn [step pc saveLiquidatableTraders fst liquidatableTraders]; exact Hadd.
Qed.

(** While the continuation of [once] is pending, the set is not empty. *)
Lemma step_woken (s : State) (i : Input) :
  (pc s = Woken -> liquidatableTraders s <> []) ->
  pc (fst (step nFilters retryIntervalSec s i)) = Woken ->
  liquidatableTraders (fst (step nFilters retryIntervalSec s i)) <> [].
Proof.
  destruct s as [traders p]. cbn [pc liquidatableTraders]. intros Hinv.
  destruct i as [new| | |liquidations|events]; destruct p;
    cbn [step pc liquidatableTraders saveLiquidatableTraders fst];
    try discriminate;
    try (intros _; apply addAll_nonempty; now apply Hinv);
    try (intros H; now apply loopHead_not_woken in H);
    try (intros H; now apply Hinv).
  - (* a write while the loop waits for traders *)
    destruct (negb (JsSet.size (JsSet.addAll traders new) =? 0)%nat) eqn:E;
      cbn [fst pc liquidatableTraders]; [|discriminate].
    intros _ Hempty. rewrite (proj2 (size_zero _) Hempty) in E. discriminate.
  - destruct errors; cbn [fst pc]; discriminate.
  - destruct (filterNonLiquidatableTraders erroredTraders nFilters events)
      as [[nonLiquidatable checksErrors]|]; [|discriminate].
    destruct checksErrors; [|discriminate].
    intros H. now apply loopHead_not_woken in H.
Qed.

Lemma step_batch (s : State) (i : Input) (batch : list Trader) :
  (pc s = Woken -> liquidatableTraders s <> []) ->
  In (CallLiquidate batch) (snd (step nFilters retryIntervalSec s i)) ->
  batch <> [].
Proof.
  destruct s as [traders p]. cbn [pc liquidatableTraders]. intros Hinv.
  destruct i as [new| | |liquidations|events]; destruct p;
    cbn [step pc liquidatableTraders snd];
    try solve [intros H; repeat (destruct H as [H|H]; [discriminate H|]); contradiction H];
    try (now apply loopHead_batch).
  - (* after the results have been yielded *)
    destruct errors; cbn [snd startRecheck]; intros [[=]|[]].
  - (* the continuation of [once] *)
    intros [[= <-]|[]]. now apply Hinv.
  - (* the re-check has resolved *)
    destruct (filterNonLiquidatableTraders erroredTraders nFilters events)
      as [[nonLiquidatable checksErrors]|]; [|intros []].
    destruct checksErrors; [now apply loopHead_batch | intros [[=]|[]]].
Qed.

Lemma run_batch (inputs : list Input) (s : State) (batch : list Trader) :
  (pc s = Woken -> liquidatableTraders s <> []) ->
  In (CallLiquidate batch) (snd (run nFilters retryIntervalSec s inputs)) ->
  batch <> [].
Proof.
  revert s. induction inputs as [|i inputs IH]; intros s Hinv; cbn [run].
  - intros [].
  - pose proof (step_woken s i Hinv) as Hinv'.
    pose proof (step_batch s i batch Hinv) as Hstep.
    destruct (step nFilters retryIntervalSec s i) as [s1 effects1].
    specialize (IH s1 Hinv').
    destruct (run nFilters retryIntervalSec s1 inputs) as [s2 effects2].
    cbn [snd fst] in *. intros H. apply in_app_iff in H. destruct H; auto.
Qed.

End LiquidatorFacts.

Section LiquidatorClaims.

Import TradersLiquidator.

(** C10.  In every run of the liquidator, from its start and whatever the
    stream, the exchange and the filters do, every batch passed to
    [exchangeService.liquidate] is non-empty. *)
Theorem liquidate_batch_never_empty (nFilters : nat) (retryIntervalSec : Z)
  (inputs : list Input) (batch : list Trader) :
  In (CallLiquidate batch) (snd (run nFilters retryIntervalSec initial inputs)) ->
  batch <> [].
Proof.
  apply run_batch. discriminate.
Qed.

Lemma liquidate_batch_never_empty_witness :
  snd (run 1 1 initial [Pull; Write []; Write ["0xA"; "0xB"]; Write ["0xA"]; Resume])
  = [CallLiquidate ["0xA"; "0xB"]]
  /\ ["0xA"; "0xB"] <> [].
Proof.
  split; [reflexivity|].
  apply (liquidate_batch_never_empty 1 1
           [Pull; Write []; Write ["0xA"; "0xB"]; Write ["0xA"]; Resume] ["0xA"; "0xB"]).
  left. reflexivity.
Defined.

(** The loop suspends on an empty set, a write wakes it exactly when it
    leaves the set non-empty, and a write removes nothing. *)
Lemma liquidator_suspends_and_wakes (nFilters : nat) (retryIntervalSec : Z)
  (traders : JsSet.t) (new : list Trader) :
  loopHead [] = (mkState [] AwaitTraders, [])
  /\ (pc (fst (step nFilters retryIntervalSec (mkState traders AwaitTraders) (Write new))) = Woken
      <-> JsSet.addAll traders new <> [])
  /\ (forall s t, In t (liquidatableTraders s) ->
        In t (liquidatableTraders (fst (step nFilters retryIntervalSec s (Write new))))).
Proof.
  split; [reflexivity|]. split.
  - cbn [step pc liquidatableTraders saveLiquidatableTraders].
    destruct (negb (JsSet.size (JsSet.addAll traders new) =? 0)%nat) eqn:E; cbn [fst pc].
    + split; [|reflexivity]. intros _ H. apply size_zero in H. rewrite H in E. discriminate.
    + split; [discriminate|]. intros H. exfalso. apply H. apply size_zero.
      now apply negb_false_iff in E.
  - intros s t. apply write_keeps_traders.
Qed.

(** The pause after a cycle: requested only when a liquidation failed, and
    then with [retryIntervalSec] itself as the delay. *)
Lemma liquidator_pause (nFilters : nat) (retryIntervalSec : Z) (traders : JsSet.t)
  (errors : list LiquidationError) :
  snd (step nFilters retryIntervalSec (mkState traders (YieldedResults errors)) Pull)
  = match errors with
    | [] => [CallFilters []]
    | _ :: _ => [SetTimeout retryIntervalSec]
    end.
Proof. now destruct errors. Qed.

(** C4.  A cycle with one failed liquidation and a retry interval of one
    second: the delay the liquidator requests from the timer is [1], not the
    [1000] milliseconds of one second; the checker multiplies its interval
    by [1000]. *)
Theorem liquidator_retry_delay_not_in_milliseconds :
  let liquidations := mkLiquidations [] [mkLiquidationError "0xA" "mock liquidate error"] in
  snd (run 1 1 initial [Write ["0xA"]; Pull; Liquidated liquidations; Pull])
  = [CallLiquidate ["0xA"]; Yield (LiquidationsDone liquidations); SetTimeout 1]
  /\ (1 * 1000)%Z <> 1%Z
  /\ TradersChecker.recheckDelay 1 = 1000%Z.
Proof. repeat split. discriminate. Qed.

End LiquidatorClaims.

(** ** Orchestrator *)
Section BotClaims.

Import Bot.

Lemma start_not_running (filterLiquidatableTraders : list Trader -> list CheckResult)
  (s : State) :
  isRunning s = None ->
  start filterLiquidatableTraders s
  = (mkState None (Some false) (listeners s) (reports s),
     Threw (TypeError mapIsNotAFunction)).
Proof. intros H. unfold start. now rewrite H. Qed.

Lemma calls_not_running (cs : list Call) (s : State) :
  isRunning s = None ->
  isRunning (fst (calls s cs)) = None
  /\ listeners (fst (calls s cs)) = listeners s
  /\ reports (fst (calls s cs)) = reports s
  /\ snd (calls s cs)
     = map (fun c => match c with
                     | CallStart _ => Some (Threw (TypeError mapIsNotAFunction))
                     | CallStop => Some (Threw (OwnError notRunning))
                     | CallJoin => Some Returned
                     end) cs.
Proof.
  revert s. induction cs as [|c cs IH]; intros s Hs; cbn [calls map].
  - now repeat split.
  - assert (Hcall : exists s1,
              call s c
              = (s1, match c with
                     | CallStart _ => Some (Threw (TypeError mapIsNotAFunction))
                     | CallStop => Some (Threw (OwnError notRunning))
                     | CallJoin => Some Returned
                     end)
              /\ isRunning s1 = None /\ listeners s1 = listeners s
              /\ reports s1 = reports s).
    { destruct c as [filter| |]; cbn [call].
      - rewrite (start_not_running filter s Hs). eexists. now repeat split.
      - unfold stop. rewrite Hs. eexists. now repeat split.
      - unfold join. rewrite Hs. eexists. now repeat split. }
    destruct Hcall as (s1 & -> & Hs1 & Hl1 & Hr1).
    destruct (IH s1 Hs1) as (Hrun & Hl & Hrep & Hres).
    destruct (calls s1 cs) as [s2 results]. cbn [fst snd] in *.
    repeat split; congruence.
Qed.

(** C9.  The bot cannot be started.  [start] passes the one filter function
    it has built to [tradersCheckerProcessor.start], which calls [map] on
    it: whatever is called and in whatever order, from the state in which
    the module is loaded, every [start] throws this TypeError, and not the
    error of a session that is already running; [isRunning] is never set, so
    no session is ever running, every [stop] throws that the bot is not
    running, every [join] returns at once, and nothing is emitted. *)
Theorem bot_start_throws_type_error (cs : list Call) :
  let result := calls initial cs in
  isRunning (fst result) = None
  /\ reports (fst result) = []
  /\ snd result
     = map (fun c => match c with
                     | CallStart _ => Some (Threw (TypeError mapIsNotAFunction))
                     | CallStop => Some (Threw (OwnError notRunning))
                     | CallJoin => Some Returned
                     end) cs.
Proof.
  cbv zeta. destruct (calls_not_running cs initial eq_refl) as (Hrun & _ & Hrep & Hres).
  repeat split; assumption.
Qed.

(** The first call of [start], as in the integration tests, and a [stop]
    after it. *)
Lemma bot_first_start_example (filterLiquidatableTraders : list Trader -> list CheckResult) :
  calls initial [CallStart filterLiquidatableTraders; CallStop]
  = (mkState None (Some false) 0 [],
     [Some (Threw (TypeError mapIsNotAFunction)); Some (Threw (OwnError notRunning))]).
Proof. reflexivity. Qed.

(** The guards of [start] and [stop]: each throws its own error exactly in
    the state it must not be called in. *)
Lemma bot_guards (filterLiquidatableTraders : list Trader -> list CheckResult) (s : State) :
  (snd (start filterLiquidatableTraders s) = Threw (OwnError alreadyRunning)
   <-> isRunning s <> None)
  /\ (snd (stop s) = Some (Threw (OwnError notRunning)) <-> isRunning s = None).
Proof.
  destruct s as [running [aborted|] n emitted]; destruct running as [p|]; cbn;
    split; split; intros H; try reflexivity; try discriminate H; try discriminate;
    now contradiction H.
Qed.

(** What [stop] does to a pending pipeline: the signal is set at once and
    the call waits; when the pipeline rejects with the abort, [botStopped]
    is emitted, all listeners are removed and the promise is fulfilled, and
    the rest of [stop] resets [isRunning]; when the pipeline rejects with
    another error, nothing is emitted and the rest of [stop] throws it. *)
Lemma bot_stop_path (s : State) (aborted : bool) (code : string) :
  isRunning s = Some Pending ->
  botAbortController s = Some aborted ->
  code <> ABORT_ERR ->
  let s1 := fst (stop s) in
  stop s = (mkState (Some Pending) (Some true) (listeners s) (reports s), None)
  /\ pipelineSettles (Raised ABORT_ERR) s1
     = mkState (Some Fulfilled) (Some true) 0 (reports s ++ [BotStopped])
  /\ resume Fulfilled (pipelineSettles (Raised ABORT_ERR) s1)
     = (mkState None (Some true) 0 (reports s ++ [BotStopped]), Some Returned)
  /\ pipelineSettles (Raised code) s1
     = mkState (Some (Rejected code)) (Some true) (listeners s) (reports s)
  /\ snd (resume (Rejected code) (pipelineSettles (Raised code) s1))
     = Some (Threw (PipelineError code)).
Proof.
  destruct s as [running controller n emitted].
  cbn [isRunning botAbortController listeners reports]. intros -> -> Hcode.
  apply String.eqb_neq in Hcode.
  cbn. rewrite Hcode. now repeat split.
Qed.

End BotClaims.

(** * Further properties *)

(** ** Check filter: number, size and place of the chunks *)
Section CheckFilterChunks.

Import CheckFilter.

Lemma chunkLoop_length {A : Type} (fuel size : nat) (array : list A) :
  0 < size -> List.length array <= fuel ->
  List.length (Lodash.chunkLoop fuel size array) = (List.length array + size - 1) / size.
Proof.
  intros Hsize. revert array.
  induction fuel as [|fuel IH]; intros array Hlen.
  - destruct array; [|simpl in Hlen; lia]. cbn.
    symmetry. apply Nat.div_small. lia.
  - destruct array as [|a array].
    + cbn. symmetry. apply Nat.div_small. lia.
    + cbn [Lodash.chunkLoop List.length]. rewrite IH.
      2:{ rewrite length_skipn. cbn [List.length] in *. lia. }
      rewrite length_skipn. cbn [List.length].
      set (m := List.length array).
      replace (S m + size - 1) with (m + 1 * size) by lia.
      rewrite Nat.div_add by lia.
      destruct (Nat.le_gt_cases size (S m)) as [Hle|Hgt].
      * replace (S m - size + size - 1) with m by lia. lia.
      * replace (S m - size + size - 1) with (size - 1) by lia.
        rewrite (Nat.div_small (size - 1)) by lia.
        rewrite (Nat.div_small m) by lia. reflexivity.
Qed.

Lemma chunk_positive {A : Type} (array : list A) (size : Z) :
  (0 < size)%Z ->
  Lodash.chunk array size = Lodash.chunkLoop (List.length array) (Z.to_nat size) array.
Proof.
  intros H. unfold Lodash.chunk. rewrite Z.max_l by lia.
  destruct (Nat.ltb_spec (Z.to_nat size) 1); [lia | reflexivity].
Qed.

Lemma chunk_nil_iff {A : Type} (array : list A) (size : Z) :
  Lodash.chunk array size = [] <-> array = [] \/ (size <= 0)%Z.
Proof.
  split.
  - intros H. destruct (Z_lt_le_dec 0 size) as [Hpos|]; [|now right]. left.
    rewrite chunk_positive in H by assumption.
    destruct array; [reflexivity | discriminate].
  - intros [->|Hle].
    + unfold Lodash.chunk. now destruct (_ <? 1)%nat.
    + unfold Lodash.chunk. rewrite Z.max_r by lia. reflexivity.
Qed.

(** X1.  [check(traders)] yields nothing exactly when there is no trader or
    the chunk size is not positive: with a chunk size of zero or less no
    trader is checked and no error is reported. *)
Theorem check_filter_yields_nothing (api : Api) (chunkSize : Z) (traders : list Trader) :
  constructFilterLiquidatableTraders api chunkSize traders = []
  <-> traders = [] \/ (chunkSize <= 0)%Z.
Proof.
  rewrite <- chunk_nil_iff. unfold constructFilterLiquidatableTraders.
  destruct (Lodash.chunk traders chunkSize); cbn [checkChunks]; split; congruence.
Qed.

(** X2.  For a positive chunk size the number of results, one per call to
    the provider, is the number of traders divided by the chunk size,
    rounded up. *)
Theorem check_filter_number_of_results (api : Api) (chunkSize : Z) (traders : list Trader) :
  (0 < chunkSize)%Z ->
  List.length (constructFilterLiquidatableTraders api chunkSize traders)
  = (List.length traders + Z.to_nat chunkSize - 1) / Z.to_nat chunkSize.
Proof.
  intros H. unfold constructFilterLiquidatableTraders.
  rewrite checkChunks_length, chunk_positive by assumption.
  apply chunkLoop_length; lia.
Qed.

Lemma check_filter_number_of_results_witness :
  List.length (constructFilterLiquidatableTraders (fun _ _ => inl []) 2
                 ["t0"; "t1"; "t2"; "t3"; "t4"]) = 3.
Proof.
  apply (check_filter_number_of_results (fun _ _ => inl []) 2 ["t0"; "t1"; "t2"; "t3"; "t4"]).
  reflexivity.
Defined.

(** X3.  No call to the provider gets more than [chunkSize] traders or
    none at all, and only the last call can get fewer than [chunkSize]. *)
Theorem check_filter_chunk_sizes (chunkSize : Z) (traders : list Trader)
  (i : nat) (c : list Trader) :
  (0 < chunkSize)%Z ->
  nth_error (Lodash.chunk traders chunkSize) i = Some c ->
  1 <= List.length c <= Z.to_nat chunkSize
  /\ (S i < List.length (Lodash.chunk traders chunkSize) ->
      List.length c = Z.to_nat chunkSize).
Proof.
  intros Hpos Hc. rewrite chunk_positive in * by assumption.
  assert (Hsize : 0 < Z.to_nat chunkSize) by lia.
  pose proof (chunkLoop_nth _ _ _ _ _ Hsize Hc) as [Heq Hne].
  assert (Hlen : List.length c
                 = Nat.min (Z.to_nat chunkSize) (List.length traders - i * Z.to_nat chunkSize)).
  { rewrite Heq, length_firstn, length_skipn. reflexivity. }
  split.
  - destruct c; [congruence|]. cbn [List.length] in *. lia.
  - intros Hnext.
    destruct (nth_error (Lodash.chunkLoop (List.length traders) (Z.to_nat chunkSize) traders)
                (S i)) as [c'|] eqn:Hc'.
    + pose proof (chunkLoop_nth _ _ _ _ _ Hsize Hc') as [Heq' Hne'].
      assert (Hlen' : List.length c' <> 0) by (destruct c'; [congruence | discriminate]).
      rewrite Heq', length_firstn, length_skipn in Hlen'. cbn [Nat.mul] in Hlen'. lia.
    + apply nth_error_None in Hc'. lia.
Qed.

Lemma check_filter_chunk_sizes_witness :
  1 <= List.length ["t0"; "t1"] <= Z.to_nat 2
  /\ (S 0 < List.length (Lodash.chunk ["t0"; "t1"; "t2"] 2) ->
      List.length ["t0"; "t1"] = Z.to_nat 2).
Proof.
  apply (check_filter_chunk_sizes 2 ["t0"; "t1"; "t2"] 0 ["t0"; "t1"]); reflexivity.
Defined.

End CheckFilterChunks.

Section CheckFilterCoverage.

Import CheckFilter Readings.

Lemma keys_set_new {V : Type} (o : JsObject.t V) (k : string) (v : V) :
  ~ In k (JsObject.keys o) -> JsObject.keys (JsObject.set o k v) = JsObject.keys o ++ [k].
Proof.
  induction o as [|[k0 v0] o IH]; cbn [JsObject.set JsObject.keys map fst app];
    intros Hn; [reflexivity|].
  destruct (String.eqb_spec k k0) as [->|Hk].
  - exfalso. apply Hn. now left.
  - cbn [map fst]. f_equal. apply IH. intros H. apply Hn. now right.
Qed.

Lemma zipObjectLoop_keys_fresh (props : list string) (values : list bool)
  (o : JsObject.t Value) :
  NoDup props -> (forall p, In p props -> ~ In p (JsObject.keys o)) ->
  JsObject.keys (Lodash.zipObjectLoop o props values) = JsObject.keys o ++ props.
Proof.
  revert values o. induction props as [|p props IH]; intros values o Hnd Hfresh.
  - cbn. now rewrite app_nil_r.
  - inversion Hnd as [|? ? Hnot Hnd']; subst.
    assert (Hstep : forall v,
              JsObject.keys (Lodash.zipObjectLoop (JsObject.set o p v) props
                               (match values with [] => [] | _ :: vs => vs end))
              = JsObject.keys o ++ p :: props).
    { intros v. rewrite IH; [|assumption|].
      - rewrite keys_set_new by (apply Hfresh; now left).
        now rewrite <- app_assoc.
      - intros q Hq. rewrite keys_set. intros [->|Hin]; [contradiction|].
        apply (Hfresh q); [now right | assumption]. }
    destruct values as [|b values]; cbn [Lodash.zipObjectLoop]; apply Hstep.
Qed.

Lemma zipObject_keys_NoDup (props : list string) (values : list bool) :
  NoDup props -> JsObject.keys (Lodash.zipObject props values) = props.
Proof.
  intros H. unfold Lodash.zipObject. rewrite zipObjectLoop_keys_fresh; auto.
Qed.

Lemma concat_NoDup_each {A : Type} (ls : list (list A)) :
  NoDup (List.concat ls) -> Forall (@NoDup A) ls.
Proof.
  induction ls as [|l ls IH]; cbn [List.concat]; intros H; constructor.
  - now apply NoDup_app_remove_r in H.
  - apply IH. now apply NoDup_app_remove_l in H.
Qed.

Lemma checkChunks_checkedTraders (api : Api) (chunkSize : Z) (traders : list Trader)
  (chunks : list (list Trader)) (k : nat) :
  Forall (@NoDup Trader) chunks ->
  List.concat (map checkedTraders (checkChunks api chunkSize traders k chunks))
  = List.concat chunks.
Proof.
  revert k. induction chunks as [|c chunks IH]; intros k Hnd; [reflexivity|].
  inversion Hnd; subst. cbn [checkChunks map List.concat]. rewrite IH by assumption.
  f_equal. unfold checkChunk. destruct (api k c); cbn [checkedTraders errTraders].
  - now apply zipObject_keys_NoDup.
  - reflexivity.
Qed.

(** X4.  For a positive chunk size and a list without repeated traders,
    the results account for every trader exactly once and in order: the keys
    of the answers and the chunks of the errors, put together, are the list
    of traders. *)
Theorem check_filter_accounts_for_every_trader (api : Api) (chunkSize : Z)
  (traders : list Trader) :
  (0 < chunkSize)%Z -> NoDup traders ->
  List.concat (map checkedTraders (constructFilterLiquidatableTraders api chunkSize traders))
  = traders.
Proof.
  intros Hpos Hnd. unfold constructFilterLiquidatableTraders.
  assert (Hconcat : List.concat (Lodash.chunk traders chunkSize) = traders).
  { rewrite chunk_positive by assumption. apply chunkLoop_concat; lia. }
  rewrite checkChunks_checkedTraders; [exact Hconcat|].
  apply concat_NoDup_each. now rewrite Hconcat.
Qed.

Lemma check_filter_accounts_for_every_trader_witness :
  List.concat
    (map checkedTraders
       (constructFilterLiquidatableTraders
          (fun i _ => if (i =? 1)%nat then inr "rpc error" else inl [true; false]) 2
          ["t0"; "t1"; "t2"; "t3"; "t4"]))
  = ["t0"; "t1"; "t2"; "t3"; "t4"].
Proof.
  apply (check_filter_accounts_for_every_trader
           (fun i _ => if (i =? 1)%nat then inr "rpc error" else inl [true; false]) 2
           ["t0"; "t1"; "t2"; "t3"; "t4"]).
  - reflexivity.
  - repeat constructor; cbn; intuition discriminate.
Defined.

Lemma firstn_length_firstn {A : Type} (n : nat) (l : list A) :
  firstn (List.length (firstn n l)) l = firstn n l.
Proof.
  rewrite length_firstn. destruct (Nat.le_gt_cases n (List.length l)).
  - now rewrite Nat.min_l.
  - rewrite Nat.min_r by lia. rewrite firstn_all, firstn_all2 by lia. reflexivity.
Qed.

(** X5.  Every [CheckError] that [check(traders)] yields for a positive
    chunk size describes a place in the list: its traders are the non-empty
    slice of the list that starts at its offset, the offset is a multiple of
    the chunk size, the slice ends within the list, and its total is the
    length of the list. *)
Theorem check_error_describes_slice (api : Api) (chunkSize : Z)
  (traders : list Trader) (e : CheckError) :
  (0 < chunkSize)%Z ->
  In (Failed e) (constructFilterLiquidatableTraders api chunkSize traders) ->
  errTradersTotal e = Z.of_nat (List.length traders)
  /\ errTraders e <> []
  /\ (0 <= errChunkStart e)%Z
  /\ (errChunkStart e mod chunkSize = 0)%Z
  /\ (errChunkStart e + Z.of_nat (List.length (errTraders e)) <= errTradersTotal e)%Z
  /\ errTraders e
     = firstn (List.length (errTraders e)) (skipn (Z.to_nat (errChunkStart e)) traders).
Proof.
  intros Hpos Hin. apply In_nth_error in Hin. destruct Hin as [i Hi].
  unfold constructFilterLiquidatableTraders in Hi. rewrite checkChunks_nth in Hi.
  cbn [Nat.add] in Hi.
  destruct (nth_error (Lodash.chunk traders chunkSize) i) as [c|] eqn:Hc; [|discriminate].
  cbn [option_map] in Hi. unfold checkChunk in Hi.
  destruct (api i c) as [bs|cause]; [discriminate|]. injection Hi as <-.
  cbn [errTraders errChunkStart errTradersTotal].
  rewrite chunk_positive in Hc by assumption.
  assert (Hsize : 0 < Z.to_nat chunkSize) by lia.
  pose proof (chunkLoop_nth _ _ _ _ _ Hsize Hc) as [Heq Hne].
  assert (Hlen : List.length c
                 = Nat.min (Z.to_nat chunkSize) (List.length traders - i * Z.to_nat chunkSize)).
  { rewrite Heq, length_firstn, length_skipn. reflexivity. }
  assert (Hpos' : 0 < List.length c) by (destruct c; [congruence | cbn; lia]).
  assert (Hstart : Z.to_nat (Z.of_nat i * chunkSize) = i * Z.to_nat chunkSize).
  { rewrite Z2Nat.inj_mul, Nat2Z.id by lia. reflexivity. }
  split; [reflexivity|]. split; [assumption|]. split; [lia|].
  split; [apply Z.mod_mul; lia|]. split.
  - assert (Hz : (Z.of_nat i * chunkSize = Z.of_nat (i * Z.to_nat chunkSize))%Z).
    { rewrite Nat2Z.inj_mul, Z2Nat.id by lia. reflexivity. }
    rewrite Hz. lia.
  - rewrite Hstart, Heq. symmetry. apply firstn_length_firstn.
Qed.

Lemma check_error_describes_slice_witness :
  let e := mkCheckError ["t2"; "t3"] 2 5 "rpc error" in
  errTradersTotal e = 5%Z
  /\ errTraders e <> []
  /\ (0 <= errChunkStart e)%Z
  /\ (errChunkStart e mod 2 = 0)%Z
  /\ (errChunkStart e + Z.of_nat (List.length (errTraders e)) <= errTradersTotal e)%Z
  /\ errTraders e
     = firstn (List.length (errTraders e))
         (skipn (Z.to_nat (errChunkStart e)) ["t0"; "t1"; "t2"; "t3"; "t4"]).
Proof.
  apply (check_error_describes_slice
           (fun i _ => if (i =? 1)%nat then inr "rpc error" else inl [true; false]) 2
           ["t0"; "t1"; "t2"; "t3"; "t4"] (mkCheckError ["t2"; "t3"] 2 5 "rpc error")).
  - reflexivity.
  - right. left. reflexivity.
Defined.

End CheckFilterCoverage.

(** ** Traders checker: what a pass forwards *)
Section CheckerPasses.

Import TradersChecker.

(** Entries for other keys leave the timestamp of a trader alone and keep
    it among the new liquidatable traders. *)
Lemma checkEntries_other_key (T : Z) (entries : list (string * Value)) (acc : Acc)
  (t : Trader) :
  ~ In t (map fst entries) ->
  JsObject.get (accTraders (fold_left (checkEntry T) entries acc)) t
  = JsObject.get (accTraders acc) t
  /\ (In t (newLiquidatableTraders acc) ->
      In t (newLiquidatableTraders (fold_left (checkEntry T) entries acc))).
Proof.
  revert acc. induction entries as [|[k v] es IH]; cbn [fold_left map fst]; intros acc Hn.
  - now split.
  - assert (Hk : k <> t) by (intros ->; apply Hn; now left).
    destruct (IH (checkEntry T acc (k, v))) as [Hget Hnew]; [intros H; apply Hn; now right|].
    rewrite Hget. unfold checkEntry in *.
    destruct (skipCheck (JsObject.get (accTraders acc) k) T);
      cbn [accTraders newLiquidatableTraders] in *.
    + now split.
    + split; [now apply get_set_other|].
      intros Hin. apply Hnew. destruct (truthy v); [apply in_app_iff; now left | assumption].
Qed.

(** An entry that passes the guard is stamped and, when truthy, forwarded. *)
Lemma checkEntries_passing_entry (T : Z) (entries : list (string * Value)) (acc : Acc)
  (t : Trader) (v : Value) :
  NoDup (map fst entries) -> In (t, v) entries ->
  skipCheck (JsObject.get (accTraders acc) t) T = false ->
  JsObject.get (accTraders (fold_left (checkEntry T) entries acc)) t = Some (Some T)
  /\ hadNewData (fold_left (checkEntry T) entries acc) = true
  /\ (truthy v = true ->
      In t (newLiquidatableTraders (fold_left (checkEntry T) entries acc))).
Proof.
  unfold Trader in *.
  revert acc. induction entries as [|[k v0] es IH]; cbn [fold_left map fst];
    intros acc Hnd Hin Hskip; [contradiction|].
  inversion Hnd as [|? ? Hnot Hnd']; subst.
  destruct Hin as [[= -> ->]|Hin].
  - destruct (checkEntries_other_key T es (checkEntry T acc (t, v)) t Hnot) as [Hget Hnew].
    pose proof (checkEntry_apply T acc t v Hskip) as Happ. unfold Trader in Happ.
    rewrite Happ in *. cbn [accTraders] in Hget.
    split; [rewrite Hget; apply get_set_same|]. split.
    + now apply hadNewData_stays.
    + intros Hv. apply Hnew.
      cbn [newLiquidatableTraders]. rewrite Hv. apply in_app_iff. right. now left.
  - assert (Hk : k <> t).
    { intros ->. apply Hnot. apply in_map_iff. now exists (t, v). }
    apply IH; [assumption | assumption |].
    unfold checkEntry. destruct (skipCheck (JsObject.get (accTraders acc) k) T);
      cbn [accTraders]; [assumption|].
    now rewrite get_set_other.
Qed.

(** X6.  A check result that arrives for a trader the fetcher has dropped
    in the meantime puts the trader back among the active traders, with the
    timestamp of the pass, and forwards it when it is reported liquidatable. *)
Theorem stale_result_restores_dropped_trader (traders : Traders)
  (activeTraders : list Trader) (T : Z) (o : JsObject.t Value) (t : Trader) (v : Value) :
  ~ In t activeTraders ->
  NoDup (JsObject.keys o) ->
  In (t, v) o ->
  let traders1 := fst (saveActiveTraders traders activeTraders) in
  let r := processCheckResult T traders1 (Checked o) in
  ~ In t (JsObject.keys traders1)
  /\ JsObject.get (fst r) t = Some (Some T)
  /\ (truthy v = true ->
      exists l, snd r = [YieldTraders l] /\ In t l).
Proof.
  intros Hn Hnd Hin traders1 r.
  assert (Hget : JsObject.get traders1 t = None).
  { unfold traders1, saveActiveTraders, JsObject.fromEntries. cbn [fst].
    now rewrite (get_assign_all_other (fun x => orNull (JsObject.get traders x))). }
  assert (Hskip : skipCheck (JsObject.get (accTraders (mkAcc traders1 [] false)) t) T = false)
    by (cbn [accTraders]; now rewrite Hget).
  destruct (checkEntries_passing_entry T o (mkAcc traders1 [] false) t v Hnd Hin Hskip)
    as (Hstamp & Hhad & Hfwd).
  split; [now apply get_none_keys|]. split; [exact Hstamp|].
  intros Hv. exists (newLiquidatableTraders (checkEntries T traders1 (Checked o))).
  split; [|now apply Hfwd].
  unfold r, processCheckResult. cbn [snd app]. unfold checkEntries.
  cbn [resultEntries]. unfold JsObject.entries. now rewrite Hhad.
Qed.

Lemma stale_result_restores_dropped_trader_witness :
  let traders1 := fst (saveActiveTraders [("0xA", Some 5%Z); ("0xB", None)] ["0xB"]) in
  let r := processCheckResult 9 traders1 (Checked [("0xA", VBool true); ("0xB", VBool false)]) in
  ~ In "0xA" (JsObject.keys traders1)
  /\ JsObject.get (fst r) "0xA" = Some (Some 9%Z)
  /\ (truthy (VBool true) = true -> exists l, snd r = [YieldTraders l] /\ In "0xA" l).
Proof.
  apply (stale_result_restores_dropped_trader [("0xA", Some 5%Z); ("0xB", None)] ["0xB"] 9
           [("0xA", VBool true); ("0xB", VBool false)] "0xA" (VBool true)).
  - cbn. intuition discriminate.
  - repeat constructor; cbn; intuition discriminate.
  - now left.
Defined.





Import Readings.











End CheckerPasses.

(** ** Traders checker: the active traders *)
Section ActiveTraders.

Import TradersChecker.

Lemma keys_assign_all_fresh {V : Type} (f : string -> V) (l : list string)
  (o : JsObject.t V) :
  NoDup l -> (forall k, In k l -> ~ In k (JsObject.keys o)) ->
  JsObject.keys (fold_left (fun o e => JsObject.set o (fst e) (snd e))
                   (map (fun x => (x, f x)) l) o)
  = JsObject.keys o ++ l.
Proof.
  revert o. induction l as [|a l IH]; cbn [map fold_left fst snd]; intros o Hnd Hfresh.
  - now rewrite app_nil_r.
  - inversion Hnd as [|? ? Hnot Hnd']; subst. rewrite IH; [|assumption|].
    + rewrite keys_set_new by (apply Hfresh; now left). now rewrite <- app_assoc.
    + intros k Hk. rewrite keys_set. intros [->|Hin]; [contradiction|].
      apply (Hfresh k); [now right | assumption].
Qed.

Lemma fromEntries_nil_iff {V : Type} (f : string -> V) (l : list string) :
  JsObject.isEmpty (JsObject.fromEntries (map (fun x => (x, f x)) l)) = true <-> l = [].
Proof.
  split.
  - intros H. destruct l as [|a l]; [reflexivity|]. exfalso.
    assert (Hin : In a (JsObject.keys (JsObject.fromEntries (map (fun x => (x, f x)) (a :: l)))))
      by (apply keys_assign_all; left; now left).
    destruct (JsObject.fromEntries (map (fun x => (x, f x)) (a :: l)));
      [contradiction | discriminate].
  - intros ->. reflexivity.
Qed.

(** X9.  [saveActiveTraders] signals ["gotActiveTraders"] exactly when the
    new list is not empty; delivering the same list a second time changes
    nothing; and for a list without repeated traders the traders are kept in
    the order of the list, which is the order in which a pass checks them. *)
Theorem saveActiveTraders_same_list_again (traders : Traders) (activeTraders : list Trader) :
  let saved := saveActiveTraders traders activeTraders in
  (snd saved = true <-> activeTraders <> [])
  /\ saveActiveTraders (fst saved) activeTraders = saved
  /\ (NoDup activeTraders -> JsObject.keys (fst saved) = activeTraders).
Proof.
  cbv zeta. unfold saveActiveTraders. cbn [fst snd]. split; [|split].
  - rewrite negb_true_iff.
    pose proof (fromEntries_nil_iff (fun x => orNull (JsObject.get traders x)) activeTraders)
      as Hnil.
    destruct (JsObject.isEmpty _); split; intros H; try congruence.
    + exfalso. apply H. now apply Hnil.
    + intros Hl. apply Hnil in Hl. discriminate.
  - assert (Hsame : map (fun trader =>
                      (trader,
                       orNull (JsObject.get
                                 (JsObject.fromEntries
                                    (map (fun t => (t, orNull (JsObject.get traders t)))
                                       activeTraders)) trader))) activeTraders
                    = map (fun t => (t, orNull (JsObject.get traders t))) activeTraders).
    { apply map_ext_in. intros t Ht. f_equal. unfold JsObject.fromEntries.
      rewrite (get_assign_all_same (fun x => orNull (JsObject.get traders x))) by assumption.
      now destruct (orNull (JsObject.get traders t)). }
    now rewrite Hsame.
  - intros Hnd. unfold JsObject.fromEntries.
    rewrite keys_assign_all_fresh; [reflexivity | assumption | intros k _ []].
Qed.

(** X10.  The timestamp of a trader does not survive its absence: a
    trader missing from one delivered list and present in the next has no
    timestamp, whatever it had before. *)
Theorem saveActiveTraders_forgets_absent_trader (traders : Traders)
  (first second : list Trader) (t : Trader) :
  ~ In t first -> In t second ->
  JsObject.get
    (fst (saveActiveTraders (fst (saveActiveTraders traders first)) second)) t
  = Some None.
Proof.
  intros Hn Hin. unfold saveActiveTraders, JsObject.fromEntries. cbn [fst].
  rewrite (get_assign_all_same
             (fun x => orNull (JsObject.get
                                 (fold_left (fun o e => JsObject.set o (fst e) (snd e))
                                    (map (fun trader => (trader, orNull (JsObject.get traders trader)))
                                       first) []) x)))
    by assumption.
  now rewrite (get_assign_all_other (fun x => orNull (JsObject.get traders x))).
Qed.

Lemma saveActiveTraders_forgets_absent_trader_witness :
  JsObject.get
    (fst (saveActiveTraders (fst (saveActiveTraders [("0xA", Some 7%Z)] ["0xB"]))
            ["0xA"; "0xB"])) "0xA"
  = Some None.
Proof.
  apply (saveActiveTraders_forgets_absent_trader [("0xA", Some 7%Z)] ["0xB"] ["0xA"; "0xB"] "0xA").
  - cbn. intuition discriminate.
  - now left.
Defined.

End ActiveTraders.

(** ** Traders liquidator: the set and the calls *)
Section LiquidatorRuns.

Import TradersLiquidator.

Lemma add_NoDup (s : JsSet.t) (x : string) : NoDup s -> NoDup (JsSet.add s x).
Proof.
  intros H. unfold JsSet.add. destruct (JsSet.has s x) eqn:E; [assumption|].
  apply NoDup_app; [assumption | repeat constructor; intros [] |].
  intros a Ha [<-|[]]. apply has_In in Ha. congruence.
Qed.

Lemma addAll_NoDup (xs : list string) (s : JsSet.t) : NoDup s -> NoDup (JsSet.addAll s xs).
Proof.
  unfold JsSet.addAll. revert s. induction xs as [|x xs IH]; cbn [fold_left]; intros s H; auto.
  apply IH. now apply add_NoDup.
Qed.

Lemma deleteAll_NoDup (xs : list string) (s : JsSet.t) :
  NoDup s -> NoDup (JsSet.deleteAll s xs).
Proof.
  unfold JsSet.deleteAll. revert s. induction xs as [|x xs IH]; cbn [fold_left]; intros s H; auto.
  apply IH. unfold JsSet.delete. now apply NoDup_filter.
Qed.

Lemma loopHead_same_traders (traders : JsSet.t) :
  liquidatableTraders (fst (loopHead traders)) = traders.
Proof. unfold loopHead. now destruct (JsSet.size traders =? 0)%nat. Qed.

Lemma step_NoDup (nFilters : nat) (retryIntervalSec : Z) (s : State) (i : Input) :
  NoDup (liquidatableTraders s) ->
  NoDup (liquidatableTraders (fst (step nFilters retryIntervalSec s i))).
Proof.
  destruct s as [traders p]. cbn [liquidatableTraders]. intros Hnd.
  destruct i as [new| | |liquidations|events]; destruct p;
    cbn [step pc liquidatableTraders saveLiquidatableTraders fst];
    try assumption;
    try (now apply addAll_NoDup);
    try (now rewrite loopHead_same_traders);
    try (now apply deleteAll_NoDup).
  - destruct errors; cbn [fst liquidatableTraders startRecheck]; assumption.
  - destruct (filterNonLiquidatableTraders erroredTraders nFilters events)
      as [[nonLiquidatable checksErrors]|]; [|assumption].
    destruct checksErrors; [rewrite loopHead_same_traders|cbn [fst liquidatableTraders]];
      now apply deleteAll_NoDup.
Qed.

Lemma step_batch_is_set (nFilters : nat) (retryIntervalSec : Z) (s : State) (i : Input)
  (batch : list Trader) :
  In (CallLiquidate batch) (snd (step nFilters retryIntervalSec s i)) ->
  batch = liquidatableTraders (fst (step nFilters retryIntervalSec s i)).
Proof.
  assert (Hhead : forall traders,
            In (CallLiquidate batch) (snd (loopHead traders)) ->
            batch = liquidatableTraders (fst (loopHead traders))).
  { intros traders. unfold loopHead. destruct (JsSet.size traders =? 0)%nat; cbn [fst snd].
    - intros [].
    - intros [[= <-]|[]]. reflexivity. }
  destruct s as [traders p].
  destruct i as [new| | |liquidations|events]; destruct p;
    cbn [step pc liquidatableTraders snd fst];
    try solve [intros H; repeat (destruct H as [H|H]; [discriminate H|]); contradiction H];
    try (now apply Hhead).
  - destruct errors; cbn [snd startRecheck]; intros [[=]|[]].
  - intros [[= <-]|[]]. reflexivity.
  - destruct (filterNonLiquidatableTraders erroredTraders nFilters events)
      as [[nonLiquidatable checksErrors]|]; [|intros []].
    destruct checksErrors; [now apply Hhead | intros [[=]|[]]].
Qed.

Lemma run_NoDup_batch (nFilters : nat) (retryIntervalSec : Z) (inputs : list Input)
  (s : State) (batch : list Trader) :
  NoDup (liquidatableTraders s) ->
  In (CallLiquidate batch) (snd (run nFilters retryIntervalSec s inputs)) ->
  NoDup batch.
Proof.
  revert s. induction inputs as [|i inputs IH]; intros s Hnd; cbn [run].
  - intros [].
  - pose proof (step_NoDup nFilters retryIntervalSec s i Hnd) as Hnd'.
    pose proof (step_batch_is_set nFilters retryIntervalSec s i batch) as Hb.
    destruct (step nFilters retryIntervalSec s i) as [s1 effects1].
    specialize (IH s1 Hnd').
    destruct (run nFilters retryIntervalSec s1 inputs) as [s2 effects2].
    cbn [snd fst] in *. intros H. apply in_app_iff in H. destruct H as [H|H]; auto.
    rewrite (Hb H). assumption.
Qed.

(** X11.  In every run of the liquidator, no batch passed to
    [exchangeService.liquidate] holds a trader twice, however often the
    checker forwards the trader. *)
Theorem liquidate_batch_without_repeats (nFilters : nat) (retryIntervalSec : Z)
  (inputs : list Input) (batch : list Trader) :
  In (CallLiquidate batch) (snd (run nFilters retryIntervalSec initial inputs)) ->
  NoDup batch.
Proof.
  apply run_NoDup_batch. constructor.
Qed.

Lemma liquidate_batch_without_repeats_witness :
  snd (run 1 1 initial [Write ["0xA"; "0xB"; "0xA"]; Write ["0xB"]; Pull])
  = [CallLiquidate ["0xA"; "0xB"]]
  /\ NoDup ["0xA"; "0xB"].
Proof.
  split; [reflexivity|].
  apply (liquidate_batch_without_repeats 1 1
           [Write ["0xA"; "0xB"; "0xA"]; Write ["0xB"]; Pull] ["0xA"; "0xB"]).
  left. reflexivity.
Defined.

Lemma step_calls (nFilters : nat) (retryIntervalSec : Z) (s : State) (i : Input) :
  Readings.liquidateCalls (snd (step nFilters retryIntervalSec s i))
  + Readings.liquidateOutstanding s
  = Readings.liquidationsYielded (snd (step nFilters retryIntervalSec s i))
    + Readings.liquidateOutstanding (fst (step nFilters retryIntervalSec s i)).
Proof.
  assert (Hhead : forall traders,
            Readings.liquidateCalls (snd (loopHead traders))
            = Readings.liquidationsYielded (snd (loopHead traders))
              + Readings.liquidateOutstanding (fst (loopHead traders))).
  { intros traders. unfold loopHead. now destruct (JsSet.size traders =? 0)%nat. }
  destruct s as [traders p].
  destruct i as [new| | |liquidations|events]; destruct p;
    cbn [step pc liquidatableTraders snd fst saveLiquidatableTraders];
    try reflexivity;
    try (unfold Readings.liquidateOutstanding at 1; cbn [pc];
         rewrite Nat.add_0_r; now apply Hhead).
  - destruct (negb _); reflexivity.
  - destruct errors; reflexivity.
  - destruct (filterNonLiquidatableTraders erroredTraders nFilters events)
      as [[nonLiquidatable checksErrors]|]; [|reflexivity].
    destruct checksErrors; [|reflexivity].
    unfold Readings.liquidateOutstanding at 1. cbn [pc]. rewrite Nat.add_0_r. apply Hhead.
Qed.

Lemma run_calls (nFilters : nat) (retryIntervalSec : Z) (inputs : list Input) (s : State) :
  Readings.liquidateCalls (snd (run nFilters retryIntervalSec s inputs))
  + Readings.liquidateOutstanding s
  = Readings.liquidationsYielded (snd (run nFilters retryIntervalSec s inputs))
    + Readings.liquidateOutstanding (fst (run nFilters retryIntervalSec s inputs)).
Proof.
  revert s. induction inputs as [|i inputs IH]; intros s; cbn [run]; [reflexivity|].
  pose proof (step_calls nFilters retryIntervalSec s i) as Hstep.
  destruct (step nFilters retryIntervalSec s i) as [s1 effects1].
  specialize (IH s1).
  destruct (run nFilters retryIntervalSec s1 inputs) as [s2 effects2].
  cbn [fst snd] in *.
  unfold Readings.liquidateCalls, Readings.liquidationsYielded in *.
  rewrite !filter_app, !length_app. lia.
Qed.

(** X12.  The liquidator never calls [exchangeService.liquidate] while a
    call is outstanding: at every point of every run the calls made are the
    liquidation results yielded, plus one exactly while the loop waits for
    the exchange. *)
Theorem liquidate_calls_do_not_overlap (nFilters : nat) (retryIntervalSec : Z)
  (inputs : list Input) :
  let result := run nFilters retryIntervalSec initial inputs in
  Readings.liquidateCalls (snd result)
  = Readings.liquidationsYielded (snd result) + Readings.liquidateOutstanding (fst result)
  /\ Readings.liquidateOutstanding (fst result) <= 1.
Proof.
  cbv zeta. split.
  - pose proof (run_calls nFilters retryIntervalSec inputs initial) as H.
    unfold Readings.liquidateOutstanding at 1 in H. cbn [pc initial] in H. lia.
  - unfold Readings.liquidateOutstanding.
    destruct (pc (fst (run nFilters retryIntervalSec initial inputs))); lia.
Qed.

End LiquidatorRuns.

Section LiquidatorRecheck.

Import TradersLiquidator.

(** X13.  A trader leaves the LiquidatableTraderSet in two ways only: the
    exchange reports its liquidation as done, or it is one of the failed
    traders of the cycle and the re-check returns it as not liquidatable.
    No write, timer or yield removes a trader. *)
Theorem trader_leaves_set_only_when (nFilters : nat) (retryIntervalSec : Z)
  (s : State) (i : Input) (t : Trader) :
  In t (liquidatableTraders s) ->
  ~ In t (liquidatableTraders (fst (step nFilters retryIntervalSec s i))) ->
  (exists liquidations,
      i = Liquidated liquidations /\ pc s = AwaitLiquidate
      /\ In t (JsObject.keys (liquidationsResults liquidations)))
  \/ (exists events erroredTraders nonLiquidatable errors,
        i = Rechecked events /\ pc s = AwaitRecheck erroredTraders
        /\ filterNonLiquidatableTraders erroredTraders nFilters events
           = Some (nonLiquidatable, errors)
        /\ In t nonLiquidatable
        /\ In t erroredTraders).
Proof.
  destruct s as [traders p]. cbn [liquidatableTraders pc]. intros Hin Hout.
  assert (Hadd : forall new, In t (JsSet.addAll traders new))
    by (intros new; apply addAll_In; now right).
  destruct i as [new| | |liquidations|events]; destruct p;
    cbn [step pc liquidatableTraders saveLiquidatableTraders fst] in Hout;
    try (rewrite loopHead_same_traders in Hout);
    try contradiction;
    try (exfalso; apply Hout; apply Hadd).
  - destruct errors; cbn [fst liquidatableTraders startRecheck] in Hout; contradiction.
  - left. exists liquidations. repeat split.
    destruct (in_dec string_dec t (JsObject.keys (liquidationsResults liquidations)));
      [assumption|].
    exfalso. apply Hout. apply deleteAll_In. now split.
  - right.
    destruct (filterNonLiquidatableTraders erroredTraders nFilters events)
      as [[nonLiquidatable errors]|] eqn:Hfilter; [|contradiction].
    exists events, erroredTraders, nonLiquidatable, errors.
    assert (Hnl : In t nonLiquidatable).
    { destruct (in_dec string_dec t nonLiquidatable); [assumption|].
      exfalso. apply Hout.
      destruct errors;
        [rewrite loopHead_same_traders | cbn [fst liquidatableTraders]];
        apply deleteAll_In; now split. }
    repeat split; try assumption.
    unfold filterNonLiquidatableTraders in Hfilter. cbv zeta in Hfilter.
    destruct (resolved (recheckRun nFilters (recheckStart erroredTraders) events));
      [|discriminate].
    injection Hfilter as <- _. apply run_nonLiquidatable_In in Hnl.
    cbn [recheckStart nonLiquidatableTraders] in Hnl. now apply ofList_In.
Qed.

Lemma trader_leaves_set_only_when_witness :
  (exists liquidations,
      Rechecked [CheckYielded 0 (Checked [("0xA", VBool false)]); FilterDone 0]
      = Liquidated liquidations
      /\ AwaitRecheck ["0xA"] = AwaitLiquidate
      /\ In "0xA" (JsObject.keys (liquidationsResults liquidations)))
  \/ (exists events erroredTraders nonLiquidatable errors,
        Rechecked [CheckYielded 0 (Checked [("0xA", VBool false)]); FilterDone 0]
        = Rechecked events
        /\ AwaitRecheck ["0xA"] = AwaitRecheck erroredTraders
        /\ filterNonLiquidatableTraders erroredTraders 1 events
           = Some (nonLiquidatable, errors)
        /\ In "0xA" nonLiquidatable
        /\ In "0xA" erroredTraders).
Proof.
  apply (trader_leaves_set_only_when 1 1 (mkState ["0xA"; "0xB"] (AwaitRecheck ["0xA"]))
           (Rechecked [CheckYielded 0 (Checked [("0xA", VBool false)]); FilterDone 0])
           "0xA").
  - now left.
  - cbn. intros [H|[]]. discriminate.
Defined.

Lemma run_checks_errors (nFilters : nat) (events : list FilterEvent) (s : Recheck) :
  liquidatableChecksErrors (recheckRun nFilters s events)
  = liquidatableChecksErrors s ++ Readings.failedChecks events.
Proof.
  unfold recheckRun. revert s. induction events as [|ev events IH]; intros s; cbn [fold_left].
  - cbn. now rewrite app_nil_r.
  - rewrite IH. unfold Readings.failedChecks. cbn [flat_map].
    destruct ev as [f [o|e]|f]; cbn [recheckStep liquidatableChecksErrors app];
      [reflexivity | now rewrite <- app_assoc | reflexivity].
Qed.

(** X14.  No check error of the re-check is lost: what
    [filterNonLiquidatableTraders] returns as errors is every [CheckError]
    processed until the liquidator continues, in the order of processing,
    and the liquidator yields them exactly when there is one. *)
Theorem recheck_returns_every_check_error (nFilters : nat) (retryIntervalSec : Z)
  (traders : JsSet.t) (erroredTraders : list Trader) (events : list FilterEvent)
  (nonLiquidatable : JsSet.t) (errors : list CheckError) :
  filterNonLiquidatableTraders erroredTraders nFilters events = Some (nonLiquidatable, errors) ->
  errors = Readings.failedChecks events
  /\ snd (step nFilters retryIntervalSec (mkState traders (AwaitRecheck erroredTraders))
            (Rechecked events))
     = match Readings.failedChecks events with
       | [] => snd (loopHead (JsSet.deleteAll traders nonLiquidatable))
       | _ :: _ => [Yield (LiquidatableChecksErrors (Readings.failedChecks events))]
       end.
Proof.
  intros H.
  assert (Herr : errors = Readings.failedChecks events).
  { unfold filterNonLiquidatableTraders in H. cbv zeta in H.
    destruct (resolved _); [|discriminate]. injection H as _ <-.
    now rewrite run_checks_errors. }
  split; [exact Herr|].
  cbn [step pc]. rewrite H, <- Herr. now destruct errors.
Qed.

Lemma recheck_returns_every_check_error_witness :
  let e := mkCheckError ["0xA"] 0 1 "rpc error" in
  let events := [CheckYielded 0 (Failed e); CheckYielded 1 (Checked [("0xA", VBool true)]);
                 FilterDone 1] in
  [e] = Readings.failedChecks events.
Proof.
  apply (recheck_returns_every_check_error 2 1 ["0xA"] ["0xA"]
           [CheckYielded 0 (Failed (mkCheckError ["0xA"] 0 1 "rpc error"));
            CheckYielded 1 (Checked [("0xA", VBool true)]); FilterDone 1]
           [] [mkCheckError ["0xA"] 0 1 "rpc error"]).
  reflexivity.
Defined.

Lemma courseOf_covers (filters : list (list Trader -> list CheckResult))
  (traders : list Trader) (events : list FilterEvent) (ev : FilterEvent) :
  courseOf filters traders events -> In ev events ->
  eventFilter ev < List.length filters.
Proof.
  intros Hc Hin.
  destruct (Nat.lt_ge_cases (eventFilter ev) (List.length filters)) as [|Hge]; auto.
  assert (Hev : In ev (eventsOf (eventFilter ev) events)).
  { apply filter_In. split; [assumption | apply Nat.eqb_refl]. }
  rewrite Hc in Hev. apply nth_error_None in Hge. rewrite Hge in Hev. contradiction.
Qed.

(** X15.  Without any filter the re-check never has a result: no event
    can take place, the promise stays pending and the liquidation loop stays
    suspended in the re-check. *)
Theorem recheck_without_filters_never_returns (retryIntervalSec : Z)
  (traders : JsSet.t) (erroredTraders : list Trader) (events : list FilterEvent) :
  courseOf [] erroredTraders events ->
  events = []
  /\ filterNonLiquidatableTraders erroredTraders 0 events = None
  /\ step 0 retryIntervalSec (mkState traders (AwaitRecheck erroredTraders)) (Rechecked events)
     = (mkState traders (AwaitRecheck erroredTraders), []).
Proof.
  intros Hc.
  assert (Hnil : events = []).
  { destruct events as [|ev events]; [reflexivity|].
    pose proof (courseOf_covers [] erroredTraders (ev :: events) ev Hc (or_introl eq_refl)) as H.
    cbn in H. lia. }
  subst events. repeat split.
Qed.

Lemma recheck_without_filters_never_returns_witness :
  filterNonLiquidatableTraders ["0xA"] 0 [] = None.
Proof.
  apply (recheck_without_filters_never_returns 1 ["0xA"] ["0xA"] []).
  intros filter. now destruct filter.
Defined.

End LiquidatorRecheck.

Section SingleFilter.

Import TradersLiquidator Readings.

Lemma deleteAll_app (s : JsSet.t) (a b : list string) :
  JsSet.deleteAll s (a ++ b) = JsSet.deleteAll (JsSet.deleteAll s a) b.
Proof. unfold JsSet.deleteAll. apply fold_left_app. Qed.

Lemma truthyKeys_NoDup (o : JsObject.t Value) :
  NoDup (JsObject.keys o) -> NoDup (Lodash.truthyKeys o).
Proof.
  unfold Lodash.truthyKeys, JsObject.keys.
  induction o as [|[k v] o IH]; cbn [map List.filter fst snd]; intros Hnd; [constructor|].
  inversion Hnd as [|? ? Hk Hnd']; subst.
  destruct (truthy v); cbn [map fst]; [|now apply IH].
  constructor; [|now apply IH].
  intros Hin. apply Hk. apply in_map_iff in Hin. destruct Hin as ([k' v'] & Hfst & Hin).
  apply filter_In in Hin. apply in_map_iff. exists (k', v'). tauto.
Qed.

Lemma truthyKeys_keys (o : JsObject.t Value) (t : string) :
  In t (Lodash.truthyKeys o) -> In t (JsObject.keys o).
Proof.
  intros H. apply truthyKeys_In in H. destruct H as (v & Hin & _).
  unfold JsObject.keys. apply in_map_iff. now exists (t, v).
Qed.

(** Results about traders that are all different and all in
    [nonLiquidatableTraders]: no iteration ends early. *)
Lemma run_yielded (nFilters filter : nat) (results : list CheckResult) (s : Recheck) :
  NoDup (List.concat (map checkedTraders results)) ->
  (forall t, In t (List.concat (map checkedTraders results)) ->
             In t (nonLiquidatableTraders s)) ->
  nonLiquidatableTraders (recheckRun nFilters s (map (CheckYielded filter) results))
  = JsSet.deleteAll (nonLiquidatableTraders s) (flat_map reportedLiquidatable results)
  /\ processed (recheckRun nFilters s (map (CheckYielded filter) results)) = processed s
  /\ resolved (recheckRun nFilters s (map (CheckYielded filter) results)) = resolved s.
Proof.
  unfold recheckRun. revert s.
  induction results as [|r results IH]; intros s Hnd Hin;
    cbn [map fold_left flat_map List.concat] in *.
  - now repeat split.
  - assert (Hnd' : NoDup (List.concat (map checkedTraders results)))
      by (now apply NoDup_app_remove_l in Hnd).
    destruct r as [o|e].
    + cbn [checkedTraders reportedLiquidatable] in *.
      assert (Hstep : nonLiquidatableTraders (recheckStep nFilters s (CheckYielded filter (Checked o)))
                      = JsSet.deleteAll (nonLiquidatableTraders s) (Lodash.truthyKeys o)).
      { cbn [recheckStep nonLiquidatableTraders]. apply forEach_delete_all.
        - apply truthyKeys_NoDup. now apply NoDup_app_remove_r in Hnd.
        - intros t Ht. apply Hin. apply in_app_iff. left. now apply truthyKeys_keys. }
      destruct (IH (recheckStep nFilters s (CheckYielded filter (Checked o))) Hnd')
        as (Hn & Hp & Hr).
      { intros t Ht. rewrite Hstep. apply deleteAll_In. split.
        - apply Hin. apply in_app_iff. now right.
        - intros Htruthy. apply truthyKeys_keys in Htruthy.
          exact (NoDup_app_disjoint _ _ t Hnd Htruthy Ht). }
      rewrite Hn, Hp, Hr, Hstep, deleteAll_app. now repeat split.
    + cbn [checkedTraders reportedLiquidatable app] in *.
      destruct (IH (recheckStep nFilters s (CheckYielded filter (Failed e))) Hnd')
        as (Hn & Hp & Hr).
      { intros t Ht. cbn [recheckStep nonLiquidatableTraders]. apply Hin.
        apply in_app_iff. now right. }
      rewrite Hn, Hp, Hr. now repeat split.
Qed.

Lemma filter_all {A : Type} (p : A -> bool) (l : list A) :
  (forall x, In x l -> p x = true) -> List.filter p l = l.
Proof.
  induction l as [|a l IH]; cbn [List.filter]; intros H; [reflexivity|].
  rewrite (H a (or_introl eq_refl)). f_equal. apply IH. intros x Hx. apply H. now right.
Qed.

Lemma filter_checks_every_trader (api : CheckFilter.Api) (chunkSize : Z)
  (traders : list Trader) :
  (0 < chunkSize)%Z -> NoDup traders ->
  List.concat
    (map checkedTraders (CheckFilter.constructFilterLiquidatableTraders api chunkSize traders))
  = traders.
Proof.
  intros Hpos Hnd. unfold CheckFilter.constructFilterLiquidatableTraders.
  assert (Hconcat : List.concat (Lodash.chunk traders chunkSize) = traders).
  { rewrite chunk_positive by assumption. apply chunkLoop_concat; lia. }
  rewrite checkChunks_checkedTraders; [exact Hconcat|].
  apply concat_NoDup_each. now rewrite Hconcat.
Qed.

(** X16.  With the single filter over the chunks of failed traders that are
    all different, the re-check does not depend on timing and no answer is
    cut short: the events are the results of the filter followed by its
    completion, and the decision is the failed traders without those that
    some answer of the filter reports liquidatable, together with all its
    check errors. *)
Theorem recheck_with_single_filter (api : CheckFilter.Api) (chunkSize : Z)
  (traders : list Trader) (events : list FilterEvent) :
  (0 < chunkSize)%Z -> NoDup traders ->
  let filter := CheckFilter.constructFilterLiquidatableTraders api chunkSize in
  courseOf [filter] traders events ->
  events = map (CheckYielded 0) (filter traders) ++ [FilterDone 0]
  /\ filterNonLiquidatableTraders traders 1 events
     = Some (JsSet.deleteAll (JsSet.ofList traders)
               (flat_map reportedLiquidatable (filter traders)),
             failedChecks events).
Proof.
  intros Hpos Hnd filter Hc.
  assert (Hev : events = map (CheckYielded 0) (filter traders) ++ [FilterDone 0]).
  { pose proof (Hc 0) as H0. cbn [nth_error] in H0. rewrite <- H0.
    unfold eventsOf. symmetry. apply filter_all.
    intros ev Hin. apply Nat.eqb_eq.
    pose proof (courseOf_covers [filter] traders events ev Hc Hin) as H. cbn in H. lia. }
  split; [exact Hev|].
  set (yielded := map (CheckYielded 0) (filter traders)) in *.
  set (s1 := recheckRun 1 (recheckStart traders) yielded).
  assert (Hrun : recheckRun 1 (recheckStart traders) events = recheckStep 1 s1 (FilterDone 0)).
  { rewrite Hev. unfold s1, recheckRun. now rewrite fold_left_app. }
  assert (Hchecked : List.concat (map checkedTraders (filter traders)) = traders)
    by (now apply filter_checks_every_trader).
  destruct (run_yielded 1 0 (filter traders) (recheckStart traders)) as (Hn & Hp & Hr).
  { now rewrite Hchecked. }
  { intros t Ht. rewrite Hchecked in Ht.
    cbn [recheckStart nonLiquidatableTraders]. now apply ofList_In. }
  fold yielded in Hn, Hp, Hr. fold s1 in Hn, Hp, Hr.
  assert (Herr : liquidatableChecksErrors s1 = failedChecks events).
  { unfold s1. rewrite run_checks_errors, Hev. unfold failedChecks.
    rewrite flat_map_app. cbn. now rewrite app_nil_r. }
  unfold filterNonLiquidatableTraders. cbv zeta. rewrite Hrun.
  cbn [recheckStep resolved nonLiquidatableTraders liquidatableChecksErrors].
  rewrite Hp, Hr, Hn, Herr. reflexivity.
Qed.

Lemma recheck_with_single_filter_witness :
  let filter := CheckFilter.constructFilterLiquidatableTraders
                  (fun i _ => if (i =? 0)%nat then inl [true] else inr "rpc error") 1 in
  let events := map (CheckYielded 0) (filter ["0xA"; "0xB"]) ++ [FilterDone 0] in
  filterNonLiquidatableTraders ["0xA"; "0xB"] 1 events
  = Some (["0xB"], [mkCheckError ["0xB"] 1 2 "rpc error"]).
Proof.
  apply (recheck_with_single_filter
           (fun i _ => if (i =? 0)%nat then inl [true] else inr "rpc error") 1
           ["0xA"; "0xB"]).
  - reflexivity.
  - apply NoDup_cons; [cbn; intros [H|[]]; discriminate H|].
    apply NoDup_cons; [intros [] | apply NoDup_nil].
  - intros k. destruct k as [|[|k]]; reflexivity.
Defined.

(** With a trader that occurs twice among the failed traders the second
    answer is cut short: its first trader has been deleted for the first
    answer, and the trader after it is returned as not liquidatable although
    the answer reports it liquidatable. *)
Lemma recheck_single_filter_repeated_trader :
  let filter := CheckFilter.constructFilterLiquidatableTraders
                  (fun _ _ => inl [true; true]) 2 in
  let traders := ["0xA"; "0xB"; "0xA"; "0xC"] in
  filterNonLiquidatableTraders traders 1
    (map (CheckYielded 0) (filter traders) ++ [FilterDone 0])
  = Some (["0xC"], []).
Proof. reflexivity. Qed.

End SingleFilter.

(** ** The liquidation loop: sleeping and waking *)
Section LiquidatorSleep.

Import TradersLiquidator.

Variables (nFilters : nat) (retryIntervalSec : Z).

Lemma loopHead_sleeps_on_empty (traders : JsSet.t) :
  pc (fst (loopHead traders)) = AwaitTraders ->
  liquidatableTraders (fst (loopHead traders)) = [].
Proof.
  unfold loopHead. destruct (JsSet.size traders =? 0)%nat eqn:E; cbn [fst pc liquidatableTraders].
  - intros _. now apply size_zero.
  - discriminate.
Qed.

Lemma step_sleeps_on_empty (s : State) (i : Input) :
  (pc s = AwaitTraders -> liquidatableTraders s = []) ->
  pc (fst (step nFilters retryIntervalSec s i)) = AwaitTraders ->
  liquidatableTraders (fst (step nFilters retryIntervalSec s i)) = [].
Proof.
  destruct s as [traders p]. cbn [pc liquidatableTraders]. intros Hinv.
  destruct i as [new| | |liquidations|events]; destruct p;
    cbn [step pc liquidatableTraders saveLiquidatableTraders fst];
    try discriminate;
    try (now apply loopHead_sleeps_on_empty);
    try (intros H; now apply Hinv).
  - (* a write while the loop waits for traders *)
    destruct (negb (JsSet.size (JsSet.addAll traders new) =? 0)%nat) eqn:E;
      cbn [fst pc liquidatableTraders]; [discriminate|].
    intros _. apply size_zero. now apply negb_false_iff in E.
  - destruct errors; cbn [fst pc startRecheck]; discriminate.
  - destruct (filterNonLiquidatableTraders erroredTraders nFilters events)
      as [[nonLiquidatable checksErrors]|]; [|discriminate].
    destruct checksErrors; [|discriminate].
    now apply loopHead_sleeps_on_empty.
Qed.

Lemma run_sleeps_on_empty (inputs : list Input) (s : State) :
  (pc s = AwaitTraders -> liquidatableTraders s = []) ->
  pc (fst (run nFilters retryIntervalSec s inputs)) = AwaitTraders ->
  liquidatableTraders (fst (run nFilters retryIntervalSec s inputs)) = [].
Proof.
  revert s. induction inputs as [|i inputs IH]; intros s Hinv; cbn [run].
  - exact Hinv.
  - pose proof (step_sleeps_on_empty s i Hinv) as Hinv'.
    destruct (step nFilters retryIntervalSec s i) as [s1 effects1].
    specialize (IH s1 Hinv').
    destruct (run nFilters retryIntervalSec s1 inputs) as [s2 effects2].
    exact IH.
Qed.

(** X20.  The liquidation loop never sleeps on traders: in every run,
    whenever the loop waits for ["gotLiquidatableTraders"] the set is empty,
    and a write of a non-empty list then wakes it, so that its continuation
    calls [exchangeService.liquidate] with exactly the written traders. *)
Theorem liquidator_sleeps_only_on_empty_set (inputs : list Input) (new : list Trader) :
  let s := fst (run nFilters retryIntervalSec initial inputs) in
  pc s = AwaitTraders ->
  new <> [] ->
  liquidatableTraders s = []
  /\ snd (run nFilters retryIntervalSec s [Write new; Resume])
     = [CallLiquidate (JsSet.ofList new)].
Proof.
  cbv zeta. intros Hpc Hne.
  assert (Hempty : liquidatableTraders (fst (run nFilters retryIntervalSec initial inputs)) = []).
  { apply run_sleeps_on_empty; [discriminate | exact Hpc]. }
  split; [exact Hempty|].
  destruct (fst (run nFilters retryIntervalSec initial inputs)) as [traders p].
  cbn [pc liquidatableTraders] in Hpc, Hempty. subst p traders.
  cbn [run step pc liquidatableTraders saveLiquidatableTraders].
  fold (JsSet.ofList new).
  assert (Hsize : (JsSet.size (JsSet.ofList new) =? 0)%nat = false).
  { apply not_true_is_false. intros H. apply size_zero in H.
    destruct new as [|t new]; [now apply Hne|].
    assert (Hin : In t (JsSet.ofList (t :: new))) by (apply ofList_In; now left).
    rewrite H in Hin. exact Hin. }
  unfold JsSet.ofList, JsSet.addAll in *. rewrite Hsize. reflexivity.
Qed.

End LiquidatorSleep.

Lemma liquidator_sleeps_only_on_empty_set_witness :
  TradersLiquidator.liquidatableTraders
    (fst (TradersLiquidator.run 1 1 TradersLiquidator.initial [TradersLiquidator.Pull])) = []
  /\ snd (TradersLiquidator.run 1 1
            (fst (TradersLiquidator.run 1 1 TradersLiquidator.initial [TradersLiquidator.Pull]))
            [TradersLiquidator.Write ["0xA"; "0xB"; "0xA"]; TradersLiquidator.Resume])
     = [TradersLiquidator.CallLiquidate (JsSet.ofList ["0xA"; "0xB"; "0xA"])].
Proof.
  apply (liquidator_sleeps_only_on_empty_set 1 1 [TradersLiquidator.Pull]
           ["0xA"; "0xB"; "0xA"]).
  - reflexivity.
  - discriminate.
Defined.

(** ** From the checker to the liquidator *)
Section CheckerToLiquidator.

Import TradersLiquidator.

Variables (nFilters : nat) (retryIntervalSec : Z).

Lemma adapter_forwards_yielded_traders (checkerStream : list TradersChecker.Output) :
  snd (Bot.checkerToLiquidatorAdapterAndReporter checkerStream)
  = TradersChecker.yieldedTraders checkerStream.
Proof.
  induction checkerStream as [|[e|l] rest IH];
    cbn [Bot.checkerToLiquidatorAdapterAndReporter TradersChecker.yieldedTraders flat_map];
    [reflexivity| |];
    destruct (Bot.checkerToLiquidatorAdapterAndReporter rest) as [emitted forwarded];
    cbn [snd app] in *; now rewrite IH.
Qed.

Lemma adapter_reports_each_result (checkerStream : list TradersChecker.Output) :
  List.length (fst (Bot.checkerToLiquidatorAdapterAndReporter checkerStream))
  = List.length checkerStream.
Proof.
  induction checkerStream as [|[e|l] rest IH];
    cbn [Bot.checkerToLiquidatorAdapterAndReporter]; [reflexivity| |];
    destruct (Bot.checkerToLiquidatorAdapterAndReporter rest) as [emitted forwarded];
    cbn [fst List.length] in *; now rewrite IH.
Qed.

Lemma write_adds_traders (s : State) (new : list Trader) :
  liquidatableTraders (fst (step nFilters retryIntervalSec s (Write new)))
  = JsSet.addAll (liquidatableTraders s) new
  /\ snd (step nFilters retryIntervalSec s (Write new)) = [].
Proof.
  destruct s as [traders p].
  destruct p; cbn [step pc saveLiquidatableTraders fst snd liquidatableTraders]; now split.
Qed.

Lemma writes_add_traders (lists : list (list Trader)) (s : State) (t : Trader) :
  (In t (liquidatableTraders (fst (run nFilters retryIntervalSec s (map Write lists))))
   <-> In t (liquidatableTraders s) \/ exists l, In l lists /\ In t l)
  /\ snd (run nFilters retryIntervalSec s (map Write lists)) = [].
Proof.
  revert s. induction lists as [|l lists IH]; intros s; cbn [map run].
  - cbn [fst snd]. split; [|reflexivity]. split; [now left|].
    intros [H|(l & [] & _)]. exact H.
  - pose proof (write_adds_traders s l) as [Hset Heff].
    destruct (step nFilters retryIntervalSec s (Write l)) as [s1 effects1].
    cbn [fst snd] in Hset, Heff. subst effects1.
    specialize (IH s1). destruct IH as [IH Hnone].
    destruct (run nFilters retryIntervalSec s1 (map Write lists)) as [s2 effects2].
    cbn [fst snd] in *. split; [|now rewrite Hnone].
    rewrite IH, Hset, addAll_In. split.
    + intros [[H|H]|(l' & Hl' & Ht)].
      * right. exists l. split; [now left | exact H].
      * now left.
      * right. exists l'. split; [now right | exact Ht].
    + intros [H|(l' & [<-|Hl'] & Ht)].
      * left. now right.
      * left. now left.
      * right. now exists l'.
Qed.

(** X21.  Between the checker and the liquidator no trader is lost and none
    is made up: after the adapter has passed on what the checker yielded and
    the liquidator has taken the writes, the liquidator's set holds exactly
    the traders it held before and the traders of the lists the checker
    yielded.  The adapter reports every value of the checker once, and the
    writes alone make the liquidator call nothing and yield nothing. *)
Theorem checker_lists_reach_liquidator (checkerStream : list TradersChecker.Output)
  (s : State) (t : Trader) :
  let passedOn := Bot.checkerToLiquidatorAdapterAndReporter checkerStream in
  let after := run nFilters retryIntervalSec s (map Write (snd passedOn)) in
  (In t (liquidatableTraders (fst after))
   <-> In t (liquidatableTraders s)
       \/ exists l, In (TradersChecker.YieldTraders l) checkerStream /\ In t l)
  /\ List.length (fst passedOn) = List.length checkerStream
  /\ snd after = [].
Proof.
  cbv zeta. rewrite adapter_forwards_yielded_traders.
  pose proof (writes_add_traders (TradersChecker.yieldedTraders checkerStream) s t)
    as [Hset Hnone].
  split; [|split; [apply adapter_reports_each_result | exact Hnone]].
  rewrite Hset. apply or_iff_compat_l.
  unfold TradersChecker.yieldedTraders.
  split; intros (l & Hl & Ht); exists l; (split; [|exact Ht]).
  - apply in_flat_map in Hl. destruct Hl as ([e|l'] & Hin & Hl); [destruct Hl|].
    destruct Hl as [<-|[]]. exact Hin.
  - apply in_flat_map. exists (TradersChecker.YieldTraders l). split; [exact Hl | now left].
Qed.

End CheckerToLiquidator.

(** ** What is reported of a liquidation cycle *)
Section CycleReports.

Import TradersLiquidator.

Variables (nFilters : nat) (retryIntervalSec : Z).

Lemma loopHead_yields_nothing (traders : JsSet.t) :
  Readings.yields (snd (loopHead traders)) = [].
Proof. unfold loopHead. now destruct (JsSet.size traders =? 0)%nat. Qed.

Lemma run_yields_cons (s : State) (i : Input) (rest : list Input) :
  Readings.yields (snd (run nFilters retryIntervalSec s (i :: rest)))
  = Readings.yields (snd (step nFilters retryIntervalSec s i))
    ++ Readings.yields
         (snd (run nFilters retryIntervalSec (fst (step nFilters retryIntervalSec s i)) rest)).
Proof.
  cbn [run]. destruct (step nFilters retryIntervalSec s i) as [s1 effects1].
  cbn [fst snd].
  destruct (run nFilters retryIntervalSec s1 rest) as [s2 effects2].
  cbn [fst snd]. unfold Readings.yields. apply flat_map_app.
Qed.

(** X22.  Of a liquidation cycle everything is reported once and in this
    order: starting where the loop waits for [exchangeService.liquidate],
    from the result of the call to the end of the re-check, [liquidatorReporter]
    emits an ["error"] event for each liquidation error, a
    ["traderLiquidated"] event for each entry of the results, and an
    ["error"] event for each check error of the re-check; it emits nothing
    else. *)
Theorem liquidation_cycle_reports (s : State) (liquidations : Liquidations)
  (events : list FilterEvent) :
  pc s = AwaitLiquidate ->
  filterNonLiquidatableTraders (map trader (liquidationsErrors liquidations)) nFilters events
  <> None ->
  let inputs :=
    Liquidated liquidations :: Pull
    :: match liquidationsErrors liquidations with
       | [] => []
       | _ :: _ => [Resume]
       end ++ [Rechecked events] in
  Reporting.liquidatorReporter
    (Readings.yields (snd (run nFilters retryIntervalSec s inputs)))
  = map (fun error => Reporting.ErrorEvent (Reporting.LiquidationFailure error))
      (liquidationsErrors liquidations)
    ++ map (fun entry => Reporting.TraderLiquidated (fst entry) (snd entry))
         (JsObject.entries (liquidationsResults liquidations))
    ++ map (fun error => Reporting.ErrorEvent (Reporting.CheckFailure error))
         (Readings.failedChecks events).
Proof.
  destruct s as [traders p]. cbn [pc]. intros -> Hres. cbv zeta.
  destruct (filterNonLiquidatableTraders (map trader (liquidationsErrors liquidations))
              nFilters events) as [[nonLiquidatable checksErrors]|] eqn:Hfilter;
    [clear Hres | now contradiction Hres].
  assert (Herr : checksErrors = Readings.failedChecks events).
  { unfold filterNonLiquidatableTraders in Hfilter. cbv zeta in Hfilter.
    destruct (resolved _); [|discriminate]. injection Hfilter as _ <-.
    now rewrite run_checks_errors. }
  assert (Hlast : forall traders',
            Readings.yields
              (snd (step nFilters retryIntervalSec
                      (mkState traders'
                         (AwaitRecheck (map trader (liquidationsErrors liquidations))))
                      (Rechecked events)))
            = match checksErrors with
              | [] => []
              | _ :: _ => [LiquidatableChecksErrors checksErrors]
              end).
  { intros traders'. cbn [step pc]. rewrite Hfilter.
    destruct checksErrors; [apply loopHead_yields_nothing | reflexivity]. }
  assert (Hrun : Readings.yields
                   (snd (run nFilters retryIntervalSec (mkState traders AwaitLiquidate)
                           (Liquidated liquidations :: Pull
                            :: match liquidationsErrors liquidations with
                               | [] => []
                               | _ :: _ => [Resume]
                               end ++ [Rechecked events])))
                 = LiquidationsDone liquidations
                   :: match checksErrors with
                      | [] => []
                      | _ :: _ => [LiquidatableChecksErrors checksErrors]
                      end).
  { rewrite run_yields_cons. cbn [step pc liquidatableTraders fst snd].
    rewrite run_yields_cons.
    destruct (liquidationsErrors liquidations) as [|e errors] eqn:Herrors.
    - cbn [step pc liquidatableTraders fst snd startRecheck app].
      rewrite run_yields_cons, Hlast. cbn [run snd].
      unfold Readings.yields. cbn [flat_map app]. now rewrite app_nil_r.
    - cbn [step pc liquidatableTraders fst snd app].
      rewrite run_yields_cons. cbn [step pc liquidatableTraders fst snd startRecheck].
      rewrite run_yields_cons, Hlast. cbn [run snd].
      unfold Readings.yields. cbn [flat_map app]. now rewrite app_nil_r. }
  rewrite Hrun, <- Herr. unfold Reporting.liquidatorReporter.
  cbn [flat_map Reporting.reportLiquidatorResult].
  rewrite <- app_assoc. do 2 f_equal.
  destruct checksErrors; cbn [flat_map Reporting.reportLiquidatorResult map];
    [reflexivity | now rewrite app_nil_r].
Qed.

End CycleReports.

Lemma liquidation_cycle_reports_witness :
  let liquidations :=
    TradersLiquidator.mkLiquidations
      [("0xA", "0xhash")]
      [TradersLiquidator.mkLiquidationError "0xB" "reverted"] in
  let events :=
    [TradersLiquidator.CheckYielded 0
       (Failed (mkCheckError ["0xB"] 0 1 "timeout"));
     TradersLiquidator.FilterDone 0] in
  let inputs :=
    TradersLiquidator.Liquidated liquidations :: TradersLiquidator.Pull
    :: match TradersLiquidator.liquidationsErrors liquidations with
       | [] => []
       | _ :: _ => [TradersLiquidator.Resume]
       end ++ [TradersLiquidator.Rechecked events] in
  Reporting.liquidatorReporter
    (Readings.yields
       (snd (TradersLiquidator.run 1 1
               (TradersLiquidator.mkState ["0xA"; "0xB"] TradersLiquidator.AwaitLiquidate)
               inputs)))
  = map (fun error => Reporting.ErrorEvent (Reporting.LiquidationFailure error))
      (TradersLiquidator.liquidationsErrors liquidations)
    ++ map (fun entry => Reporting.TraderLiquidated (fst entry) (snd entry))
         (JsObject.entries (TradersLiquidator.liquidationsResults liquidations))
    ++ map (fun error => Reporting.ErrorEvent (Reporting.CheckFailure error))
         (Readings.failedChecks events).
Proof.
  apply (liquidation_cycle_reports 1 1
           (TradersLiquidator.mkState ["0xA"; "0xB"] TradersLiquidator.AwaitLiquidate)
           (TradersLiquidator.mkLiquidations
              [("0xA", "0xhash")]
              [TradersLiquidator.mkLiquidationError "0xB" "reverted"])
           [TradersLiquidator.CheckYielded 0
              (Failed (mkCheckError ["0xB"] 0 1 "timeout"));
            TradersLiquidator.FilterDone 0]).
  - reflexivity.
  - discriminate.
Defined.

(** ** From the fetcher to the checker *)
Section FetcherToChecker.

Import TradersChecker Reporting.

Lemma saveActiveTraders_keys (traders : Traders) (activeTraders : list Trader) (t : Trader) :
  In t (JsObject.keys (fst (saveActiveTraders traders activeTraders))) <-> In t activeTraders.
Proof.
  unfold saveActiveTraders, JsObject.fromEntries. cbn [fst].
  rewrite keys_assign_all. cbn. tauto.
Qed.

Lemma saveActiveTraders_get (traders : Traders) (activeTraders : list Trader) (t : Trader) :
  In t activeTraders ->
  JsObject.get (fst (saveActiveTraders traders activeTraders)) t
  = Some (orNull (JsObject.get traders t)).
Proof.
  intros H. unfold saveActiveTraders, JsObject.fromEntries. cbn [fst].
  now rewrite (get_assign_all_same (fun trader => orNull (JsObject.get traders trader))).
Qed.

Lemma orNull_again (x : option (option Z)) : orNull (Some (orNull x)) = orNull x.
Proof. now destruct x as [[checkedAt|]|]. Qed.

Lemma adapter_reports_each_fetch (fetcherStream : list FetcherResult) :
  List.length (fst (fetcherToCheckerAdapterAndReporter fetcherStream))
  = List.length fetcherStream.
Proof.
  induction fetcherStream as [|[l|c] rest IH];
    cbn [fetcherToCheckerAdapterAndReporter]; [reflexivity| |];
    destruct (fetcherToCheckerAdapterAndReporter rest) as [emitted forwarded];
    cbn [fst List.length] in *; now rewrite IH.
Qed.

Lemma saveAll_last_fetched (fetcherStream : list FetcherResult) (traders : Traders) :
  match Readings.lastFetched fetcherStream with
  | None =>
      saveAll traders (snd (fetcherToCheckerAdapterAndReporter fetcherStream)) = traders
  | Some activeTraders =>
      forall t,
        In t (JsObject.keys
                (saveAll traders (snd (fetcherToCheckerAdapterAndReporter fetcherStream))))
        <-> In t activeTraders
  end.
Proof.
  revert traders. induction fetcherStream as [|[l|c] rest IH]; intros traders;
    cbn [Readings.lastFetched fetcherToCheckerAdapterAndReporter].
  - reflexivity.
  - specialize (IH (fst (saveActiveTraders traders l))).
    destruct (fetcherToCheckerAdapterAndReporter rest) as [emitted forwarded].
    cbn [snd] in *. unfold saveAll in *. cbn [fold_left].
    destruct (Readings.lastFetched rest) as [activeTraders|].
    + exact IH.
    + rewrite IH. intros t. apply saveActiveTraders_keys.
  - specialize (IH traders).
    destruct (fetcherToCheckerAdapterAndReporter rest) as [emitted forwarded].
    cbn [snd] in *.
    destruct (Readings.lastFetched rest) as [activeTraders|]; exact IH.
Qed.

Lemma saveAll_keeps_timestamp (fetcherStream : list FetcherResult) (traders : Traders)
  (t : Trader) :
  (forall activeTraders, In (Fetched activeTraders) fetcherStream -> In t activeTraders) ->
  Readings.lastFetched fetcherStream <> None ->
  JsObject.get (saveAll traders (snd (fetcherToCheckerAdapterAndReporter fetcherStream))) t
  = Some (orNull (JsObject.get traders t)).
Proof.
  revert traders. induction fetcherStream as [|[l|c] rest IH]; intros traders Hall Hsome;
    cbn [Readings.lastFetched fetcherToCheckerAdapterAndReporter] in *.
  - now contradiction Hsome.
  - pose proof (saveAll_last_fetched rest (fst (saveActiveTraders traders l))) as Hlast.
    specialize (IH (fst (saveActiveTraders traders l))
                  (fun activeTraders H => Hall activeTraders (or_intror H))).
    destruct (fetcherToCheckerAdapterAndReporter rest) as [emitted forwarded].
    cbn [snd] in *. unfold saveAll in *. cbn [fold_left].
    assert (Hin : In t l) by (apply Hall; now left).
    destruct (Readings.lastFetched rest) as [activeTraders|].
    + rewrite IH by discriminate.
      now rewrite saveActiveTraders_get, orNull_again.
    + rewrite Hlast. now apply saveActiveTraders_get.
  - specialize (IH traders (fun activeTraders H => Hall activeTraders (or_intror H))).
    destruct (fetcherToCheckerAdapterAndReporter rest) as [emitted forwarded].
    cbn [snd] in *.
    destruct (Readings.lastFetched rest) as [activeTraders|]; [|now contradiction Hsome].
    apply IH. discriminate.
Qed.

(** X23.  Fetch errors do not touch the active traders.  After the adapter
    has passed on what the fetcher yielded and the checker has taken the
    writes, the checker's traders are those of the last list the fetcher
    yielded, whatever errors came before or after it, and they are
    unchanged when the fetcher yielded errors only; a trader that is in
    every list fetched keeps its last-checked-at timestamp.  The adapter
    reports every value of the fetcher once. *)
Theorem fetch_errors_keep_active_traders (fetcherStream : list FetcherResult)
  (traders : Traders) :
  let passedOn := fetcherToCheckerAdapterAndReporter fetcherStream in
  let traders' := saveAll traders (snd passedOn) in
  List.length (fst passedOn) = List.length fetcherStream
  /\ match Readings.lastFetched fetcherStream with
     | None => traders' = traders
     | Some activeTraders => forall t, In t (JsObject.keys traders') <-> In t activeTraders
     end
  /\ forall t,
       (forall activeTraders, In (Fetched activeTraders) fetcherStream -> In t activeTraders) ->
       Readings.lastFetched fetcherStream <> None ->
       JsObject.get traders' t = Some (orNull (JsObject.get traders t)).
Proof.
  cbv zeta. split; [apply adapter_reports_each_fetch|].
  split; [apply saveAll_last_fetched|].
  intros t. apply saveAll_keeps_timestamp.
Qed.

End FetcherToChecker.

(** ** The durations shown by the pm2 reporter *)
Section Durations.

Import Pm2.

Local Open Scope Z_scope.

Lemma toInt32_small (x : Z) : - 2 ^ 31 <= x < 2 ^ 31 -> toInt32 x = x.
Proof. intros H. unfold toInt32. rewrite Z.mod_small; lia. Qed.

Lemma divInt32_nonneg (a b : Z) : 0 <= a < 2 ^ 31 * b -> 0 < b -> divInt32 a b = a / b.
Proof.
  intros Ha Hb. unfold divInt32. rewrite Z.quot_div_nonneg by lia.
  apply toInt32_small. split.
  - assert (0 <= a / b) by (apply Z.div_pos; lia). lia.
  - apply Z.div_lt_upper_bound; lia.
Qed.

Lemma nonEmpty_append (a b : string) :
  nonEmpty (String.append a b) = nonEmpty a || nonEmpty b.
Proof. now destruct a. Qed.

Lemma append_empty (a : string) : String.append a "" = a.
Proof. induction a as [|c a IH]; cbn; [reflexivity | now rewrite IH]. Qed.

(** The loop prints the first value that is not zero and, when it is not
    zero, the value after it. *)
Lemma durationLoop_leading_units (days hours minutes seconds : Z) :
  (let durationStr :=
     durationLoop [(days, "d"); (hours, "h"); (minutes, "m"); (seconds, "s")]%string "" in
   if nonEmpty durationStr then durationStr else "0s"%string)
  = if negb (days =? 0) then Readings.withNextUnit days "d" hours "h"
    else if negb (hours =? 0) then Readings.withNextUnit hours "h" minutes "m"
    else if negb (minutes =? 0) then Readings.withNextUnit minutes "m" seconds "s"
    else if negb (seconds =? 0) then String.append (numberToString seconds) "s"
    else "0s"%string.
Proof.
  cbv zeta. unfold Readings.withNextUnit. cbn [durationLoop nonEmpty String.append].
  destruct (days =? 0); cbn [negb nonEmpty String.append];
    rewrite ?nonEmpty_append; cbn [nonEmpty]; rewrite ?orb_true_r.
  - destruct (hours =? 0); cbn [negb nonEmpty String.append];
      rewrite ?nonEmpty_append; cbn [nonEmpty]; rewrite ?orb_true_r.
    + destruct (minutes =? 0); cbn [negb nonEmpty String.append];
        rewrite ?nonEmpty_append; cbn [nonEmpty]; rewrite ?orb_true_r.
      * destruct (seconds =? 0); cbn [negb nonEmpty String.append];
          rewrite ?nonEmpty_append; cbn [nonEmpty]; rewrite ?orb_true_r; reflexivity.
      * destruct (seconds =? 0); cbn [negb nonEmpty String.append];
          rewrite ?nonEmpty_append, ?append_empty; cbn [nonEmpty];
          rewrite ?orb_true_r; reflexivity.
    + destruct (minutes =? 0); cbn [negb nonEmpty String.append];
        rewrite ?nonEmpty_append, ?append_empty; cbn [nonEmpty];
        rewrite ?orb_true_r; reflexivity.
  - destruct (hours =? 0); cbn [negb nonEmpty String.append];
      rewrite ?nonEmpty_append, ?append_empty; cbn [nonEmpty];
      rewrite ?orb_true_r; reflexivity.
Qed.

(** In this range no division leaves 32 bits, and the truncated quotients
    and the remainders are those of the elapsed whole seconds. *)
Lemma getDurationStr_parts (from to : Z) :
  0 <= to - from < 2 ^ 31 * 1000 ->
  getDurationStr (Some from) to
  = let elapsed := (to - from) / 1000 in
    let durationStr :=
      durationLoop [(elapsed / 86400, "d"); ((elapsed / 3600) mod 24, "h");
                    ((elapsed / 60) mod 60, "m"); (elapsed mod 60, "s")]%string "" in
    if nonEmpty durationStr then durationStr else "0s"%string.
Proof.
  intros Hrange. cbv zeta.
  assert (Hsec : divInt32 (to - from) 1000 = (to - from) / 1000)
    by (apply divInt32_nonneg; lia).
  assert (Hs : 0 <= (to - from) / 1000 < 2 ^ 31).
  { split; [apply Z.div_pos; lia | apply Z.div_lt_upper_bound; lia]. }
  set (elapsed := (to - from) / 1000) in *.
  assert (Hmin : divInt32 elapsed 60 = elapsed / 60) by (apply divInt32_nonneg; lia).
  assert (Hm : 0 <= elapsed / 60 < 2 ^ 31).
  { split; [apply Z.div_pos; lia | apply Z.div_lt_upper_bound; lia]. }
  assert (Hhour : divInt32 (elapsed / 60) 60 = elapsed / 3600).
  { rewrite divInt32_nonneg by lia. rewrite Z.div_div by lia. reflexivity. }
  assert (Hh : 0 <= elapsed / 3600 < 2 ^ 31).
  { split; [apply Z.div_pos; lia | apply Z.div_lt_upper_bound; lia]. }
  assert (Hday : divInt32 (elapsed / 3600) 24 = elapsed / 86400).
  { rewrite divInt32_nonneg by lia. rewrite Z.div_div by lia. reflexivity. }
  unfold getDurationStr. cbv zeta.
  rewrite Hsec, Hmin, Hhour, Hday.
  now rewrite !Z.rem_mod_nonneg by lia.
Qed.

(** X24.  For a time [to] that is at or after [from] by less than 2^31
    seconds (some 68 years), [getDurationStr] shows the elapsed whole seconds
    by their two leading units: with the elapsed seconds split into days,
    hours of the day, minutes of the hour and seconds of the minute, it
    prints the first of these that is not zero and, when that is not zero
    either, the one after it; less than a second is ["0s"]. *)
Theorem getDurationStr_two_leading_units (from to : Z) :
  0 <= to - from < 2 ^ 31 * 1000 ->
  getDurationStr (Some from) to = Readings.twoLeadingUnits ((to - from) / 1000).
Proof.
  intros Hrange. rewrite getDurationStr_parts by exact Hrange.
  unfold Readings.twoLeadingUnits. apply durationLoop_leading_units.
Qed.

Lemma getDurationStr_two_leading_units_witness :
  getDurationStr (Some 1650000000000) 1650000105000
  = Readings.twoLeadingUnits ((1650000105000 - 1650000000000) / 1000).
Proof.
  apply (getDurationStr_two_leading_units 1650000000000 1650000105000). lia.
Defined.

(** The examples of the comment above [getDurationStr], and what is shown
    once the elapsed seconds no longer fit 32 bits. *)
Example getDurationStr_examples :
  getDurationStr (Some 0) 30000 = "30s"%string
  /\ getDurationStr (Some 0) 90000 = "1m 30s"%string
  /\ getDurationStr (Some 0) 3600000 = "1h"%string
  /\ getDurationStr (Some 0) 7140000 = "1h 59m"%string
  /\ getDurationStr (Some 0) 1522800000 = "17d 15h"%string
  /\ getDurationStr (Some 0) 3601000 = "1h"%string
  /\ getDurationStr (Some 0) 999 = "0s"%string
  /\ getDurationStr None 999 = "-"%string
  /\ getDurationStr (Some 0) (2 ^ 31 * 1000) = "-24855d -3h"%string.
Proof. repeat split; vm_compute; reflexivity. Qed.

End Durations.

(** ** The metrics of the pm2 reporter *)
Section Metrics.

Import Pm2.

Local Open Scope Z_scope.

Lemma timesOf_snoc (kind : Reporting.Event -> bool) (events : list (Z * Reporting.Event))
  (now : Z) (event : Reporting.Event) :
  Readings.timesOf kind (events ++ [(now, event)])
  = (if kind event then [now] else []) ++ Readings.timesOf kind events.
Proof.
  unfold Readings.timesOf. rewrite filter_app, map_app, rev_app_distr.
  cbn [List.filter snd]. now destruct (kind event).
Qed.

Lemma timesOf_In (kind : Reporting.Event -> bool) (events : list (Z * Reporting.Event))
  (t : Z) :
  In t (Readings.timesOf kind events) -> In t (map fst events).
Proof.
  unfold Readings.timesOf. rewrite <- in_rev. intros H.
  apply in_map_iff in H. destruct H as (e & <- & He).
  apply filter_In in He. apply in_map. tauto.
Qed.

Lemma sorted_snoc (l : list Z) (a : Z) :
  StronglySorted Z.le (l ++ [a]) ->
  StronglySorted Z.le l /\ Forall (fun x => x <= a) l.
Proof.
  induction l as [|x l IH]; cbn [app]; intros H.
  - split; constructor.
  - inversion H as [|? ? Hs Hall]; subst. destruct (IH Hs) as [Hl Hle].
    apply Forall_app in Hall. destruct Hall as [Hall Ha].
    split; constructor; try assumption. now inversion Ha.
Qed.

(** The most recent time comes first. *)
Lemma timesOf_descending (kind : Reporting.Event -> bool)
  (events : list (Z * Reporting.Event)) :
  StronglySorted Z.le (map fst events) ->
  StronglySorted (fun later earlier => earlier <= later) (Readings.timesOf kind events).
Proof.
  induction events as [|[now event] events IH] using rev_ind; intros Hs.
  - constructor.
  - rewrite map_app in Hs. cbn [map fst] in Hs. apply sorted_snoc in Hs.
    destruct Hs as [Hs Hle]. rewrite timesOf_snoc.
    destruct (kind event); cbn [app]; [|now apply IH].
    constructor; [now apply IH|].
    apply Forall_forall. intros t Ht. apply timesOf_In in Ht.
    now apply (proj1 (Forall_forall _ _) Hle).
Qed.

Lemma reportEvents_snoc (m : Metrics) (events : list (Z * Reporting.Event)) (now : Z)
  (event : Reporting.Event) :
  reportEvents m (events ++ [(now, event)]) = reportEvent (reportEvents m events) now event.
Proof. unfold reportEvents. now rewrite fold_left_app. Qed.

(** What the variables and the counters hold after a sequence of events. *)
Lemma reportEvents_variables (events : list (Z * Reporting.Event)) :
  let m := reportEvents noMetrics events in
  (lastErrorTime m = hd_error (Readings.timesOf Readings.isError events)
   /\ lastLiquidationTime m = hd_error (Readings.timesOf Readings.isLiquidated events))
  /\ (lastFetchTime m = hd_error (Readings.timesOf Readings.isFetched events)
      /\ beforeLastFetchTime m = nth_error (Readings.timesOf Readings.isFetched events) 1)
  /\ (lastCheckTime m = hd_error (Readings.timesOf Readings.isChecked events)
      /\ beforeLastCheckTime m = nth_error (Readings.timesOf Readings.isChecked events) 1)
  /\ (errorsCounter m = List.length (Readings.timesOf Readings.isError events)
      /\ liquidationsCounter m = List.length (Readings.timesOf Readings.isLiquidated events)
      /\ fetchCycleCounter m = List.length (Readings.timesOf Readings.isFetched events)
      /\ checkCycleCounter m = List.length (Readings.timesOf Readings.isChecked events)).
Proof.
  cbv zeta. induction events as [|[now event] events IH] using rev_ind.
  - now cbn.
  - destruct IH as ((He & Hl) & (Hf & Hbf) & (Hc & Hbc) & Hne & Hnl & Hnf & Hnc).
    rewrite reportEvents_snoc, !timesOf_snoc.
    destruct event;
      cbn [reportEvent Readings.isError Readings.isLiquidated Readings.isFetched
             Readings.isChecked app hd_error nth_error List.length
             lastErrorTime lastLiquidationTime lastFetchTime beforeLastFetchTime
             lastCheckTime beforeLastCheckTime errorsCounter liquidationsCounter
             fetchCycleCounter checkCycleCounter];
      repeat split; first [assumption | congruence].
Qed.

Lemma since_shown (times : list Z) (now : Z) :
  (forall t, In t times -> 0 <= now - t < 2 ^ 31 * 1000) ->
  getDurationStr (hd_error times) now = Readings.since times now.
Proof.
  intros Hrange. destruct times as [|t times]; cbn [hd_error Readings.since]; [reflexivity|].
  rewrite getDurationStr_parts by (apply Hrange; now left).
  unfold Readings.twoLeadingUnits. apply durationLoop_leading_units.
Qed.

Lemma between_shown (times : list Z) (now : Z) :
  StronglySorted (fun later earlier => earlier <= later) times ->
  (forall t, In t times -> 0 <= now - t < 2 ^ 31 * 1000) ->
  getDurationStr (nth_error times 1) (defaultTo (hd_error times) now)
  = Readings.between times.
Proof.
  intros Hs Hrange.
  destruct times as [|t1 [|t0 times]];
    cbn [nth_error hd_error defaultTo Readings.between]; [reflexivity|reflexivity|].
  assert (H0 : 0 <= now - t0 < 2 ^ 31 * 1000) by (apply Hrange; right; now left).
  assert (H1 : 0 <= now - t1 < 2 ^ 31 * 1000) by (apply Hrange; now left).
  assert (Hle : t0 <= t1).
  { inversion Hs as [|? ? _ Hall]; subst. now inversion Hall. }
  rewrite getDurationStr_parts by lia.
  unfold Readings.twoLeadingUnits. apply durationLoop_leading_units.
Qed.

(** X25.  With a clock that does not go backwards (and less than 2^31
    seconds in all), the metrics of the pm2 reporter show what their names
    say: each "Since ..." metric shows the time from the last event of its
    kind to the moment it is read, ["-"] when there was none; "Previous
    fetch" and "Previous check" show the time between the last two events
    of the kind, ["-"] when there were fewer than two; and each counter
    holds the number of events of its kind. *)
Theorem metrics_show_time_of_events (events : list (Z * Reporting.Event)) (now : Z) :
  StronglySorted Z.le (map fst events ++ [now]) ->
  (forall t, In t (map fst events) -> now - t < 2 ^ 31 * 1000) ->
  let m := reportEvents noMetrics events in
  durationMetrics m now
  = [("Since liquidation",
      Readings.since (Readings.timesOf Readings.isLiquidated events) now);
     ("Since error", Readings.since (Readings.timesOf Readings.isError events) now);
     ("Since traders fetch",
      Readings.since (Readings.timesOf Readings.isFetched events) now);
     ("Previous fetch", Readings.between (Readings.timesOf Readings.isFetched events));
     ("Since liquidatable check",
      Readings.since (Readings.timesOf Readings.isChecked events) now);
     ("Previous check", Readings.between (Readings.timesOf Readings.isChecked events))]%string
  /\ errorsCounter m = List.length (Readings.timesOf Readings.isError events)
  /\ liquidationsCounter m = List.length (Readings.timesOf Readings.isLiquidated events)
  /\ fetchCycleCounter m = List.length (Readings.timesOf Readings.isFetched events)
  /\ checkCycleCounter m = List.length (Readings.timesOf Readings.isChecked events).
Proof.
  intros Hclock Hbound. cbv zeta.
  apply sorted_snoc in Hclock. destruct Hclock as [Hsorted Hnow].
  assert (Hrange : forall kind t,
            In t (Readings.timesOf kind events) -> 0 <= now - t < 2 ^ 31 * 1000).
  { intros kind t Ht. apply timesOf_In in Ht. split.
    - pose proof (proj1 (Forall_forall _ _) Hnow t Ht) as Hle. cbv beta in Hle. lia.
    - now apply Hbound. }
  destruct (reportEvents_variables events)
    as ((He & Hl) & (Hf & Hbf) & (Hc & Hbc) & Hcounters).
  split; [|exact Hcounters].
  unfold durationMetrics. rewrite He, Hl, Hf, Hbf, Hc, Hbc.
  rewrite !since_shown by apply Hrange.
  rewrite !between_shown by (try apply timesOf_descending; try apply Hrange; assumption).
  reflexivity.
Qed.

Lemma metrics_show_time_of_events_witness :
  let events :=
    [(1650000000000, Reporting.TradersFetched ["0xA"]);
     (1650000020000, Reporting.TradersFetched ["0xA"; "0xB"]);
     (1650000021000, Reporting.TradersChecked ["0xB"]);
     (1650000022000, Reporting.ErrorEvent (Reporting.FetchFailure "timeout"))]%string in
  let now := 1650000142000 in
  let m := reportEvents noMetrics events in
  durationMetrics m now
  = [("Since liquidation",
      Readings.since (Readings.timesOf Readings.isLiquidated events) now);
     ("Since error", Readings.since (Readings.timesOf Readings.isError events) now);
     ("Since traders fetch",
      Readings.since (Readings.timesOf Readings.isFetched events) now);
     ("Previous fetch", Readings.between (Readings.timesOf Readings.isFetched events));
     ("Since liquidatable check",
      Readings.since (Readings.timesOf Readings.isChecked events) now);
     ("Previous check", Readings.between (Readings.timesOf Readings.isChecked events))]%string
  /\ errorsCounter m = List.length (Readings.timesOf Readings.isError events)
  /\ liquidationsCounter m = List.length (Readings.timesOf Readings.isLiquidated events)
  /\ fetchCycleCounter m = List.length (Readings.timesOf Readings.isFetched events)
  /\ checkCycleCounter m = List.length (Readings.timesOf Readings.isChecked events).
Proof.
  apply (metrics_show_time_of_events
           [(1650000000000, Reporting.TradersFetched ["0xA"]);
            (1650000020000, Reporting.TradersFetched ["0xA"; "0xB"]);
            (1650000021000, Reporting.TradersChecked ["0xB"]);
            (1650000022000, Reporting.ErrorEvent (Reporting.FetchFailure "timeout"))]%string
           1650000142000).
  - cbn [map fst app]. repeat constructor; lia.
  - cbn [map fst]. intros t Ht.
    repeat (destruct Ht as [<-|Ht]; [lia|]). contradiction Ht.
Defined.

(** What the metrics of the events above read. *)
Example metrics_example :
  durationMetrics
    (reportEvents noMetrics
       [(1650000000000, Reporting.TradersFetched ["0xA"]);
        (1650000020000, Reporting.TradersFetched ["0xA"; "0xB"]);
        (1650000021000, Reporting.TradersChecked ["0xB"]);
        (1650000022000, Reporting.ErrorEvent (Reporting.FetchFailure "timeout"))]%string)
    1650000142000
  = [("Since liquidation", "-"); ("Since error", "2m");
     ("Since traders fetch", "2m 2s"); ("Previous fetch", "20s");
     ("Since liquidatable check", "2m 1s"); ("Previous check", "-")]%string.
Proof. vm_compute. reflexivity. Qed.

End Metrics.
